(** * SplatViewer: morph controller and floating markers

    A shallow embedding of [src/SplatViewer.ts], and of the parts of the
    page script (main.ts) that choose the performance tier and the
    animation.

    Conventions of the embedding.
    - A number that the code keeps whole (an index, a counter, a colour
      byte, a pixel coordinate) is an integer ([Z] or [nat]).
    - A JavaScript number is a real number ([R]): arithmetic is exact, there
      is no NaN.  Of the fields kept here only two time stamps ever hold
      [Number.POSITIVE_INFINITY]; they have the type [Time] below.
    - [performance.now()] and [Math.random()] are inputs of the operation
      that calls them.
    - A string is a sequence of code units below 256 (Latin-1).
    - [this.*] fields of the class are fields of a record; a method is a
      function from the record to the record.
    - JavaScript exceptions are the [Thrown] outcome of [Outcome]. *)

From Stdlib Require Import Reals Lra Lia ZArith List String Ascii Bool.
From stdpp Require Import base gmap.
Import ListNotations.

(** ** Numbers *)

Module Js.
Local Open Scope R_scope.

Definition ltb (x y : R) : bool := if Rlt_dec x y then true else false.
Definition leb (x y : R) : bool := if Rle_dec x y then true else false.
Definition gtb (x y : R) : bool := ltb y x.
Definition geb (x y : R) : bool := leb y x.
Definition eqb (x y : R) : bool := if Req_dec_T x y then true else false.

(** Rounding toward zero, as in the quotient of [%]. *)
Definition trunc (x : R) : R :=
  if Rle_dec 0 x then IZR (Int_part x) else - IZR (Int_part (- x)).

(** [a % b]: the remainder has the sign of the dividend. *)
Definition rem (a b : R) : R := a - b * trunc (a / b).

(** [Math.round]: the nearest integer, halves upward. *)
Definition round (x : R) : Z := Int_part (x + / 2).

Definition pow3 (x : R) : R := x * x * x.

End Js.

(** ** ModeRegistry: the alias table of [setAnimation] *)

Module ModeRegistry.
Local Open Scope string_scope.

Inductive AnimMode := none | zwave | swirl | noise | breath | explode.

(** What [this.animationMode] holds at run time.  The field is assigned
    [map[normalized] || "none"]; [map] is an object literal, so a key that
    is not its own is looked up on [Object.prototype]. *)
Inductive ModeValue :=
| Canon (m : AnimMode)
| Inherited (key : string).

Definition isUpperAZ (n : nat) : bool := (65 <=? n)%nat && (n <=? 90)%nat.
Definition isUpperLatin1 (n : nat) : bool :=
  (192 <=? n)%nat && (n <=? 222)%nat && negb (n =? 215)%nat.

Definition lowerUnit (c : ascii) : ascii :=
  let n := nat_of_ascii c in
  if isUpperAZ n || isUpperLatin1 n then ascii_of_nat (n + 32) else c.

Fixpoint toLowerCase (s : string) : string :=
  match s with
  | EmptyString => EmptyString
  | String c r => String (lowerUnit c) (toLowerCase r)
  end.

(** White space and line terminators of ECMAScript below 256:
    TAB, LF, VT, FF, CR, SP, NBSP. *)
Definition isWhiteSpace (c : ascii) : bool :=
  let n := nat_of_ascii c in
  ((9 <=? n)%nat && (n <=? 13)%nat) || (n =? 32)%nat || (n =? 160)%nat.

Fixpoint trimStart (s : string) : string :=
  match s with
  | EmptyString => EmptyString
  | String c r => if isWhiteSpace c then trimStart r else s
  end.

Fixpoint trimEnd (s : string) : string :=
  match s with
  | EmptyString => EmptyString
  | String c r =>
      match trimEnd r with
      | EmptyString => if isWhiteSpace c then EmptyString else String c EmptyString
      | r' => String c r'
      end
  end.

Definition trim (s : string) : string := trimEnd (trimStart s).

(** The own properties of the literal [map]. *)
Definition ownProperty (key : string) : option AnimMode :=
  if key =? "none" then Some none
  else if key =? "off" then Some none
  else if key =? "z wave" then Some zwave
  else if key =? "z_wave" then Some zwave
  else if key =? "z-wave" then Some zwave
  else if key =? "zwave" then Some zwave
  else if key =? "swirl" then Some swirl
  else if key =? "noise" then Some noise
  else if key =? "breath" then Some breath
  else if key =? "breathe" then Some breath
  else if key =? "explode" then Some explode
  else None.

(** The properties every object literal inherits from [Object.prototype];
    each of them is a function or an object, hence truthy. *)
Definition objectPrototypeKeys : list string :=
  [ "constructor"; "__proto__"; "hasOwnProperty"; "isPrototypeOf";
    "propertyIsEnumerable"; "toLocaleString"; "toString"; "valueOf";
    "__defineGetter__"; "__defineSetter__"; "__lookupGetter__";
    "__lookupSetter__" ].

Definition inheritedProperty (key : string) : bool :=
  existsb (String.eqb key) objectPrototypeKeys.

(** [String(mode || "none").toLowerCase().trim()] *)
Definition normalize (mode : string) : string :=
  trim (toLowerCase (if mode =? "" then "none" else mode)).

(** [map[normalized] || "none"] *)
Definition resolve (mode : string) : ModeValue :=
  let normalized := normalize mode in
  match ownProperty normalized with
  | Some m => Canon m
  | None => if inheritedProperty normalized then Inherited normalized
            else Canon none
  end.

(** [this.animationMode === "none"] *)
Definition isNone (v : ModeValue) : bool :=
  match v with Canon none => true | _ => false end.

Definition animationModeToInt (v : ModeValue) : Z :=
  match v with
  | Canon zwave => 1
  | Canon swirl => 2
  | Canon noise => 3
  | Canon breath => 4
  | Canon explode => 5
  | _ => 0
  end.

End ModeRegistry.

(** ** MorphClock, RenderModeGate and TransitionBridge *)

Module Controller.
Import ModeRegistry.
Local Open Scope R_scope.

(** [CustomUniformRefs]: the values of the six shader uniforms. *)
Record CustomUniformRefs := {
  u_time : R;
  u_mode : Z;
  u_morph : R;
  u_colorGain : R;
  u_strength : R;
  u_radius : R
}.

(** [viewer.splatMesh] of the rendering library: the two setters the
    controller calls (each behind a [typeof ... === "function"] test) and
    the values they set. *)
Record SplatMesh := {
  hasSetPointCloudModeEnabled : bool;
  hasSetSplatScale : bool;
  meshPointCloudMode : bool;
  meshSplatScale : R
}.

Definition setPointCloudModeEnabled (b : bool) (m : SplatMesh) : SplatMesh :=
  if hasSetPointCloudModeEnabled m then
    {| hasSetPointCloudModeEnabled := true;
       hasSetSplatScale := hasSetSplatScale m;
       meshPointCloudMode := b;
       meshSplatScale := meshSplatScale m |}
  else m.

Definition setSplatScale (x : R) (m : SplatMesh) : SplatMesh :=
  if hasSetSplatScale m then
    {| hasSetPointCloudModeEnabled := hasSetPointCloudModeEnabled m;
       hasSetSplatScale := true;
       meshPointCloudMode := meshPointCloudMode m;
       meshSplatScale := x |}
  else m.

Record State := {
  isMobileLike : bool;
  disposed : bool;
  splatMesh : option SplatMesh;             (* this.viewer?.splatMesh *)
  customUniforms : option CustomUniformRefs;
  animationMode : ModeValue;
  animationStartTime : R;
  lastUniformUpdateTimeMs : R;
  pointCloudEnabled : bool;
  luminanceBridgeActive : bool;
  luminanceBridgeFrom : R;
  luminanceBridgeElapsed : R;
  scaleBridgeActive : bool;
  scaleBridgeFrom : R;
  scaleBridgeElapsed : R;
  colorGainApplied : R;
  scaleApplied : R;
  sceneRadius : R
}.

Definition morphLoopSeconds : R := 3.2.
Definition pointCloudEnterMorph : R := 0.38.
Definition pointCloudExitMorph : R := 0.02.
Definition modelRevealStartMorph : R := 0.34.
Definition modelRevealStartGain : R := 0.62.
Definition modelRevealStartScale : R := 0.84.
Definition luminanceBridgeDurationSeconds : R := 0.32.
Definition scaleBridgeDurationSeconds : R := 0.28.
Definition colorRisePerSecond : R := 0.35.
Definition colorFallPerSecond : R := 1.8.

Definition clamp01 (t : R) : R := Rmax 0 (Rmin 1 t).

Definition easeInOutCubic (t : R) : R :=
  let x := clamp01 t in
  if Js.ltb x 0.5 then 4 * x * x * x
  else 1 - Js.pow3 (-2 * x + 2) / 2.

Definition smoothstep (edge0 edge1 x : R) : R :=
  if Js.eqb edge0 edge1 then (if Js.ltb x edge0 then 0 else 1)
  else
    let t := clamp01 ((x - edge0) / (edge1 - edge0)) in
    t * t * (3 - 2 * t).

Definition mix (a b t : R) : R :=
  let x := clamp01 t in
  a * (1 - x) + b * x.

Definition easeOutCubic (t : R) : R :=
  let x := clamp01 t in
  1 - Js.pow3 (1 - x).

(** Lines 498-509 of [updateAnimationUniforms]: the clock readings of a
    tick. *)
Definition elapsedSecondsAt (nowMs : R) (s : State) : R :=
  (nowMs - animationStartTime s) / 1000.

Definition dtAt (nowMs : R) (s : State) : R :=
  Rmin (Rmax ((nowMs - lastUniformUpdateTimeMs s) / 1000) 0) 0.05.

Definition phaseOf (elapsedSeconds : R) : R :=
  Js.rem elapsedSeconds morphLoopSeconds / morphLoopSeconds.

Definition dispersingOf (mode : ModeValue) (elapsedSeconds : R) : bool :=
  if isNone mode then false
  else Js.ltb (phaseOf elapsedSeconds) 0.5.

Definition morphOf (mode : ModeValue) (elapsedSeconds : R) : R :=
  if isNone mode then 0
  else
    let phase := phaseOf elapsedSeconds in
    let triangle := if Js.ltb phase 0.5 then phase * 2 else (1 - phase) * 2 in
    easeInOutCubic triangle.

Definition updateAnimationUniforms (nowMs : R) (s : State) : State :=
  match customUniforms s with
  | None => s
  | Some _ =>
    let elapsedSeconds := elapsedSecondsAt nowMs s in
    let dt := dtAt nowMs s in
    let modeNone := isNone (animationMode s) in
    let morph := morphOf (animationMode s) elapsedSeconds in
    let dispersing := dispersingOf (animationMode s) elapsedSeconds in
    let targetPointCloud :=
      if modeNone then false
      else if dispersing && Js.geb morph pointCloudEnterMorph then true
      else if negb dispersing && Js.leb morph pointCloudExitMorph then false
      else pointCloudEnabled s in
    let inModelRevealWindow :=
      negb modeNone && negb dispersing && Js.leb morph modelRevealStartMorph in
    let modelRevealBlend :=
      if inModelRevealWindow then 1 - smoothstep 0 modelRevealStartMorph morph
      else 0 in
    let morphForScale := easeInOutCubic morph in
    let scaleGate := smoothstep 0.03 0.18 morph in
    let reassemblyFill :=
      if negb dispersing then 1 - smoothstep 0.0 0.28 morph else 0 in
    let targetScaleRaw :=
      if modeNone then 1.0
      else 1.0 + 0.22 * morphForScale * scaleGate + 0.26 * reassemblyFill in
    let pointCloudBlend :=
      if modeNone then 0
      else if dispersing then
        smoothstep (pointCloudEnterMorph - 0.14) (pointCloudEnterMorph + 0.04) morph
      else smoothstep 0.0 0.16 morph in
    let convergence := 1 - smoothstep 0.0 0.24 morph in
    let modelGain := 1.0 - 0.08 * convergence in
    let particleGain := 1.2 + 0.14 * convergence in
    let colorGainRaw :=
      if modeNone then 1.0 else mix modelGain particleGain pointCloudBlend in
    let handoffToModel :=
      if modeNone then 1
      else 1 - smoothstep (pointCloudExitMorph + 0.02) (pointCloudExitMorph + 0.14) morph in
    let targetScaleBase := mix targetScaleRaw 1.0 handoffToModel in
    let targetScale :=
      if isMobileLike s && targetPointCloud then targetScaleBase * 1.18
      else targetScaleBase in
    let colorGainTarget := colorGainRaw in
    (* if (splatMesh) { ... } *)
    let targetPointCloud' :=
      match splatMesh s with
      | None => targetPointCloud
      | Some _ =>
          if inModelRevealWindow then false
          else if negb dispersing && Js.leb morph (pointCloudExitMorph + 0.03) then false
          else targetPointCloud
      end in
    let hasMesh := match splatMesh s with Some _ => true | None => false end in
    let switchingFromPointCloudToModel :=
      hasMesh && pointCloudEnabled s && negb targetPointCloud' in
    let lumActive1 := if switchingFromPointCloudToModel then true else luminanceBridgeActive s in
    let lumFrom1 := if switchingFromPointCloudToModel then colorGainApplied s else luminanceBridgeFrom s in
    let lumElapsed1 := if switchingFromPointCloudToModel then 0 else luminanceBridgeElapsed s in
    let scActive1 := if switchingFromPointCloudToModel then true else scaleBridgeActive s in
    let scFrom1 := if switchingFromPointCloudToModel then Rmin (scaleApplied s) 0.9 else scaleBridgeFrom s in
    let scElapsed1 := if switchingFromPointCloudToModel then 0 else scaleBridgeElapsed s in
    let mesh1 :=
      match splatMesh s with
      | None => None
      | Some m =>
          if Bool.eqb (pointCloudEnabled s) targetPointCloud' then Some m
          else Some (setPointCloudModeEnabled targetPointCloud' m)
      end in
    let pointCloudEnabled1 := if hasMesh then targetPointCloud' else pointCloudEnabled s in
    (* desiredScale *)
    let scaleBridging := negb inModelRevealWindow && negb modeNone && scActive1 in
    let scElapsed2 := if scaleBridging then scElapsed1 + dt else scElapsed1 in
    let pScale := smoothstep 0 scaleBridgeDurationSeconds scElapsed2 in
    let desiredScale :=
      if inModelRevealWindow then mix modelRevealStartScale 1.0 modelRevealBlend
      else if modeNone then 1.0
      else if scActive1 then mix scFrom1 1.0 pScale
      else targetScale in
    let scActive2 :=
      if inModelRevealWindow then false
      else if modeNone then false
      else if scActive1 then (if Js.geb pScale 1 then false else true)
      else false in
    (* desiredColorGain *)
    let lumBridging := negb inModelRevealWindow && negb modeNone && lumActive1 in
    let lumElapsed2 := if lumBridging then lumElapsed1 + dt else lumElapsed1 in
    let p := easeOutCubic (smoothstep 0 luminanceBridgeDurationSeconds lumElapsed2) in
    let desiredColorGain :=
      if inModelRevealWindow then
        mix modelRevealStartGain 1.0 (easeOutCubic modelRevealBlend)
      else if modeNone then 1.0
      else if lumActive1 then mix lumFrom1 1.0 p
      else colorGainTarget in
    let lumActive2 :=
      if inModelRevealWindow then false
      else if modeNone then false
      else if lumActive1 then (if Js.geb p 1 then false else true)
      else false in
    (* exponential follow and rate limit *)
    let colorFollow := 1 - exp (- dt / 0.18) in
    let scaleFollow := 1 - exp (- dt / 0.1) in
    let colorFollowTarget :=
      colorGainApplied s + (desiredColorGain - colorGainApplied s) * colorFollow in
    let colorStep := colorFollowTarget - colorGainApplied s in
    let maxRiseStep := colorRisePerSecond * dt in
    let maxFallStep := colorFallPerSecond * dt in
    let colorGainApplied' :=
      if Js.gtb colorStep maxRiseStep then colorGainApplied s + maxRiseStep
      else if Js.ltb colorStep (- maxFallStep) then colorGainApplied s - maxFallStep
      else colorFollowTarget in
    let scaleApplied' := scaleApplied s + (desiredScale - scaleApplied s) * scaleFollow in
    let mesh2 := option_map (setSplatScale scaleApplied') mesh1 in
    {| isMobileLike := isMobileLike s;
       disposed := disposed s;
       splatMesh := mesh2;
       customUniforms := Some
         {| u_time := elapsedSeconds;
            u_mode := animationModeToInt (animationMode s);
            u_morph := morph;
            u_colorGain := colorGainApplied';
            u_strength := if modeNone then 0 else 0.35 + 0.65 * morph;
            u_radius := Rmax (sceneRadius s) 0.25 |};
       animationMode := animationMode s;
       animationStartTime := animationStartTime s;
       lastUniformUpdateTimeMs := nowMs;
       pointCloudEnabled := pointCloudEnabled1;
       luminanceBridgeActive := lumActive2;
       luminanceBridgeFrom := lumFrom1;
       luminanceBridgeElapsed := lumElapsed2;
       scaleBridgeActive := scActive2;
       scaleBridgeFrom := scFrom1;
       scaleBridgeElapsed := scElapsed2;
       colorGainApplied := colorGainApplied';
       scaleApplied := scaleApplied';
       sceneRadius := sceneRadius s |}
  end.

(** [applyAnimationStyle(resetForTransition)] *)
Definition applyAnimationStyle (resetForTransition : bool) (s : State) : State :=
  match splatMesh s with
  | None => s
  | Some m =>
    if isNone (animationMode s) || resetForTransition then
      {| isMobileLike := isMobileLike s;
         disposed := disposed s;
         splatMesh := Some (setSplatScale 1.0 (setPointCloudModeEnabled false m));
         customUniforms := customUniforms s;
         animationMode := animationMode s;
         animationStartTime := animationStartTime s;
         lastUniformUpdateTimeMs := lastUniformUpdateTimeMs s;
         pointCloudEnabled := false;
         luminanceBridgeActive := luminanceBridgeActive s;
         luminanceBridgeFrom := luminanceBridgeFrom s;
         luminanceBridgeElapsed := luminanceBridgeElapsed s;
         scaleBridgeActive := scaleBridgeActive s;
         scaleBridgeFrom := scaleBridgeFrom s;
         scaleBridgeElapsed := scaleBridgeElapsed s;
         colorGainApplied := colorGainApplied s;
         scaleApplied := scaleApplied s;
         sceneRadius := sceneRadius s |}
    else s
  end.

(** The assignments of [setAnimation] before its two calls (lines 278-286).
    [now0] and [now1] are its two readings of [performance.now()]. *)
Definition setAnimationFields (mode : string) (now0 now1 : R) (s : State) : State :=
  let v := resolve mode in
  let toNone := isNone v in
  {| isMobileLike := isMobileLike s;
     disposed := disposed s;
     splatMesh := splatMesh s;
     customUniforms := customUniforms s;
     animationMode := v;
     animationStartTime := now0;
     lastUniformUpdateTimeMs := now1;
     pointCloudEnabled := pointCloudEnabled s;
     luminanceBridgeActive := if toNone then false else luminanceBridgeActive s;
     luminanceBridgeFrom := luminanceBridgeFrom s;
     luminanceBridgeElapsed := luminanceBridgeElapsed s;
     scaleBridgeActive := if toNone then false else scaleBridgeActive s;
     scaleBridgeFrom := scaleBridgeFrom s;
     scaleBridgeElapsed := scaleBridgeElapsed s;
     colorGainApplied := if toNone then 1 else colorGainApplied s;
     scaleApplied := if toNone then 1 else scaleApplied s;
     sceneRadius := sceneRadius s |}.

(** [setAnimation(mode)]; [now2] is the clock reading of the tick it ends
    with. *)
Definition setAnimation (mode : string) (now0 now1 now2 : R) (s : State) : State :=
  updateAnimationUniforms now2
    (applyAnimationStyle true (setAnimationFields mode now0 now1 s)).

(** [update()], the per-frame entry point, as far as the controller goes. *)
Definition update (nowMs : R) (s : State) : State :=
  if disposed s then s else updateAnimationUniforms nowMs s.

(** The constructor; [now0], [now1] are the two field initialisers that
    read the clock. *)
Definition initial (mobile : bool) (now0 now1 : R) : State :=
  {| isMobileLike := mobile;
     disposed := false;
     splatMesh := None;
     customUniforms := None;
     animationMode := Canon none;
     animationStartTime := now0;
     lastUniformUpdateTimeMs := now1;
     pointCloudEnabled := false;
     luminanceBridgeActive := false;
     luminanceBridgeFrom := 1;
     luminanceBridgeElapsed := 0;
     scaleBridgeActive := false;
     scaleBridgeFrom := 1;
     scaleBridgeElapsed := 0;
     colorGainApplied := 1;
     scaleApplied := 1;
     sceneRadius := 1 |}.

(** What [installCustomAnimationKernel] finds in the viewer it is given. *)
Inductive Material :=
| NoMaterial                                (* no material, or no shader text *)
| LayoutChanged                             (* an anchor is missing: throws *)
| Patchable (uniforms : CustomUniformRefs). (* the uniform objects of the material *)

(** The scene a finished [addSplatScene] delivers: the mesh, its material
    and [maxSplatDistanceFromSceneCenter] when it is a finite number. *)
Record LoadedScene := {
  ls_mesh : option SplatMesh;
  ls_meshMaterial : Material;
  ls_radius : option R
}.

(** [viewer?.splatMesh?.material] *)
Definition ls_material (scene : LoadedScene) : Material :=
  match ls_mesh scene with
  | None => NoMaterial
  | Some _ => ls_meshMaterial scene
  end.

(** The uniform objects a fresh material gets from the kernel patch. *)
Definition freshUniforms : CustomUniformRefs :=
  {| u_time := 0; u_mode := 0; u_morph := 0;
     u_colorGain := 1; u_strength := 1; u_radius := 1 |}.

(** [load], up to its first [await]: the old scene is dropped. *)
Definition loadBegin (s : State) : State :=
  {| isMobileLike := isMobileLike s;
     disposed := disposed s;
     splatMesh := None;
     customUniforms := None;
     animationMode := animationMode s;
     animationStartTime := animationStartTime s;
     lastUniformUpdateTimeMs := lastUniformUpdateTimeMs s;
     pointCloudEnabled := pointCloudEnabled s;
     luminanceBridgeActive := luminanceBridgeActive s;
     luminanceBridgeFrom := luminanceBridgeFrom s;
     luminanceBridgeElapsed := luminanceBridgeElapsed s;
     scaleBridgeActive := scaleBridgeActive s;
     scaleBridgeFrom := scaleBridgeFrom s;
     scaleBridgeElapsed := scaleBridgeElapsed s;
     colorGainApplied := colorGainApplied s;
     scaleApplied := scaleApplied s;
     sceneRadius := sceneRadius s |}.

(** [this.viewer = nextViewer], the first assignment after the scene has
    arrived. *)
Definition adoptViewer (scene : LoadedScene) (s : State) : State :=
  {| isMobileLike := isMobileLike s;
     disposed := disposed s;
     splatMesh := ls_mesh scene;
     customUniforms := customUniforms s;
     animationMode := animationMode s;
     animationStartTime := animationStartTime s;
     lastUniformUpdateTimeMs := lastUniformUpdateTimeMs s;
     pointCloudEnabled := pointCloudEnabled s;
     luminanceBridgeActive := luminanceBridgeActive s;
     luminanceBridgeFrom := luminanceBridgeFrom s;
     luminanceBridgeElapsed := luminanceBridgeElapsed s;
     scaleBridgeActive := scaleBridgeActive s;
     scaleBridgeFrom := scaleBridgeFrom s;
     scaleBridgeElapsed := scaleBridgeElapsed s;
     colorGainApplied := colorGainApplied s;
     scaleApplied := scaleApplied s;
     sceneRadius := sceneRadius s |}.

(** Lines 244-253 of [load]: the kernel is installed (when there is a
    material), the scene is framed and the blend state is reset. *)
Definition loadReset (scene : LoadedScene) (now0 now1 : R) (s : State) : State :=
  {| isMobileLike := isMobileLike s;
     disposed := disposed s;
     splatMesh := splatMesh s;
     customUniforms :=
       match ls_material scene with
       | Patchable u => Some u
       | _ => customUniforms s
       end;
     animationMode := animationMode s;
     animationStartTime := now0;
     lastUniformUpdateTimeMs := now1;
     pointCloudEnabled := pointCloudEnabled s;
     luminanceBridgeActive := false;
     luminanceBridgeFrom := luminanceBridgeFrom s;
     luminanceBridgeElapsed := luminanceBridgeElapsed s;
     scaleBridgeActive := false;
     scaleBridgeFrom := scaleBridgeFrom s;
     scaleBridgeElapsed := scaleBridgeElapsed s;
     colorGainApplied := 1;
     scaleApplied := 1;
     sceneRadius :=
       match ls_radius scene with
       | Some r => if Js.gtb r 0 then r else 1
       | None => 1
       end |}.

(** [load] from the arrival of the scene on.  When the shader layout has
    changed the kernel patch throws after [this.viewer] was assigned. *)
Definition loadComplete (scene : LoadedScene) (now0 now1 now2 : R) (s : State) : State :=
  match ls_material scene with
  | LayoutChanged => adoptViewer scene s
  | _ =>
      updateAnimationUniforms now2
        (applyAnimationStyle true (loadReset scene now0 now1 (adoptViewer scene s)))
  end.

(** [dispose()]: the viewer is released; the uniforms are kept. *)
Definition dispose (s : State) : State :=
  if disposed s then s
  else
    {| isMobileLike := isMobileLike s;
       disposed := true;
       splatMesh := None;
       customUniforms := customUniforms s;
       animationMode := animationMode s;
       animationStartTime := animationStartTime s;
       lastUniformUpdateTimeMs := lastUniformUpdateTimeMs s;
       pointCloudEnabled := pointCloudEnabled s;
       luminanceBridgeActive := luminanceBridgeActive s;
       luminanceBridgeFrom := luminanceBridgeFrom s;
       luminanceBridgeElapsed := luminanceBridgeElapsed s;
       scaleBridgeActive := scaleBridgeActive s;
       scaleBridgeFrom := scaleBridgeFrom s;
       scaleBridgeElapsed := scaleBridgeElapsed s;
       colorGainApplied := colorGainApplied s;
       scaleApplied := scaleApplied s;
       sceneRadius := sceneRadius s |}.

(** Neither bridge is running. *)
Definition bridgesIdle (s : State) : Prop :=
  luminanceBridgeActive s = false /\ scaleBridgeActive s = false.

(** The states the public methods can bring the controller into.  [load]
    is split at its [await]; the arrival of a scene is admitted at any
    time before [dispose], also where the code drops it as stale
    ([loadVersion]), so the relation holds of every state the code can
    reach. *)
Inductive reachable : State -> Prop :=
| reach_initial mobile now0 now1 :
    reachable (initial mobile now0 now1)
| reach_setAnimation s mode now0 now1 now2 :
    reachable s -> reachable (setAnimation mode now0 now1 now2 s)
| reach_update s nowMs :
    reachable s -> reachable (update nowMs s)
| reach_loadBegin s :
    reachable s -> disposed s = false -> reachable (loadBegin s)
| reach_loadComplete s scene now0 now1 now2 :
    reachable s -> disposed s = false ->
    reachable (loadComplete scene now0 now1 now2 s)
| reach_dispose s :
    reachable s -> reachable (dispose s).

End Controller.

(** ** DisplacementKernel: the code spliced into the vertex shader *)

Module Kernel.
Import Controller.
Local Open Scope R_scope.

Record vec3 := { vx : R; vy : R; vz : R }.

Definition vadd (a b : vec3) : vec3 :=
  {| vx := vx a + vx b; vy := vy a + vy b; vz := vz a + vz b |}.
Definition vsub (a b : vec3) : vec3 :=
  {| vx := vx a - vx b; vy := vy a - vy b; vz := vz a - vz b |}.
Definition vscale (k : R) (a : vec3) : vec3 :=
  {| vx := vx a * k; vy := vy a * k; vz := vz a * k |}.
Definition splat (k : R) : vec3 := {| vx := k; vy := k; vz := k |}.
Definition dot (a b : vec3) : R := vx a * vx b + vy a * vy b + vz a * vz b.
Definition length (a : vec3) : R := sqrt (dot a a).
Definition normalize (a : vec3) : vec3 := vscale (/ length a) a.

(** GLSL built-ins. *)
Definition fract (x : R) : R := x - IZR (Int_part x).
Definition clamp (x lo hi : R) : R := Rmin (Rmax x lo) hi.
Definition gl_smoothstep (edge0 edge1 x : R) : R :=
  let t := clamp ((x - edge0) / (edge1 - edge0)) 0 1 in
  t * t * (3 - 2 * t).
Definition gl_mix (a b t : R) : R := a * (1 - t) + b * t.
Definition vmix (a b : vec3) (t : R) : vec3 :=
  {| vx := gl_mix (vx a) (vx b) t;
     vy := gl_mix (vy a) (vy b) t;
     vz := gl_mix (vz a) (vz b) t |}.

(** The two-argument [atan(y, x)]; GLSL leaves [atan(0, 0)] undefined. *)
Definition atan2 (y x : R) : R :=
  if Js.ltb 0 x then atan (y / x)
  else if Js.ltb x 0 then
    (if Js.leb 0 y then atan (y / x) + PI else atan (y / x) - PI)
  else if Js.ltb 0 y then PI / 2
  else if Js.ltb y 0 then - PI / 2
  else 0.

Definition seedOf (splatIndex : nat) : R :=
  fract (sin (INR splatIndex * 12.9898) * 43758.5453).

Definition morphIn (u : CustomUniformRefs) : R := clamp (u_morph u) 0 1.

Definition phaseIn (u : CustomUniformRefs) (splatIndex : nat) : R :=
  u_time u * 1.2 + seedOf splatIndex * 6.2831853.

Definition strengthIn (u : CustomUniformRefs) : R :=
  let morph := morphIn u in
  let motionGate := gl_smoothstep 0.12 0.35 morph in
  u_strength u * morph * motionGate.

Definition radiusNormIn (u : CustomUniformRefs) (fromCenter : vec3) : R :=
  clamp (length fromCenter / Rmax (u_radius u) 0.0001) 0 1.

(** [animatedCenter] after the mode-independent breakup offset. *)
Definition breakupCenter (u : CustomUniformRefs) (sceneCenter : vec3)
    (splatIndex : nat) (baseCenter : vec3) : vec3 :=
  let seed := seedOf splatIndex in
  let morph := morphIn u in
  let fromCenter := vsub baseCenter sceneCenter in
  let radiusNorm := radiusNormIn u fromCenter in
  let grainDir :=
    normalize (vadd {| vx := sin (seed * 31.4) - 0.5;
                       vy := cos (seed * 47.1) - 0.5;
                       vz := sin (seed * 59.9) - 0.5 |} (splat 0.0001)) in
  let breakup := gl_smoothstep 0.05 0.85 morph in
  vadd baseCenter
    (vscale (u_radius u) (vscale (gl_mix 0.01 0.09 radiusNorm) (vscale breakup grainDir))).

(** [burst] of the explode branch. *)
Definition burstOf (phase : R) : R := Rsqr (Rmax (sin (phase * 0.8)) 0).

(** [explodeDir] of the explode branch. *)
Definition explodeDir (fromCenter : vec3) : vec3 :=
  normalize (vadd fromCenter {| vx := 0.0001; vy := 0.0001; vz := 0.0001 |}).

(** [animatedCenter] after the branch on [uCustomAnimMode]. *)
Definition animatedCenter (u : CustomUniformRefs) (sceneCenter : vec3)
    (splatIndex : nat) (baseCenter : vec3) : vec3 :=
  let fromCenter := vsub baseCenter sceneCenter in
  let radiusNorm := radiusNormIn u fromCenter in
  let phase := phaseIn u splatIndex in
  let strength := strengthIn u in
  let a := breakupCenter u sceneCenter splatIndex baseCenter in
  if (u_mode u =? 1)%Z then
    let wave := sin (phase + dot fromCenter {| vx := 0.11; vy := 0.07; vz := 0.13 |} * 3.0) in
    {| vx := vx a;
       vy := vy a + cos (phase * 0.8 + radiusNorm * 5.0) * strength * 0.02 * u_radius u;
       vz := vz a + wave * strength * gl_mix 0.03 0.16 radiusNorm * u_radius u |}
  else if (u_mode u =? 2)%Z then
    let radial := sqrt (vx fromCenter * vx fromCenter + vz fromCenter * vz fromCenter) in
    let angle := atan2 (vz fromCenter) (vx fromCenter)
                 + sin (phase + vy fromCenter * 0.08) * 1.15 * strength in
    {| vx := vx sceneCenter + cos angle * radial;
       vy := vy a + sin (phase * 0.9 + radial * 0.06) * 0.03 * strength * u_radius u;
       vz := vz sceneCenter + sin angle * radial |}
  else if (u_mode u =? 3)%Z then
    let wobble :=
      {| vx := sin (phase * 2.1 + vy fromCenter * 0.13) + cos (phase * 0.7 + vz fromCenter * 0.09);
         vy := cos (phase * 1.7 + vx fromCenter * 0.11) + sin (phase * 0.9 + vz fromCenter * 0.05);
         vz := sin (phase * 1.3 + vx fromCenter * 0.07) + cos (phase * 1.6 + vy fromCenter * 0.12) |} in
    vadd a (vscale (u_radius u) (vscale strength (vscale 0.03 wobble)))
  else if (u_mode u =? 4)%Z then
    let scalePulse := 1.0 + sin (phase * 0.9) * 0.12 * strength in
    vadd sceneCenter (vscale scalePulse fromCenter)
  else if (u_mode u =? 5)%Z then
    vadd a (vscale (u_radius u) (vscale 0.28 (vscale strength
              (vscale (burstOf phase) (explodeDir fromCenter)))))
  else a.

(** [splatCenter] as the patched shader leaves it. *)
Definition splatCenter (u : CustomUniformRefs) (sceneCenter : vec3)
    (splatIndex : nat) (baseCenter : vec3) : vec3 :=
  if (0 <? u_mode u)%Z then
    vmix baseCenter (animatedCenter u sceneCenter splatIndex baseCenter) (morphIn u)
  else baseCenter.

(** The offset the branch on the mode adds to the breakup position. *)
Definition modeTerm (u : CustomUniformRefs) (sceneCenter : vec3)
    (splatIndex : nat) (baseCenter : vec3) : vec3 :=
  vsub (animatedCenter u sceneCenter splatIndex baseCenter)
       (breakupCenter u sceneCenter splatIndex baseCenter).

End Kernel.

(** ** OcclusionProbe: the frame-buffer read-back *)

(** The result of running a piece of JavaScript: a value, or an exception
    on its way to the caller. *)
Inductive Outcome (A : Type) : Type :=
| Returned (a : A)
| Thrown.
Arguments Returned {A} a.
Arguments Thrown {A}.

Definition bind {A B : Type} (m : Outcome A) (k : A -> Outcome B) : Outcome B :=
  match m with
  | Returned a => k a
  | Thrown => Thrown
  end.

(** [try { body } catch { handler }] *)
Definition tryCatch {A : Type} (body : Outcome A) (handler : Outcome A) : Outcome A :=
  match body with
  | Returned a => Returned a
  | Thrown => handler
  end.

Notation "'let!' x ':=' m 'in' k" := (bind m (fun x => k))
  (at level 10, x name, m at level 100, k at level 200).

Module Probe.
Local Open Scope R_scope.

Inductive PerfLevel := high | low.

(** The four bytes [readPixels] stores for one RGBA pixel. *)
Record Pixel := { red : Z; green : Z; blue : Z; alphaByte : Z }.

(** [this.renderer.getContext()]: what the probe uses of the WebGL context.
    [readPixels x y] is the pixel the call stores in the sample buffer, or
    the exception it raises. *)
Record GLContext := {
  readPixelsIsFunction : bool;
  drawingBufferWidth : Z;
  drawingBufferHeight : Z;
  readPixels : Z -> Z -> Outcome Pixel
}.

(** Calling [gl.readPixels(...)]: a member that is no function cannot be
    called. *)
Definition callReadPixels (gl : GLContext) (x y : Z) : Outcome Pixel :=
  if readPixelsIsFunction gl then readPixels gl x y else Thrown.

Definition readRenderAlpha (gl : GLContext) (screenX screenY : R) : Outcome Z :=
  let drawWidth := drawingBufferWidth gl in
  let drawHeight := drawingBufferHeight gl in
  if ((drawWidth <? 2) || (drawHeight <? 2))%Z then Returned 0%Z
  else
    let clampedX := Z.max 0 (Z.min (drawWidth - 1) (Js.round screenX)) in
    let clampedYTopLeft := Z.max 0 (Z.min (drawHeight - 1) (Js.round screenY)) in
    let clampedYBottomLeft := (drawHeight - 1 - clampedYTopLeft)%Z in
    tryCatch
      (let! px := callReadPixels gl clampedX clampedYBottomLeft in
       Returned (alphaByte px))
      (Returned 0%Z).

Definition sampleOffsets (perf : PerfLevel) (mobile : bool) (r : R) : list (R * R) :=
  match perf with
  | low => [ (0, 0); (r, 0); (- r, 0); (0, r); (0, - r) ]
  | high =>
      if mobile then [ (0, 0); (r, 0); (- r, 0); (0, r); (0, - r) ]
      else [ (0, 0); (r, 0); (- r, 0); (0, r); (0, - r);
             (r * 0.72, r * 0.72); (r * 0.72, - (r * 0.72));
             (- (r * 0.72), r * 0.72); (- (r * 0.72), - (r * 0.72)) ]
  end.

(** The [for ... of offsets] loop of [isModelPixelCovered]. *)
Fixpoint anySampleCovered (gl : GLContext) (baseX baseY : R)
    (offsets : list (R * R)) : Outcome bool :=
  match offsets with
  | [] => Returned false
  | (dx, dy) :: rest =>
      let! alpha := readRenderAlpha gl (baseX + dx) (baseY + dy) in
      if (14 <? alpha)%Z then Returned true
      else anySampleCovered gl baseX baseY rest
  end.

Definition isModelPixelCovered (ctx : option GLContext) (perf : PerfLevel)
    (mobile : bool) (canvasClientWidth canvasClientHeight : R)
    (screenX screenY sampleRadiusPx : R) : Outcome bool :=
  match ctx with
  | None => Returned false
  | Some gl =>
    if negb (readPixelsIsFunction gl) then Returned false
    else
      let drawWidth := drawingBufferWidth gl in
      let drawHeight := drawingBufferHeight gl in
      if ((drawWidth <? 2) || (drawHeight <? 2))%Z then Returned false
      else
        let clientWidth := Rmax canvasClientWidth 1 in
        let clientHeight := Rmax canvasClientHeight 1 in
        let baseX := screenX / clientWidth * IZR drawWidth in
        let baseY := screenY / clientHeight * IZR drawHeight in
        let r := Rmax 1 (sampleRadiusPx * (IZR drawWidth / clientWidth)) in
        anySampleCovered gl baseX baseY (sampleOffsets perf mobile r)
  end.

Definition bubbleNoOverlapSampleRadiusPx : R := 14.

Definition getActiveNoOverlapSampleRadiusPx (perf : PerfLevel) (mobile : bool) : R :=
  match perf with
  | low => if mobile then Rmax 7 (bubbleNoOverlapSampleRadiusPx - 6)
           else Rmax 8 (bubbleNoOverlapSampleRadiusPx - 4)
  | high => if mobile then Rmax 8 (bubbleNoOverlapSampleRadiusPx - 4)
            else bubbleNoOverlapSampleRadiusPx
  end.

End Probe.

(** ** MarkerSpawner and MarkerLifecycle: the floating bubbles *)

Module Markers.
Import Probe.
Local Open Scope R_scope.

Inductive Kind := text | plain.

(** A time stamp that may be [Number.POSITIVE_INFINITY]. *)
Inductive Time := Finite (t : R) | PositiveInfinity.

(** [nowMs >= t] and [nowMs > t] *)
Definition reached (nowMs : R) (t : Time) : bool :=
  match t with Finite x => Js.geb nowMs x | PositiveInfinity => false end.
Definition passed (nowMs : R) (t : Time) : bool :=
  match t with Finite x => Js.gtb nowMs x | PositiveInfinity => false end.

Inductive PointerEvents := pe_auto | pe_none.

(** [FloatingBubbleEntry].  The last four fields are the state of
    [element]: the class [is-open], [style.opacity], [style.pointerEvents].
    Position, velocity and the other kinematic fields are left out: a tick
    uses them only to produce the projected point, which the embedding
    takes as an input of the tick ([projection] below). *)
Record FloatingBubbleEntry := {
  kind : Kind;
  spawnMs : R;
  lastUpdateMs : R;
  lifeMs : R;
  revealUntilMs : Time;
  maxAlpha : R;
  screenX : R;
  screenY : R;
  overModel : bool;
  lastOverlapCheckMs : R;
  isOpen : bool;
  opacity : option R;
  pointerEvents : option PointerEvents
}.

(** The bubble objects are shared between [floatingBubbles],
    [activeTextBubble] and the click handlers, so they live in a heap and
    are referred to by identity. *)
Record State := {
  isMobileLike : bool;
  performanceLevel : PerfLevel;
  bubbleLayer : bool;                      (* this.bubbleLayer !== null *)
  bubbleMessages : list string;
  bubblesEnabledForModel : bool;
  heap : gmap nat FloatingBubbleEntry;
  nextId : nat;
  floatingBubbles : list nat;
  activeTextBubble : option nat;
  nextBubbleSpawnMs : Time;
  lastBubbleTickMs : R;
  dustBursts : list (R * R)                (* bursts appended to the layer *)
}.

Definition maxFloatingBubbles : nat := 18.
Definition mobileMaxFloatingBubbles : nat := 11.
Definition lowMobileMaxFloatingBubbles : nat := 7.
Definition lowDesktopMaxFloatingBubbles : nat := 12.
Definition maxTextBubbles : nat := 6.
Definition bubbleLifeMinMs : R := 3400.
Definition bubbleLifeMaxMs : R := 5600.
Definition bubbleSpawnMinGapMs : R := 230.
Definition bubbleSpawnMaxGapMs : R := 520.
Definition textBubbleSpawnProbability : R := 0.42.
Definition edgeDisappearMarginPx : R := 56.
Definition bubbleOverlapCheckIntervalDesktopMs : R := 36.
Definition bubbleOverlapCheckIntervalMobileMs : R := 120.
Definition lowBubbleTickIntervalMs : R := 28.

Definition getActiveMaxFloatingBubbles (s : State) : nat :=
  match performanceLevel s with
  | low => if isMobileLike s then lowMobileMaxFloatingBubbles
           else lowDesktopMaxFloatingBubbles
  | high => if isMobileLike s then mobileMaxFloatingBubbles
            else maxFloatingBubbles
  end.

(** Field updates of the state. *)
Definition withBubbles (h : gmap nat FloatingBubbleEntry) (l : list nat) (s : State) : State :=
  {| isMobileLike := isMobileLike s;
     performanceLevel := performanceLevel s;
     bubbleLayer := bubbleLayer s;
     bubbleMessages := bubbleMessages s;
     bubblesEnabledForModel := bubblesEnabledForModel s;
     heap := h;
     nextId := nextId s;
     floatingBubbles := l;
     activeTextBubble := activeTextBubble s;
     nextBubbleSpawnMs := nextBubbleSpawnMs s;
     lastBubbleTickMs := lastBubbleTickMs s;
     dustBursts := dustBursts s |}.

Definition withActive (a : option nat) (s : State) : State :=
  {| isMobileLike := isMobileLike s;
     performanceLevel := performanceLevel s;
     bubbleLayer := bubbleLayer s;
     bubbleMessages := bubbleMessages s;
     bubblesEnabledForModel := bubblesEnabledForModel s;
     heap := heap s;
     nextId := nextId s;
     floatingBubbles := floatingBubbles s;
     activeTextBubble := a;
     nextBubbleSpawnMs := nextBubbleSpawnMs s;
     lastBubbleTickMs := lastBubbleTickMs s;
     dustBursts := dustBursts s |}.

Definition withNextSpawn (t : Time) (s : State) : State :=
  {| isMobileLike := isMobileLike s;
     performanceLevel := performanceLevel s;
     bubbleLayer := bubbleLayer s;
     bubbleMessages := bubbleMessages s;
     bubblesEnabledForModel := bubblesEnabledForModel s;
     heap := heap s;
     nextId := nextId s;
     floatingBubbles := floatingBubbles s;
     activeTextBubble := activeTextBubble s;
     nextBubbleSpawnMs := t;
     lastBubbleTickMs := lastBubbleTickMs s;
     dustBursts := dustBursts s |}.

Definition withDust (d : list (R * R)) (s : State) : State :=
  {| isMobileLike := isMobileLike s;
     performanceLevel := performanceLevel s;
     bubbleLayer := bubbleLayer s;
     bubbleMessages := bubbleMessages s;
     bubblesEnabledForModel := bubblesEnabledForModel s;
     heap := heap s;
     nextId := nextId s;
     floatingBubbles := floatingBubbles s;
     activeTextBubble := activeTextBubble s;
     nextBubbleSpawnMs := nextBubbleSpawnMs s;
     lastBubbleTickMs := lastBubbleTickMs s;
     dustBursts := d |}.

(** The constructor. *)
Definition initial (mobile : bool) : State :=
  {| isMobileLike := mobile;
     performanceLevel := high;
     bubbleLayer := false;
     bubbleMessages := [];
     bubblesEnabledForModel := false;
     heap := ∅;
     nextId := 0;
     floatingBubbles := [];
     activeTextBubble := None;
     nextBubbleSpawnMs := PositiveInfinity;
     lastBubbleTickMs := 0;
     dustBursts := [] |}.

(** [spawnDustBurst(screenX, screenY, colorRgb)] *)
Definition spawnDustBurst (x y : R) (s : State) : State :=
  if bubbleLayer s then withDust (dustBursts s ++ [(x, y)]) s else s.

(** The assignments of [dissipateBubble] to the bubble and its element. *)
Definition dissipated (nowMs : R) (b : FloatingBubbleEntry) : FloatingBubbleEntry :=
  {| kind := kind b;
     spawnMs := nowMs - lifeMs b - 1;
     lastUpdateMs := lastUpdateMs b;
     lifeMs := lifeMs b;
     revealUntilMs := revealUntilMs b;
     maxAlpha := maxAlpha b;
     screenX := screenX b;
     screenY := screenY b;
     overModel := overModel b;
     lastOverlapCheckMs := lastOverlapCheckMs b;
     isOpen := false;
     opacity := Some 0;
     pointerEvents := Some pe_none |}.

(** [dissipateBubble(bubble, nowMs)] *)
Definition dissipateBubble (nowMs : R) (id : nat) (s : State) : State :=
  match heap s !! id with
  | None => s
  | Some b =>
      let s1 := spawnDustBurst (screenX b) (screenY b) s in
      let s2 := withBubbles (<[id := dissipated nowMs b]> (heap s1)) (floatingBubbles s1) s1 in
      if bool_decide (activeTextBubble s2 = Some id) then withActive None s2 else s2
  end.

(** [scheduleNextBubble(nowMs)]; [gapRoll] is its [Math.random()]. *)
Definition scheduleNextBubble (nowMs gapRoll : R) (s : State) : State :=
  let perfGapFactor := match performanceLevel s with low => 1.28 | high => 1 end in
  let mobileGapFactor := if isMobileLike s then 1.2 else 1 in
  let minGap := bubbleSpawnMinGapMs * mobileGapFactor * perfGapFactor in
  let maxGap := bubbleSpawnMaxGapMs * (if isMobileLike s then 1.3 else 1) * perfGapFactor in
  let gap := minGap + gapRoll * Rmax (maxGap - minGap) 1 in
  withNextSpawn (Finite (nowMs + gap)) s.

(** [dismissActiveTextBubble()]; [now0], [now1] are its two clock readings. *)
Definition dismissActiveTextBubble (now0 now1 gapRoll : R) (s : State) : State :=
  match activeTextBubble s with
  | None => s
  | Some active =>
      let s1 := withActive None (dissipateBubble now0 active s) in
      if bubbleLayer s1 && bubblesEnabledForModel s1
      then scheduleNextBubble now1 gapRoll s1
      else s1
  end.

(** [activateTextBubble(bubble)] in its three parts: the marker that is
    active is dissipated, then the clicked marker is made the active one
    and opened, then every other listed marker is dissipated. *)
Definition releaseActive (nowMs : R) (id : nat) (s : State) : State :=
  match activeTextBubble s with
  | Some active =>
      if bool_decide (active = id) then s
      else withActive None (dissipateBubble nowMs active s)
  | None => s
  end.

Definition opened (b : FloatingBubbleEntry) : FloatingBubbleEntry :=
  {| kind := kind b;
     spawnMs := spawnMs b;
     lastUpdateMs := lastUpdateMs b;
     lifeMs := lifeMs b;
     revealUntilMs := PositiveInfinity;
     maxAlpha := maxAlpha b;
     screenX := screenX b;
     screenY := screenY b;
     overModel := overModel b;
     lastOverlapCheckMs := lastOverlapCheckMs b;
     isOpen := true;
     opacity := opacity b;
     pointerEvents := pointerEvents b |}.

Definition claimActive (id : nat) (s : State) : State :=
  let s1 := withActive (Some id) s in
  withBubbles (alter opened id (heap s1)) (floatingBubbles s1) s1.

Definition dissipateOthers (nowMs : R) (id : nat) (s : State) : State :=
  fold_left
    (fun acc other => if bool_decide (other = id) then acc
                      else dissipateBubble nowMs other acc)
    (floatingBubbles s) s.

Definition activateTextBubble (nowMs : R) (id : nat) (s : State) : State :=
  withNextSpawn PositiveInfinity
    (dissipateOthers nowMs id (claimActive id (releaseActive nowMs id s))).

(** The click handler every bubble element gets in [spawnFloatingBubble]. *)
Definition click (nowMs : R) (id : nat) (s : State) : State :=
  match heap s !! id with
  | None => s
  | Some b =>
      match kind b with
      | text => activateTextBubble nowMs id s
      | plain => dissipateBubble nowMs id s
      end
  end.

(** [resetFloatingBubbles(scheduleNext)] *)
Definition resetFloatingBubbles (scheduleNext : bool) (nowMs : R) (s : State) : State :=
  withNextSpawn
    (if scheduleNext && bubbleLayer s then Finite (nowMs + 320) else PositiveInfinity)
    (withBubbles (heap s) [] (withActive None s)).

(** [setFloatingBubbles(layer, messages)] *)
Definition setFloatingBubbles (layer : bool) (messages : list string) (nowMs : R)
    (s : State) : State :=
  let s1 := resetFloatingBubbles false nowMs s in
  let kept :=
    List.filter (fun m => negb (String.eqb m ""))
                (List.map ModeRegistry.trim messages) in
  {| isMobileLike := isMobileLike s1;
     performanceLevel := performanceLevel s1;
     bubbleLayer := layer;
     bubbleMessages := kept;
     bubblesEnabledForModel := bubblesEnabledForModel s1;
     heap := heap s1;
     nextId := nextId s1;
     floatingBubbles := floatingBubbles s1;
     activeTextBubble := activeTextBubble s1;
     nextBubbleSpawnMs :=
       if layer && bubblesEnabledForModel s1 then Finite (nowMs + 320)
       else PositiveInfinity;
     lastBubbleTickMs := lastBubbleTickMs s1;
     dustBursts := dustBursts s1 |}.

(** [while (this.floatingBubbles.length > limit) this.floatingBubbles.shift()] *)
Fixpoint shiftWhileOver (limit : nat) (l : list nat) : list nat :=
  match l with
  | [] => []
  | _ :: rest =>
      if (limit <? List.length l)%nat then shiftWhileOver limit rest else l
  end.

Definition perfEqb (a b : PerfLevel) : bool :=
  match a, b with
  | high, high | low, low => true
  | _, _ => false
  end.

(** [setPerformanceLevel(level)] *)
Definition setPerformanceLevel (level : PerfLevel) (s : State) : State :=
  if perfEqb (performanceLevel s) level then s
  else
    let s1 :=
      {| isMobileLike := isMobileLike s;
         performanceLevel := level;
         bubbleLayer := bubbleLayer s;
         bubbleMessages := bubbleMessages s;
         bubblesEnabledForModel := bubblesEnabledForModel s;
         heap := heap s;
         nextId := nextId s;
         floatingBubbles := floatingBubbles s;
         activeTextBubble := activeTextBubble s;
         nextBubbleSpawnMs := nextBubbleSpawnMs s;
         lastBubbleTickMs := lastBubbleTickMs s;
         dustBursts := dustBursts s |} in
    let limit := getActiveMaxFloatingBubbles s1 in
    withBubbles (heap s1) (shiftWhileOver limit (floatingBubbles s1)) s1.

(** The normalized device coordinates of a projected marker. *)
Record Projection := { ndcX : R; ndcY : R; ndcZ : R }.

(** What one frame supplies to [updateFloatingBubbles]: the clock, the
    WebGL context, the size of the canvas, the projection of every marker
    after its motion was integrated, and the random draws. *)
Record Frame := {
  nowMs : R;
  context : option GLContext;
  canvasClientWidth : R;
  canvasClientHeight : R;
  projection : nat -> Projection;
  textRoll : R;
  lifeRoll : R;
  gapRoll : R
}.

Definition isText (h : gmap nat FloatingBubbleEntry) (id : nat) : bool :=
  match h !! id with
  | Some b => match kind b with text => true | plain => false end
  | None => false
  end.

(** [spawnFloatingBubble(nowMs)].  The colour and the placement of the new
    marker are not part of the embedding. *)
Definition spawnFloatingBubble (f : Frame) (s : State) : State :=
  if negb (bubbleLayer s) then s
  else
    let activeTextCount :=
      fold_left (fun count id => (count + (if isText (heap s) id then 1 else 0))%nat)
                (floatingBubbles s) 0%nat in
    let canSpawnText :=
      (0 <? List.length (bubbleMessages s))%nat
      && (activeTextCount <? maxTextBubbles)%nat
      && Js.ltb (textRoll f) textBubbleSpawnProbability in
    let bubble :=
      {| kind := if canSpawnText then text else plain;
         spawnMs := nowMs f;
         lastUpdateMs := nowMs f;
         lifeMs := bubbleLifeMinMs + lifeRoll f * (bubbleLifeMaxMs - bubbleLifeMinMs);
         revealUntilMs := Finite 0;
         maxAlpha := 0.56;
         screenX := canvasClientWidth f * 0.5;
         screenY := canvasClientHeight f * 0.5;
         overModel := false;
         lastOverlapCheckMs := 0;
         isOpen := false;
         opacity := None;
         pointerEvents := None |} in
    let id := nextId s in
    let pushed := floatingBubbles s ++ [id] in
    let kept :=
      if (getActiveMaxFloatingBubbles s <? List.length pushed)%nat
      then tail pushed else pushed in
    {| isMobileLike := isMobileLike s;
       performanceLevel := performanceLevel s;
       bubbleLayer := bubbleLayer s;
       bubbleMessages := bubbleMessages s;
       bubblesEnabledForModel := bubblesEnabledForModel s;
       heap := <[id := bubble]> (heap s);
       nextId := S id;
       floatingBubbles := kept;
       activeTextBubble := activeTextBubble s;
       nextBubbleSpawnMs := nextBubbleSpawnMs s;
       lastBubbleTickMs := lastBubbleTickMs s;
       dustBursts := dustBursts s |}.

(** [activeOverlapCheckInterval] of the tick. *)
Definition activeOverlapCheckInterval (s : State) : R :=
  let overlapCheckInterval :=
    if isMobileLike s then bubbleOverlapCheckIntervalMobileMs
    else bubbleOverlapCheckIntervalDesktopMs in
  match performanceLevel s with
  | low => overlapCheckInterval * 1.9
  | high => overlapCheckInterval
  end.

Definition hidden (b : FloatingBubbleEntry) : FloatingBubbleEntry :=
  {| kind := kind b; spawnMs := spawnMs b; lastUpdateMs := lastUpdateMs b;
     lifeMs := lifeMs b; revealUntilMs := revealUntilMs b; maxAlpha := maxAlpha b;
     screenX := screenX b; screenY := screenY b; overModel := overModel b;
     lastOverlapCheckMs := lastOverlapCheckMs b; isOpen := isOpen b;
     opacity := Some 0; pointerEvents := Some pe_none |}.

Definition shown (finalAlpha : R) (b : FloatingBubbleEntry) : FloatingBubbleEntry :=
  {| kind := kind b; spawnMs := spawnMs b; lastUpdateMs := lastUpdateMs b;
     lifeMs := lifeMs b; revealUntilMs := revealUntilMs b; maxAlpha := maxAlpha b;
     screenX := screenX b; screenY := screenY b; overModel := overModel b;
     lastOverlapCheckMs := lastOverlapCheckMs b; isOpen := isOpen b;
     opacity := Some finalAlpha;
     pointerEvents := Some (if Js.gtb finalAlpha 0.08 then pe_auto else pe_none) |}.

Definition closed (b : FloatingBubbleEntry) : FloatingBubbleEntry :=
  {| kind := kind b; spawnMs := spawnMs b; lastUpdateMs := lastUpdateMs b;
     lifeMs := lifeMs b; revealUntilMs := revealUntilMs b; maxAlpha := maxAlpha b;
     screenX := screenX b; screenY := screenY b; overModel := overModel b;
     lastOverlapCheckMs := lastOverlapCheckMs b; isOpen := false;
     opacity := opacity b; pointerEvents := pointerEvents b |}.

Definition placed (nowMs px py : R) (b : FloatingBubbleEntry) : FloatingBubbleEntry :=
  {| kind := kind b; spawnMs := spawnMs b; lastUpdateMs := nowMs;
     lifeMs := lifeMs b; revealUntilMs := revealUntilMs b; maxAlpha := maxAlpha b;
     screenX := px; screenY := py; overModel := overModel b;
     lastOverlapCheckMs := lastOverlapCheckMs b; isOpen := isOpen b;
     opacity := opacity b; pointerEvents := pointerEvents b |}.

Definition probed (nowMs : R) (covered : bool) (b : FloatingBubbleEntry) : FloatingBubbleEntry :=
  {| kind := kind b; spawnMs := spawnMs b; lastUpdateMs := lastUpdateMs b;
     lifeMs := lifeMs b; revealUntilMs := revealUntilMs b; maxAlpha := maxAlpha b;
     screenX := screenX b; screenY := screenY b; overModel := covered;
     lastOverlapCheckMs := nowMs; isOpen := isOpen b;
     opacity := opacity b; pointerEvents := pointerEvents b |}.

(** Lines 1027-1035: the throttled occlusion probe of one marker. *)
Definition probeIfDue (f : Frame) (s : State) (px py : R)
    (b : FloatingBubbleEntry) : Outcome FloatingBubbleEntry :=
  if Js.geb (nowMs f - lastOverlapCheckMs b) (activeOverlapCheckInterval s) then
    let! covered :=
      isModelPixelCovered (context f) (performanceLevel s) (isMobileLike s)
        (canvasClientWidth f) (canvasClientHeight f) px py
        (getActiveNoOverlapSampleRadiusPx (performanceLevel s) (isMobileLike s)) in
    Returned (probed (nowMs f) covered b)
  else Returned b.

(** Lines 1058-1060: the label of a marker that is not the active one is
    closed once [revealUntilMs] has passed. *)
Definition closeIfDue (nowMs : R) (isActive : bool)
    (b : FloatingBubbleEntry) : FloatingBubbleEntry :=
  if negb isActive && passed nowMs (revealUntilMs b) then closed b else b.

(** The body of the marker loop for a marker that is kept. *)
Definition advanceBubble (f : Frame) (s : State) (id : nat)
    (b : FloatingBubbleEntry) : Outcome FloatingBubbleEntry :=
  let width := Rmax (canvasClientWidth f) 1 in
  let height := Rmax (canvasClientHeight f) 1 in
  let lifeRatio := (nowMs f - spawnMs b) / lifeMs b in
  let isActive := bool_decide (activeTextBubble s = Some id) in
  let p := projection f id in
  let alpha := maxAlpha b * Controller.smoothstep 0 0.78 lifeRatio in
  let inViewport :=
    Js.gtb (ndcZ p) (-1) && Js.ltb (ndcZ p) 1 &&
    Js.gtb (ndcX p) (-1.2) && Js.ltb (ndcX p) 1.2 &&
    Js.gtb (ndcY p) (-1.2) && Js.ltb (ndcY p) 1.2 in
  if negb inViewport || Js.leb alpha 0.02 then
    Returned (closeIfDue (nowMs f) isActive
                (hidden (placed (nowMs f) (screenX b) (screenY b) b)))
  else
    let px := (ndcX p * 0.5 + 0.5) * width in
    let py := (- ndcY p * 0.5 + 0.5) * height in
    let! b3 := probeIfDue f s px py (placed (nowMs f) px py b) in
    let edgeDistance := Rmin (Rmin (Rmin px (width - px)) py) (height - py) in
    let edgeFade :=
      Controller.smoothstep edgeDisappearMarginPx (edgeDisappearMarginPx + 36) edgeDistance in
    let finalAlpha := alpha * edgeFade in
    if overModel b3 || Js.leb finalAlpha 0.02 then Returned (hidden b3)
    else Returned (closeIfDue (nowMs f) isActive (shown finalAlpha b3)).

(** One iteration of the marker loop, at index [i]. *)
Definition stepBubble (f : Frame) (i : nat) (s : State) : Outcome State :=
  match floatingBubbles s !! i with
  | None => Returned s
  | Some id =>
    match heap s !! id with
    | None => Returned s
    | Some b =>
      let lifeRatio := (nowMs f - spawnMs b) / lifeMs b in
      if Js.geb lifeRatio 1 && negb (bool_decide (activeTextBubble s = Some id)) then
        Returned (withBubbles (heap s) (delete i (floatingBubbles s)) s)
      else
        let! b' := advanceBubble f s id b in
        Returned (withBubbles (<[id := b']> (heap s)) (floatingBubbles s) s)
    end
  end.

(** [for (let i = n - 1; i >= 0; i -= 1)] *)
Fixpoint bubbleLoop (f : Frame) (n : nat) (s : State) : Outcome State :=
  match n with
  | O => Returned s
  | S i => let! s' := stepBubble f i s in bubbleLoop f i s'
  end.

Definition withLastTick (t : R) (s : State) : State :=
  {| isMobileLike := isMobileLike s;
     performanceLevel := performanceLevel s;
     bubbleLayer := bubbleLayer s;
     bubbleMessages := bubbleMessages s;
     bubblesEnabledForModel := bubblesEnabledForModel s;
     heap := heap s;
     nextId := nextId s;
     floatingBubbles := floatingBubbles s;
     activeTextBubble := activeTextBubble s;
     nextBubbleSpawnMs := nextBubbleSpawnMs s;
     lastBubbleTickMs := t;
     dustBursts := dustBursts s |}.

(** [updateFloatingBubbles()] *)
Definition updateFloatingBubbles (f : Frame) (s : State) : Outcome State :=
  if negb (bubbleLayer s) || negb (bubblesEnabledForModel s) then Returned s
  else if perfEqb (performanceLevel s) low
          && Js.ltb (nowMs f - lastBubbleTickMs s) lowBubbleTickIntervalMs
  then Returned s
  else
    let s1 := withLastTick (nowMs f) s in
    let s2 :=
      if bool_decide (activeTextBubble s1 = None)
         && (List.length (floatingBubbles s1) <? getActiveMaxFloatingBubbles s1)%nat
         && reached (nowMs f) (nextBubbleSpawnMs s1)
      then scheduleNextBubble (nowMs f) (gapRoll f) (spawnFloatingBubble f s1)
      else s1 in
    if (List.length (floatingBubbles s2) =? 0)%nat then Returned s2
    else bubbleLoop f (List.length (floatingBubbles s2)) s2.

(** The effect of [load] on the markers: before the scene is fetched, and
    once it has arrived. *)
Definition withEnabled (b : bool) (s : State) : State :=
  {| isMobileLike := isMobileLike s;
     performanceLevel := performanceLevel s;
     bubbleLayer := bubbleLayer s;
     bubbleMessages := bubbleMessages s;
     bubblesEnabledForModel := b;
     heap := heap s;
     nextId := nextId s;
     floatingBubbles := floatingBubbles s;
     activeTextBubble := activeTextBubble s;
     nextBubbleSpawnMs := nextBubbleSpawnMs s;
     lastBubbleTickMs := lastBubbleTickMs s;
     dustBursts := dustBursts s |}.

Definition loadBegin (nowMs : R) (s : State) : State :=
  resetFloatingBubbles false nowMs (withEnabled false s).

Definition loadComplete (nowMs : R) (s : State) : State :=
  resetFloatingBubbles true nowMs (withEnabled true s).

(** [dispose()] *)
Definition dispose (nowMs : R) (s : State) : State :=
  let s1 := resetFloatingBubbles false nowMs s in
  {| isMobileLike := isMobileLike s1;
     performanceLevel := performanceLevel s1;
     bubbleLayer := false;
     bubbleMessages := [];
     bubblesEnabledForModel := bubblesEnabledForModel s1;
     heap := heap s1;
     nextId := nextId s1;
     floatingBubbles := floatingBubbles s1;
     activeTextBubble := activeTextBubble s1;
     nextBubbleSpawnMs := nextBubbleSpawnMs s1;
     lastBubbleTickMs := lastBubbleTickMs s1;
     dustBursts := dustBursts s1 |}.

(** The marker is in the ACTIVE state: it is [this.activeTextBubble]. *)
Definition ACTIVE (s : State) (id : nat) : Prop := activeTextBubble s = Some id.

(** The marker is listed and its label is revealed (class [is-open]). *)
Definition revealed (s : State) (id : nat) : Prop :=
  In id (floatingBubbles s) /\
  exists b, heap s !! id = Some b /\ isOpen b = true.

(** The marker is as [dissipateBubble] at [nowMs] leaves it: closed,
    invisible, out of reach of the pointer, and past its life time. *)
Definition dissipatingAt (nowMs : R) (s : State) (id : nat) : Prop :=
  exists b, heap s !! id = Some b /\
            isOpen b = false /\
            opacity b = Some 0 /\
            pointerEvents b = Some pe_none /\
            spawnMs b = nowMs - lifeMs b - 1.

(** The read-back is unavailable (no context, no [readPixels], or a
    drawing buffer of less than 2 by 2 pixels) or it throws at every pixel. *)
Definition readbackFails (ctx : option GLContext) : Prop :=
  match ctx with
  | None => True
  | Some gl => readPixelsIsFunction gl = false \/
               (drawingBufferWidth gl < 2 \/ drawingBufferHeight gl < 2)%Z \/
               forall x y : Z, readPixels gl x y = Thrown
  end.

(** The list of live markers fits the capacity of the tier and device. *)
Definition withinCapacity (s : State) : Prop :=
  (List.length (floatingBubbles s) <= getActiveMaxFloatingBubbles s)%nat.

(** [s'] has the tier and the device class of [s], and its list of live
    markers is not longer. *)
Definition notLonger (s s' : State) : Prop :=
  isMobileLike s' = isMobileLike s /\
  performanceLevel s' = performanceLevel s /\
  (List.length (floatingBubbles s') <= List.length (floatingBubbles s))%nat.

(** Only the active marker is revealed, and the active marker is a bubble
    object that exists. *)
Definition exclusive (s : State) : Prop :=
  (forall id b, In id (floatingBubbles s) -> heap s !! id = Some b ->
                isOpen b = true -> activeTextBubble s = Some id) /\
  (forall a, activeTextBubble s = Some a -> is_Some (heap s !! a)).

(** The capacity table of the specification. *)
Definition capacity (perf : PerfLevel) (mobile : bool) : nat :=
  match perf, mobile with
  | high, false => 18
  | high, true => 11
  | low, false => 12
  | low, true => 7
  end.

(** The states the public methods and the pointer events can bring the
    markers into.  A click is admitted on every bubble object, a finished
    load at any time, so the relation holds of every state the code can
    reach. *)
Inductive reachable : State -> Prop :=
| reach_initial mobile :
    reachable (initial mobile)
| reach_setFloatingBubbles s layer messages now :
    reachable s -> reachable (setFloatingBubbles layer messages now s)
| reach_setPerformanceLevel s level :
    reachable s -> reachable (setPerformanceLevel level s)
| reach_tick s f s' :
    reachable s -> updateFloatingBubbles f s = Returned s' -> reachable s'
| reach_click s now id :
    reachable s -> reachable (click now id s)
| reach_pointerDown s now0 now1 roll :
    reachable s -> reachable (dismissActiveTextBubble now0 now1 roll s)
| reach_loadBegin s now :
    reachable s -> reachable (loadBegin now s)
| reach_loadComplete s now :
    reachable s -> reachable (loadComplete now s)
| reach_dispose s now :
    reachable s -> reachable (dispose now s).

End Markers.

(** ** The morph as the specification words it *)

Module SpecMorph.
Local Open Scope R_scope.

(** [easeInOutCubic(x) = 4x^3] for [x < 0.5], else [1 - (-2x+2)^3/2]. *)
Definition easeInOutCubic (x : R) : R :=
  if Js.ltb x 0.5 then 4 * (x * x * x)
  else 1 - ((-2 * x + 2) * (-2 * x + 2) * (-2 * x + 2)) / 2.

(** [t mod L], the remainder of the division rounding down. *)
Definition modulo (t L : R) : R := t - L * IZR (Int_part (t / L)).

Definition phase (t : R) : R := modulo t 3.2 / 3.2.
Definition dispersing (t : R) : bool := Js.ltb (phase t) 0.5.
Definition triangle (t : R) : R :=
  if dispersing t then phase t * 2 else (1 - phase t) * 2.
Definition morph (t : R) : R := easeInOutCubic (triangle t).

End SpecMorph.

(** ** Concrete states and inputs used below *)

Module Examples.
Local Open Scope R_scope.

Definition mesh : Controller.SplatMesh :=
  {| Controller.hasSetPointCloudModeEnabled := true;
     Controller.hasSetSplatScale := true;
     Controller.meshPointCloudMode := false;
     Controller.meshSplatScale := 1 |}.

(** The controller right after a scene of radius 1 was loaded at clock
    reading 0, in the given mode. *)
Definition loaded (mode : ModeRegistry.ModeValue) : Controller.State :=
  {| Controller.isMobileLike := false;
     Controller.disposed := false;
     Controller.splatMesh := Some mesh;
     Controller.customUniforms := Some Controller.freshUniforms;
     Controller.animationMode := mode;
     Controller.animationStartTime := 0;
     Controller.lastUniformUpdateTimeMs := 0;
     Controller.pointCloudEnabled := false;
     Controller.luminanceBridgeActive := false;
     Controller.luminanceBridgeFrom := 1;
     Controller.luminanceBridgeElapsed := 0;
     Controller.scaleBridgeActive := false;
     Controller.scaleBridgeFrom := 1;
     Controller.scaleBridgeElapsed := 0;
     Controller.colorGainApplied := 1;
     Controller.scaleApplied := 1;
     Controller.sceneRadius := 1 |}.

(** A WebGL context whose every pixel is opaque. *)
Definition opaqueContext : Probe.GLContext :=
  {| Probe.readPixelsIsFunction := true;
     Probe.drawingBufferWidth := 800;
     Probe.drawingBufferHeight := 600;
     Probe.readPixels := fun _ _ =>
       Returned {| Probe.red := 255; Probe.green := 255; Probe.blue := 255;
                   Probe.alphaByte := 255 |} |}.

(** A WebGL context whose [readPixels] throws. *)
Definition throwingContext : Probe.GLContext :=
  {| Probe.readPixelsIsFunction := true;
     Probe.drawingBufferWidth := 800;
     Probe.drawingBufferHeight := 600;
     Probe.readPixels := fun _ _ => Thrown |}.

(** A plain marker spawned at clock reading 0 and last probed, with the
    result "not covered", at 1000. *)
Definition marker : Markers.FloatingBubbleEntry :=
  {| Markers.kind := Markers.plain;
     Markers.spawnMs := 0;
     Markers.lastUpdateMs := 1000;
     Markers.lifeMs := 4000;
     Markers.revealUntilMs := Markers.Finite 0;
     Markers.maxAlpha := 0.56;
     Markers.screenX := 400;
     Markers.screenY := 300;
     Markers.overModel := false;
     Markers.lastOverlapCheckMs := 1000;
     Markers.isOpen := false;
     Markers.opacity := None;
     Markers.pointerEvents := None |}.

(** The markers of a desktop viewer in the low-performance tier, holding
    [marker] alone. *)
Definition lowDesktop : Markers.State :=
  {| Markers.isMobileLike := false;
     Markers.performanceLevel := Probe.low;
     Markers.bubbleLayer := true;
     Markers.bubbleMessages := [];
     Markers.bubblesEnabledForModel := true;
     Markers.heap := {[ 0%nat := marker ]};
     Markers.nextId := 1;
     Markers.floatingBubbles := [0%nat];
     Markers.activeTextBubble := None;
     Markers.nextBubbleSpawnMs := Markers.PositiveInfinity;
     Markers.lastBubbleTickMs := 1000;
     Markers.dustBursts := [] |}.

(** A frame at the given clock reading and context, on an 800 by 600
    canvas, every marker projected to its centre. *)
Definition frame (nowMs : R) (ctx : option Probe.GLContext) : Markers.Frame :=
  {| Markers.nowMs := nowMs;
     Markers.context := ctx;
     Markers.canvasClientWidth := 800;
     Markers.canvasClientHeight := 600;
     Markers.projection := fun _ =>
       {| Markers.ndcX := 0; Markers.ndcY := 0; Markers.ndcZ := 0 |};
     Markers.textRoll := 0.9;
     Markers.lifeRoll := 0.5;
     Markers.gapRoll := 0.5 |}.

(** A frame in which every marker is projected behind the far plane, so
    that none is drawn or probed. *)
Definition frameBehind (nowMs textRoll : R) : Markers.Frame :=
  {| Markers.nowMs := nowMs;
     Markers.context := None;
     Markers.canvasClientWidth := 800;
     Markers.canvasClientHeight := 600;
     Markers.projection := fun _ =>
       {| Markers.ndcX := 0; Markers.ndcY := 0; Markers.ndcZ := 5 |};
     Markers.textRoll := textRoll;
     Markers.lifeRoll := 0.5;
     Markers.gapRoll := 0 |}.

(** The markers after a layer with one message was set and a scene was
    loaded at clock reading 0. *)
Definition notesReady : Markers.State :=
  Markers.loadComplete 0
    (Markers.setFloatingBubbles true ["note"%string] 0 (Markers.initial false)).

(** A text marker spawned at [spawn] with the life roll 0.5, as a tick at
    [lastUpdate] of [frameBehind] leaves it: hidden, its label closed. *)
Definition note (spawn lastUpdate : R) : Markers.FloatingBubbleEntry :=
  {| Markers.kind := Markers.text;
     Markers.spawnMs := spawn;
     Markers.lastUpdateMs := lastUpdate;
     Markers.lifeMs :=
       Markers.bubbleLifeMinMs + 0.5 * (Markers.bubbleLifeMaxMs - Markers.bubbleLifeMinMs);
     Markers.revealUntilMs := Markers.Finite 0;
     Markers.maxAlpha := 0.56;
     Markers.screenX := 800 * 0.5;
     Markers.screenY := 600 * 0.5;
     Markers.overModel := false;
     Markers.lastOverlapCheckMs := 0;
     Markers.isOpen := false;
     Markers.opacity := Some 0;
     Markers.pointerEvents := Some Markers.pe_none |}.

(** The next spawn time [scheduleNextBubble] sets at [nowMs] on a desktop
    in the high tier with the gap roll 0. *)
Definition nextSpawnAfter (nowMs : R) : Markers.Time :=
  Markers.Finite
    (nowMs + (Markers.bubbleSpawnMinGapMs * 1 * 1
              + 0 * Rmax (Markers.bubbleSpawnMaxGapMs * 1 * 1
                          - Markers.bubbleSpawnMinGapMs * 1 * 1) 1)).

Definition notes (h : gmap nat Markers.FloatingBubbleEntry) (l : list nat)
    (next : nat) (lastTick : R) : Markers.State :=
  {| Markers.isMobileLike := false;
     Markers.performanceLevel := Probe.high;
     Markers.bubbleLayer := true;
     Markers.bubbleMessages := ["note"%string];
     Markers.bubblesEnabledForModel := true;
     Markers.heap := h;
     Markers.nextId := next;
     Markers.floatingBubbles := l;
     Markers.activeTextBubble := None;
     Markers.nextBubbleSpawnMs := nextSpawnAfter lastTick;
     Markers.lastBubbleTickMs := lastTick;
     Markers.dustBursts := [] |}.

(** [notesReady] after a tick at 400, and after a second tick at 800; each
    tick spawns a text marker. *)
Definition oneNote : Markers.State :=
  notes (<[0%nat := note 400 400]> ∅) [0%nat] 1 400.

Definition twoNotes : Markers.State :=
  notes (<[0%nat := note 400 800]> (<[1%nat := note 800 800]> (<[0%nat := note 400 400]> ∅)))
        [0%nat; 1%nat] 2 800.

(** A scene of radius 1 whose material takes the kernel patch. *)
Definition scene : Controller.LoadedScene :=
  {| Controller.ls_mesh := Some mesh;
     Controller.ls_meshMaterial := Controller.Patchable Controller.freshUniforms;
     Controller.ls_radius := Some 1 |}.

(** The controller after that scene was loaded into a fresh viewer. *)
Definition afterLoad : Controller.State :=
  Controller.loadComplete scene 0 0 0 (Controller.initial false 0 0).

Definition origin : Kernel.vec3 := {| Kernel.vx := 0; Kernel.vy := 0; Kernel.vz := 0 |}.
Definition unitX : Kernel.vec3 := {| Kernel.vx := 1; Kernel.vy := 0; Kernel.vz := 0 |}.

(** The clock reading, in milliseconds, at which the burst of element 0
    peaks for the first time: [0.96 * t = PI / 2]. *)
Definition burstPeakMs : R := 1000 * (PI / 1.92).

End Examples.

(** ** Bounds of the blend state *)

Module Blend.
Import Controller.
Local Open Scope R_scope.

(** The applied colour gain and splat scale are within the span of the
    values the tick can aim at. *)
Definition inRange (s : State) : Prop :=
  0.62 <= colorGainApplied s <= 1.34 /\
  0.84 <= scaleApplied s <= 1.7464.

(** [setAnimation(mode)] followed by a tick at the same clock reading. *)
Definition switchAt (mode : string) (nowMs : R) (s : State) : State :=
  setAnimation mode nowMs nowMs nowMs s.



End Blend.

(** ** Conditions on a tick of the markers *)

Module Tick.
Import Probe Markers.
Local Open Scope R_scope.

(** [updateFloatingBubbles] gets past its two early returns: there is a
    layer, the model has markers enabled, and in the low tier at least
    [lowBubbleTickIntervalMs] have passed since the last tick that ran. *)
Definition runs (f : Frame) (s : State) : Prop :=
  bubbleLayer s = true /\
  bubblesEnabledForModel s = true /\
  (performanceLevel s = high \/
   lowBubbleTickIntervalMs <= nowMs f - lastBubbleTickMs s).

(** The marker is past its life time at [nowMs]: [lifeRatio >= 1]. *)
Definition expired (nowMs : R) (b : FloatingBubbleEntry) : Prop :=
  1 <= (nowMs - spawnMs b) / lifeMs b.

(** The marker at [id] is not due for removal: it is not expired, or it
    is the active one, or there is no such object. *)
Definition kept (f : Frame) (s : State) (id : nat) : Prop :=
  forall b, heap s !! id = Some b ->
            ~ expired (nowMs f) b \/ activeTextBubble s = Some id.

(** Every bubble object was created with an identity below [nextId]. *)
Definition allocated (s : State) : Prop :=
  forall id, is_Some (heap s !! id) -> (id < nextId s)%nat.

(** [minGap] and [maxGap] of [scheduleNextBubble]. *)
Definition minGap (s : State) : R :=
  bubbleSpawnMinGapMs * (if isMobileLike s then 1.2 else 1)
  * (match performanceLevel s with low => 1.28 | high => 1 end).
Definition maxGap (s : State) : R :=
  bubbleSpawnMaxGapMs * (if isMobileLike s then 1.3 else 1)
  * (match performanceLevel s with low => 1.28 | high => 1 end).

End Tick.

(** * The drawing buffer as a region *)

Module Buffer.
Import Probe.
Local Open Scope R_scope.

(** The pixel lies inside the drawing buffer. *)
Definition inside (gl : GLContext) (x y : Z) : Prop :=
  (0 <= x < drawingBufferWidth gl)%Z /\ (0 <= y < drawingBufferHeight gl)%Z.

(** Two contexts that differ at most in what [readPixels] does outside
    the drawing buffer. *)
Definition agreeInside (g1 g2 : GLContext) : Prop :=
  readPixelsIsFunction g1 = readPixelsIsFunction g2 /\
  drawingBufferWidth g1 = drawingBufferWidth g2 /\
  drawingBufferHeight g1 = drawingBufferHeight g2 /\
  forall x y : Z, inside g1 x y -> readPixels g1 x y = readPixels g2 x y.

(** The sample at a point of the drawing buffer reads an alpha above 14. *)
Definition coveredAt (gl : GLContext) (x y : R) : Prop :=
  exists a : Z, readRenderAlpha gl x y = Returned a /\ (14 < a)%Z.

(** Every byte [readPixels] stores is a byte. *)
Definition bytes (gl : GLContext) : Prop :=
  forall (x y : Z) (px : Pixel), readPixels gl x y = Returned px ->
    (0 <= red px <= 255 /\ 0 <= green px <= 255 /\ 0 <= blue px <= 255)%Z.

End Buffer.

(** * The colour of a marker *)

Module Colour.
Import ModeRegistry Probe Markers.
Local Open Scope R_scope.

Definition Rgb : Type := Z * Z * Z.

(** [this.animationMode === m] *)
Definition modeIs (m : AnimMode) (v : ModeValue) : bool :=
  match v, m with
  | Canon none, none | Canon zwave, zwave | Canon swirl, swirl
  | Canon noise, noise | Canon breath, breath | Canon explode, explode => true
  | _, _ => false
  end.

Definition clampByte (z : Z) : Z := Z.max 0 (Z.min 255 z).

(** [fallbackBubbleColor(seed)] *)
Definition fallbackBubbleColor (mode : ModeValue) (seed : R) : Rgb :=
  let base : Rgb := (130, 186, 245)%Z in
  let base := if modeIs zwave mode then (120, 201, 255)%Z else base in
  let base := if modeIs swirl mode then (132, 220, 246)%Z else base in
  let base := if modeIs noise mode then (172, 188, 255)%Z else base in
  let base := if modeIs breath mode then (168, 223, 255)%Z else base in
  let base := if modeIs explode mode then (255, 172, 128)%Z else base in
  let jitter := (seed - 0.5) * 36 in
  let '(r, g, b) := base in
  (clampByte (Js.round (IZR r + jitter)),
   clampByte (Js.round (IZR g + jitter * 0.7)),
   clampByte (Js.round (IZR b + jitter * 0.4))).

(** [readFramePixel(gl, screenX, screenY)]; [None] is [null]. *)
Definition readFramePixel (gl : GLContext) (screenX screenY : R) : Outcome (option Rgb) :=
  let drawWidth := drawingBufferWidth gl in
  let drawHeight := drawingBufferHeight gl in
  if ((drawWidth <? 2) || (drawHeight <? 2))%Z then Returned None
  else
    let clampedX := Z.max 0 (Z.min (drawWidth - 1) (Js.round screenX)) in
    let clampedYTopLeft := Z.max 0 (Z.min (drawHeight - 1) (Js.round screenY)) in
    let clampedYBottomLeft := (drawHeight - 1 - clampedYTopLeft)%Z in
    let! sample :=
      tryCatch
        (let! px := callReadPixels gl clampedX clampedYBottomLeft in Returned (Some px))
        (Returned None) in
    match sample with
    | None => Returned None
    | Some px =>
        if (alphaByte px <? 14)%Z then Returned None
        else if (red px + green px + blue px <? 32)%Z then Returned None
        else Returned (Some (red px, green px, blue px))
    end.

(** [score] of a sampled pixel in [resolveBubbleColor]. *)
Definition score (c : Rgb) : R :=
  let '(r, g, b) := c in
  let minChannel := Z.min (Z.min r g) b in
  let maxChannel := Z.max (Z.max r g) b in
  let luma := IZR r * 0.2126 + IZR g * 0.7152 + IZR b * 0.0722 in
  luma + IZR (maxChannel - minChannel) * 0.7.

Definition candidateOffsets (seed sampleRadius : R) : list (R * R) :=
  [ (0, 0);
    (cos (seed * 6.283) * sampleRadius, sin (seed * 6.283) * sampleRadius);
    (cos ((seed + 0.33) * 6.283) * sampleRadius * 1.45,
     sin ((seed + 0.33) * 6.283) * sampleRadius * 1.45);
    (cos ((seed + 0.66) * 6.283) * sampleRadius * 0.72,
     sin ((seed + 0.66) * 6.283) * sampleRadius * 0.72) ].

(** The [for ... of candidateOffsets] loop, from the current [best] and
    [bestScore]. *)
Fixpoint pickBest (gl : GLContext) (baseX baseY : R) (offsets : list (R * R))
    (best : option Rgb) (bestScore : R) : Outcome (option Rgb) :=
  match offsets with
  | [] => Returned best
  | (offsetX, offsetY) :: rest =>
      let! sampled := readFramePixel gl (baseX + offsetX) (baseY + offsetY) in
      match sampled with
      | None => pickBest gl baseX baseY rest best bestScore
      | Some c =>
          if Js.gtb (score c) bestScore
          then pickBest gl baseX baseY rest (Some c) (score c)
          else pickBest gl baseX baseY rest best bestScore
      end
  end.

Definition gained (gain : R) (channel : Z) : Z :=
  Z.min 255 (Js.round (IZR channel * (0.82 + gain * 0.26))).

(** [resolveBubbleColor(seed)]; [centre] is the projection of the scene
    centre by the camera, whose coordinates are reals and so finite. *)
Definition resolveBubbleColor (c : Controller.State) (ctx : option GLContext)
    (centre : Projection) (seed : R) : Outcome Rgb :=
  let fallback := fallbackBubbleColor (Controller.animationMode c) seed in
  match ctx with
  | None => Returned fallback
  | Some gl =>
    if negb (readPixelsIsFunction gl) then Returned fallback
    else
      let drawWidth := drawingBufferWidth gl in
      let drawHeight := drawingBufferHeight gl in
      if ((drawWidth <? 2) || (drawHeight <? 2))%Z then Returned fallback
      else if Js.leb (ndcZ centre) (-1) || Js.geb (ndcZ centre) 1 then Returned fallback
      else
        let baseX := (ndcX centre * 0.5 + 0.5) * IZR drawWidth in
        let baseY := (- ndcY centre * 0.5 + 0.5) * IZR drawHeight in
        let sampleRadius := Rmax 5 (IZR (Z.min drawWidth drawHeight) * 0.009) in
        let! best := pickBest gl baseX baseY (candidateOffsets seed sampleRadius) None (-1) in
        match best with
        | None => Returned fallback
        | Some (r, g, b) =>
            let gain := Controller.colorGainApplied c in
            Returned (gained gain r, gained gain g, gained gain b)
        end
  end.

(** [colorRgb] of [spawnFloatingBubble]. *)
Definition colorRgbOf (perf : PerfLevel) (c : Controller.State) (ctx : option GLContext)
    (centre : Projection) (seed : R) : Outcome Rgb :=
  match perf with
  | low => Returned (fallbackBubbleColor (Controller.animationMode c) seed)
  | high => resolveBubbleColor c ctx centre seed
  end.

(** The triple is a colour: each channel is a byte. *)
Definition isRgb (c : Rgb) : Prop :=
  let '(r, g, b) := c in (0 <= r <= 255 /\ 0 <= g <= 255 /\ 0 <= b <= 255)%Z.

End Colour.

(** * Placing a new marker clear of the model *)

Module Placement.
Import Probe Markers Kernel.
Local Open Scope R_scope.

Definition bubbleNoOverlapPushStepFactor : R := 0.04.
Definition bubbleNoOverlapPushMaxTries : nat := 12.

(** What [pushBubbleOutsideModel] reads: the camera as the projection it
    applies to a point, the context, the tier and device class, the size of
    the canvas and the radius of the scene. *)
Record View := {
  project : vec3 -> Projection;
  context : option GLContext;
  performanceLevel : PerfLevel;
  isMobileLike : bool;
  canvasClientWidth : R;
  canvasClientHeight : R;
  sceneRadius : R
}.

Definition pushStep (v : View) : R :=
  Rmax (sceneRadius v * bubbleNoOverlapPushStepFactor) 0.005.

Definition activeMaxPushTries (v : View) : nat :=
  let maxPushTries :=
    if isMobileLike v then Nat.min bubbleNoOverlapPushMaxTries 6
    else bubbleNoOverlapPushMaxTries in
  match performanceLevel v with
  | low => Nat.min maxPushTries 4
  | high => maxPushTries
  end.

(** The test that ends the loop when the point is not on screen; its
    [Number.isFinite] parts hold of every real. *)
Definition offScreen (p : Projection) : bool :=
  Js.leb (ndcZ p) (-1) || Js.geb (ndcZ p) 1 ||
  Js.leb (ndcX p) (-1.1) || Js.geb (ndcX p) 1.1 ||
  Js.leb (ndcY p) (-1.1) || Js.geb (ndcY p) 1.1.

(** The [for] loop with [tries] iterations left, and the push after it. *)
Fixpoint pushLoop (v : View) (outwardDir : vec3) (tries : nat)
    (position : vec3) : Outcome vec3 :=
  match tries with
  | O => Returned (vadd position (vscale (pushStep v * 1.5) outwardDir))
  | S rest =>
      let width := Rmax (canvasClientWidth v) 1 in
      let height := Rmax (canvasClientHeight v) 1 in
      let p := project v position in
      if offScreen p then Returned position
      else
        let px := (ndcX p * 0.5 + 0.5) * width in
        let py := (- ndcY p * 0.5 + 0.5) * height in
        let! covered :=
          isModelPixelCovered (context v) (performanceLevel v) (isMobileLike v)
            (canvasClientWidth v) (canvasClientHeight v) px py
            (getActiveNoOverlapSampleRadiusPx (performanceLevel v) (isMobileLike v)) in
        if negb covered then Returned position
        else pushLoop v outwardDir rest (vadd position (vscale (pushStep v) outwardDir))
  end.

(** [pushBubbleOutsideModel(position, outwardDir)]: the position it
    leaves in [position]. *)
Definition pushBubbleOutsideModel (v : View) (position outwardDir : vec3) : Outcome vec3 :=
  pushLoop v outwardDir (activeMaxPushTries v) position.

End Placement.

(** * Framing the camera and the pixel ratio *)

Module Camera.
Import Probe Kernel.
Local Open Scope R_scope.

Record Framing := {
  sceneCenter : vec3;
  sceneRadius : R;
  position : vec3;
  near : R;
  far : R;
  target : vec3;
  minDistance : R
}.

(** [frameCameraFromSplatMesh(splatMesh)]: [center] is
    [calculatedSceneCenter] when it is present and finite, [radius] is
    [maxSplatDistanceFromSceneCenter] when it is finite, [fov] the field of
    view of the camera in degrees. *)
Definition frameCameraFromSplatMesh (center : option vec3) (radius : option R)
    (fov : R) : Framing :=
  let sceneCenter :=
    match center with
    | Some c => c
    | None => {| vx := 0; vy := 0; vz := 0 |}
    end in
  let sceneRadius :=
    match radius with
    | Some r => if Js.gtb r 0 then r else 1
    | None => 1
    end in
  let fovRad := fov * PI / 180 in
  let distance := sceneRadius / tan (fovRad / 2) in
  let safeDistance := Rmax (distance * 1.35) (sceneRadius * 1.8) in
  {| sceneCenter := sceneCenter;
     sceneRadius := sceneRadius;
     position := {| vx := vx sceneCenter + safeDistance * 0.14;
                    vy := vy sceneCenter + safeDistance * 0.08;
                    vz := vz sceneCenter + safeDistance |};
     near := Rmax 0.001 (safeDistance / 5000);
     far := Rmax 1000 (safeDistance * 3000);
     target := sceneCenter;
     minDistance := Rmax (sceneRadius * 0.001) 0.0001 |}.

Definition highDprCapDesktop : R := 2.
Definition highDprCapMobile : R := 1.75.
Definition lowDprCapDesktop : R := 1.35.
Definition lowDprCapMobile : R := 1.05.

(** [applyRendererPixelRatio()]: the ratio it sets; [devicePixelRatio] is
    [window.devicePixelRatio]. *)
Definition applyRendererPixelRatio (perf : PerfLevel) (mobile : bool)
    (devicePixelRatio : R) : R :=
  let cap :=
    match perf with
    | low => if mobile then lowDprCapMobile else lowDprCapDesktop
    | high => if mobile then highDprCapMobile else highDprCapDesktop
    end in
  Rmin (if Js.eqb devicePixelRatio 0 then 1 else devicePixelRatio) cap.

End Camera.

(** * More examples *)

Module Examples2.
Local Open Scope R_scope.

(** A context like [Examples.opaqueContext] whose [readPixels] throws for
    a pixel outside the drawing buffer. *)
Definition guardedContext : Probe.GLContext :=
  {| Probe.readPixelsIsFunction := true;
     Probe.drawingBufferWidth := 800;
     Probe.drawingBufferHeight := 600;
     Probe.readPixels := fun x y =>
       if ((0 <=? x) && (x <? 800) && (0 <=? y) && (y <? 600))%Z
       then Returned {| Probe.red := 255; Probe.green := 255; Probe.blue := 255;
                        Probe.alphaByte := 255 |}
       else Thrown |}.

(** The centre of the canvas, in normalized device coordinates. *)
Definition centre : Markers.Projection :=
  {| Markers.ndcX := 0; Markers.ndcY := 0; Markers.ndcZ := 0 |}.

(** A desktop view in the high tier whose camera projects every point to
    the centre of an 800 by 600 canvas. *)
Definition view (ctx : option Probe.GLContext) : Placement.View :=
  {| Placement.project := fun _ => centre;
     Placement.context := ctx;
     Placement.performanceLevel := Probe.high;
     Placement.isMobileLike := false;
     Placement.canvasClientWidth := 800;
     Placement.canvasClientHeight := 600;
     Placement.sceneRadius := 1 |}.

End Examples2.

(** * Counting the text markers *)

Module Census.
Import Probe Markers.

(** [activeTextCount] of [spawnFloatingBubble]: the text markers listed. *)
Definition textCount (s : State) : nat :=
  fold_left (fun count id => (count + (if isText (heap s) id then 1 else 0))%nat)
            (floatingBubbles s) 0%nat.

(** Every listed marker was created before: its identity is below the
    next one to be given out. *)
Definition listedBelowNext (s : State) : Prop :=
  forall id, In id (floatingBubbles s) -> (id < nextId s)%nat.

(** [s'] lists no marker that [s] does not list, in the same order,
    creates no bubble object and changes the kind of none. *)
Definition keeps (s s' : State) : Prop :=
  nextId s' = nextId s /\
  floatingBubbles s' `sublist_of` floatingBubbles s /\
  forall id, isText (heap s') id = isText (heap s) id.

End Census.

(** * The page script: the performance tier *)

(** The part of the page script (main.ts) that decides the performance
    tier: [applyPerformanceLevel], the scroll boost, the frame-rate monitor
    of [animate], and what [updateLayoutMode] and [setShowcaseMode] do to
    these.  Of the viewer the state holds the markers, where the tier of
    the viewer lives. *)
Module Host.
Import Probe.
Local Open Scope R_scope.

Record State := {
  performanceLevel : PerfLevel;
  isMobileLayout : bool;
  isShowcaseMode : bool;
  isNarrativeScrolling : bool;
  narrativePerfRestoreLevel : option PerfLevel;
  fpsFrameCount : nat;
  fpsWindowStartMs : R;
  lowFpsWindows : nat;
  highFpsWindows : nat;
  viewer : Markers.State
}.

(** [applyPerformanceLevel(nextLevel)] *)
Definition applyPerformanceLevel (nextLevel : PerfLevel) (s : State) : State :=
  if Markers.perfEqb (performanceLevel s) nextLevel then s
  else
    {| performanceLevel := nextLevel;
       isMobileLayout := isMobileLayout s;
       isShowcaseMode := isShowcaseMode s;
       isNarrativeScrolling := isNarrativeScrolling s;
       narrativePerfRestoreLevel := narrativePerfRestoreLevel s;
       fpsFrameCount := fpsFrameCount s;
       fpsWindowStartMs := fpsWindowStartMs s;
       lowFpsWindows := lowFpsWindows s;
       highFpsWindows := highFpsWindows s;
       viewer := Markers.setPerformanceLevel nextLevel (viewer s) |}.

(** The assignments to [lowFpsWindows] and [highFpsWindows]. *)
Definition withWindows (lowWindows highWindows : nat) (s : State) : State :=
  {| performanceLevel := performanceLevel s;
     isMobileLayout := isMobileLayout s;
     isShowcaseMode := isShowcaseMode s;
     isNarrativeScrolling := isNarrativeScrolling s;
     narrativePerfRestoreLevel := narrativePerfRestoreLevel s;
     fpsFrameCount := fpsFrameCount s;
     fpsWindowStartMs := fpsWindowStartMs s;
     lowFpsWindows := lowWindows;
     highFpsWindows := highWindows;
     viewer := viewer s |}.

(** The assignments to [isNarrativeScrolling] and
    [narrativePerfRestoreLevel]. *)
Definition withScrolling (scrolling : bool) (restore : option PerfLevel) (s : State) : State :=
  {| performanceLevel := performanceLevel s;
     isMobileLayout := isMobileLayout s;
     isShowcaseMode := isShowcaseMode s;
     isNarrativeScrolling := scrolling;
     narrativePerfRestoreLevel := restore;
     fpsFrameCount := fpsFrameCount s;
     fpsWindowStartMs := fpsWindowStartMs s;
     lowFpsWindows := lowFpsWindows s;
     highFpsWindows := highFpsWindows s;
     viewer := viewer s |}.

(** The assignments to [fpsFrameCount] and [fpsWindowStartMs]. *)
Definition withWindow (count : nat) (startMs : R) (s : State) : State :=
  {| performanceLevel := performanceLevel s;
     isMobileLayout := isMobileLayout s;
     isShowcaseMode := isShowcaseMode s;
     isNarrativeScrolling := isNarrativeScrolling s;
     narrativePerfRestoreLevel := narrativePerfRestoreLevel s;
     fpsFrameCount := count;
     fpsWindowStartMs := startMs;
     lowFpsWindows := lowFpsWindows s;
     highFpsWindows := highFpsWindows s;
     viewer := viewer s |}.

(** The assignments to [isMobileLayout] and [isShowcaseMode]. *)
Definition withLayout (mobile showcase : bool) (s : State) : State :=
  {| performanceLevel := performanceLevel s;
     isMobileLayout := mobile;
     isShowcaseMode := showcase;
     isNarrativeScrolling := isNarrativeScrolling s;
     narrativePerfRestoreLevel := narrativePerfRestoreLevel s;
     fpsFrameCount := fpsFrameCount s;
     fpsWindowStartMs := fpsWindowStartMs s;
     lowFpsWindows := lowFpsWindows s;
     highFpsWindows := highFpsWindows s;
     viewer := viewer s |}.

Definition withViewer (m : Markers.State) (s : State) : State :=
  {| performanceLevel := performanceLevel s;
     isMobileLayout := isMobileLayout s;
     isShowcaseMode := isShowcaseMode s;
     isNarrativeScrolling := isNarrativeScrolling s;
     narrativePerfRestoreLevel := narrativePerfRestoreLevel s;
     fpsFrameCount := fpsFrameCount s;
     fpsWindowStartMs := fpsWindowStartMs s;
     lowFpsWindows := lowFpsWindows s;
     highFpsWindows := highFpsWindows s;
     viewer := m |}.

(** [startNarrativeScrollBoost()] *)
Definition startNarrativeScrollBoost (s : State) : State :=
  if isNarrativeScrolling s then s
  else
    let s1 := withScrolling true (Some (performanceLevel s)) (withWindows 0 0 s) in
    if negb (Markers.perfEqb (performanceLevel s1) low)
    then applyPerformanceLevel low s1
    else s1.

(** [stopNarrativeScrollBoost()] *)
Definition stopNarrativeScrollBoost (s : State) : State :=
  if negb (isNarrativeScrolling s) then s
  else
    let s1 := withWindows 0 0 (withScrolling false (narrativePerfRestoreLevel s) s) in
    let s2 :=
      match narrativePerfRestoreLevel s1 with
      | Some level =>
          if negb (Markers.perfEqb (performanceLevel s1) level)
          then applyPerformanceLevel level s1
          else s1
      | None => s1
      end in
    withScrolling (isNarrativeScrolling s2) None s2.

(** The frame-rate monitor at the head of [animate]. *)
Definition monitor (nowMs : R) (s : State) : State :=
  let s1 := withWindow (S (fpsFrameCount s)) (fpsWindowStartMs s) s in
  let fpsWindowElapsedMs := nowMs - fpsWindowStartMs s1 in
  if Js.geb fpsWindowElapsedMs 1000 then
    let fps := INR (fpsFrameCount s1) * 1000 / fpsWindowElapsedMs in
    let s2 := withWindow 0 nowMs s1 in
    if isNarrativeScrolling s2 then withWindows 0 0 s2
    else
      let s3 :=
        if Js.ltb fps 42 then withWindows (S (lowFpsWindows s2)) 0 s2
        else if Js.gtb fps 55 then withWindows 0 (S (highFpsWindows s2)) s2
        else withWindows 0 0 s2 in
      if Markers.perfEqb (performanceLevel s3) high && (2 <=? lowFpsWindows s3)%nat
      then applyPerformanceLevel low s3
      else if Markers.perfEqb (performanceLevel s3) low
              && (3 <=? highFpsWindows s3)%nat
              && negb (isMobileLayout s3)
      then applyPerformanceLevel high s3
      else s3
  else s1.

(** [animate()]: the monitor, then [viewer.update()]. *)
Definition animate (nowMs : R) (f : Markers.Frame) (s : State) : Outcome State :=
  let s1 := monitor nowMs s in
  let! m := Markers.updateFloatingBubbles f (viewer s1) in
  Returned (withViewer m s1).

(** The listener of the scroll event of the narrative. *)
Definition onNarrativeScroll (s : State) : State :=
  if isShowcaseMode s || isMobileLayout s then s
  else startNarrativeScrollBoost s.

(** [setShowcaseMode(enabled)] *)
Definition setShowcaseMode (enabled : bool) (s : State) : State :=
  if Bool.eqb (isShowcaseMode s) enabled then s
  else
    let s1 := withLayout (isMobileLayout s) enabled s in
    if isShowcaseMode s1 then stopNarrativeScrollBoost s1 else s1.

(** [updateLayoutMode()]; [matches] is [mobileQuery.matches]. *)
Definition updateLayoutMode (matches : bool) (s : State) : State :=
  let s1 := withLayout matches (isShowcaseMode s) s in
  let s2 :=
    if isMobileLayout s1 then
      stopNarrativeScrollBoost
        (if isShowcaseMode s1 then withLayout (isMobileLayout s1) false s1 else s1)
    else s1 in
  if isMobileLayout s2 && negb (Markers.perfEqb (performanceLevel s2) low)
  then applyPerformanceLevel low s2
  else s2.

(** The script from its first line to the first call of [animate]:
    [matches0] and [matches1] are the two readings of [mobileQuery.matches],
    [mobileLike] is what the constructor of the viewer finds, [layer] whether
    the page has the marker layer, [texts] the notes. *)
Definition boot (matches0 matches1 mobileLike layer : bool) (texts : list string)
    (now0 now1 : R) : State :=
  let s0 :=
    {| performanceLevel := high;
       isMobileLayout := matches0;
       isShowcaseMode := false;
       isNarrativeScrolling := false;
       narrativePerfRestoreLevel := None;
       fpsFrameCount := 0;
       fpsWindowStartMs := now1;
       lowFpsWindows := 0;
       highFpsWindows := 0;
       viewer := Markers.setFloatingBubbles layer texts now0 (Markers.initial mobileLike) |} in
  updateLayoutMode matches1
    (applyPerformanceLevel (if isMobileLayout s0 then low else high) s0).

(** What the viewer does to its markers on its own: the events of the
    page and the calls of the script that leave the tier alone. *)
Inductive viewerStep : Markers.State -> Markers.State -> Prop :=
| step_click m now id : viewerStep m (Markers.click now id m)
| step_pointerDown m now0 now1 roll :
    viewerStep m (Markers.dismissActiveTextBubble now0 now1 roll m)
| step_loadBegin m now : viewerStep m (Markers.loadBegin now m)
| step_loadComplete m now : viewerStep m (Markers.loadComplete now m)
| step_dispose m now : viewerStep m (Markers.dispose now m).

(** The states the page can reach. *)
Inductive reachable : State -> Prop :=
| reach_boot matches0 matches1 mobileLike layer texts now0 now1 :
    reachable (boot matches0 matches1 mobileLike layer texts now0 now1)
| reach_animate s nowMs f s' :
    reachable s -> animate nowMs f s = Returned s' -> reachable s'
| reach_scroll s :
    reachable s -> reachable (onNarrativeScroll s)
| reach_scrollIdle s :
    reachable s -> reachable (stopNarrativeScrollBoost s)
| reach_showcase s enabled :
    reachable s -> reachable (setShowcaseMode enabled s)
| reach_layout s matches :
    reachable s -> reachable (updateLayoutMode matches s)
| reach_viewer s m :
    reachable s -> viewerStep (viewer s) m -> reachable (withViewer m s).

(** The page and the viewer hold the same tier. *)
Definition tiersAgree (s : State) : Prop :=
  Markers.performanceLevel (viewer s) = performanceLevel s.

(** On the mobile layout the tier is low and no scroll boost runs. *)
Definition mobileIsLow (s : State) : Prop :=
  isMobileLayout s = true -> performanceLevel s = low /\ isNarrativeScrolling s = false.

Definition tierInvariant (s : State) : Prop := tiersAgree s /\ mobileIsLow s.

(** The frames at the clock readings [nows], one after the other, as far
    as the monitor goes. *)
Definition frames (nows : list R) (s : State) : State :=
  fold_left (fun acc nowMs => monitor nowMs acc) nows s.

(** The frame rate the monitor computes when the frame at [nowMs] closes
    a measuring window outside a scroll boost. *)
Definition closesWindow (nowMs : R) (s : State) : option R :=
  let elapsed := nowMs - fpsWindowStartMs s in
  if Js.geb elapsed 1000 && negb (isNarrativeScrolling s)
  then Some (INR (S (fpsFrameCount s)) * 1000 / elapsed)
  else None.

(** No measuring window is closed by the frame at [nowMs]. *)
Definition idleFrame (nowMs : R) (s : State) : Prop :=
  Js.geb (nowMs - fpsWindowStartMs s) 1000 = false.

(** Run from [s], the frames at [nows] end with [k] measuring windows in
    a row whose frame rate satisfies [P] and that were closed outside a
    scroll boost; between them lie only frames that close no window. *)
Inductive streak (P : R -> Prop) (s : State) : nat -> list R -> Prop :=
| streak_none nows : streak P s 0 nows
| streak_idle k nows nowMs :
    streak P s k nows -> idleFrame nowMs (frames nows s) ->
    streak P s k (nows ++ [nowMs])
| streak_window k nows nowMs fps :
    streak P s k nows -> closesWindow nowMs (frames nows s) = Some fps -> P fps ->
    streak P s (S k) (nows ++ [nowMs]).

End Host.

(** * The page script: the narrative stops *)

(** The part of the page script that selects the animation:
    [resolveAnimIndexFromScroll], [applyAnimIndex], [resolveStopIndexByMode]
    and [applyMobileCycleMode]. *)
Module Narrative.
Local Open Scope Z_scope.

Record State := {
  animStops : list string;           (* the [mode] of every stop *)
  activeAnimIndex : Z;
  mobileCycleModeIndex : Z;
  viewer : Controller.State
}.

Definition mobileCycleModes : list string :=
  ["zwave"; "swirl"; "breath"; "explode"]%string.

(** [((n % len) + len) % len], on integers; the script stops at its
    start when there is no stop, so [len] is positive where it runs. *)
Definition normalized (n len : Z) : Z := Z.rem (Z.rem n len + len) len.

(** [applyAnimIndex(nextIndex)]; [now0], [now1], [now2] are the clock
    readings of [viewer.setAnimation]. *)
Definition applyAnimIndex (nextIndex : Z) (now0 now1 now2 : R) (s : State) : Outcome State :=
  let index := normalized nextIndex (Z.of_nat (List.length (animStops s))) in
  if (index =? activeAnimIndex s) then Returned s
  else
    match (if index <? 0 then None else nth_error (animStops s) (Z.to_nat index)) with
    | None => Thrown
    | Some mode =>
        Returned
          {| animStops := animStops s;
             activeAnimIndex := index;
             mobileCycleModeIndex := mobileCycleModeIndex s;
             viewer := Controller.setAnimation mode now0 now1 now2 (viewer s) |}
    end.

(** [animStops.findIndex((stop) => stop.mode === mode)], from index [i]. *)
Fixpoint findIndexFrom (mode : string) (stops : list string) (i : Z) : Z :=
  match stops with
  | [] => -1
  | m :: rest => if String.eqb m mode then i else findIndexFrom mode rest (i + 1)
  end.

(** [resolveStopIndexByMode(mode)] *)
Definition resolveStopIndexByMode (mode : string) (s : State) : Z :=
  let idx := findIndexFrom mode (animStops s) 0 in
  if 0 <=? idx then idx else 0.

(** [applyMobileCycleMode(nextModeIndex)] *)
Definition applyMobileCycleMode (nextModeIndex : Z) (now0 now1 now2 : R) (s : State)
    : Outcome State :=
  let index := normalized nextModeIndex (Z.of_nat (List.length mobileCycleModes)) in
  let s1 :=
    {| animStops := animStops s;
       activeAnimIndex := activeAnimIndex s;
       mobileCycleModeIndex := index;
       viewer := viewer s |} in
  match (if index <? 0 then None else nth_error mobileCycleModes (Z.to_nat index)) with
  | None => Thrown
  | Some mode => applyAnimIndex (resolveStopIndexByMode mode s1) now0 now1 now2 s1
  end.

(** The loop of [resolveAnimIndexFromScroll]: [i] is the index of the
    stop at [currTop], [index] the result so far. *)
Fixpoint scanStops (markerY prevTop : R) (tops : list R) (i index : Z) : Z :=
  match tops with
  | [] => index
  | currTop :: rest =>
      let switchY := (prevTop + (currTop - prevTop) * 0.5)%R in
      if Js.geb markerY switchY then scanStops markerY currTop rest (i + 1) i
      else index
  end.

(** [resolveAnimIndexFromScroll()]; [scroll] holds [scrollTop],
    [scrollHeight] and [clientHeight] of the narrative when the page has
    one, [tops] the [offsetTop] of every stop. *)
Definition resolveAnimIndexFromScroll (scroll : option (R * R * R)) (tops : list R) : Z :=
  match scroll with
  | None => 0
  | Some (scrollTop, scrollHeight, clientHeight) =>
      if (Z.of_nat (List.length tops) =? 0) then 0
      else
        let maxScroll := Rmax (scrollHeight - clientHeight) 0 in
        if Js.leb maxScroll 0 then 0
        else if Js.leb scrollTop 1 then 0
        else if Js.geb scrollTop (maxScroll - 1) then Z.of_nat (List.length tops) - 1
        else
          let markerY := (scrollTop + clientHeight * 0.18)%R in
          match tops with
          | [] => 0
          | top0 :: rest => scanStops markerY top0 rest 1 0
          end
  end.

End Narrative.

(** * Examples of uniforms and pages *)

Module Examples3.
Local Open Scope R_scope.

(** Uniforms with the mode index of swirl, half way into the morph. *)
Definition swirlUniforms : Controller.CustomUniformRefs :=
  {| Controller.u_time := 1;
     Controller.u_mode := 2;
     Controller.u_morph := 0.5;
     Controller.u_colorGain := 1;
     Controller.u_strength := 0.675;
     Controller.u_radius := 1 |}.

(** Uniforms with mode index 0. *)
Definition restUniforms : Controller.CustomUniformRefs :=
  {| Controller.u_time := 1;
     Controller.u_mode := 0;
     Controller.u_morph := 0;
     Controller.u_colorGain := 1;
     Controller.u_strength := 0;
     Controller.u_radius := 1 |}.


(** The page on a desktop at the first frame, booted at clock reading 0
    with the marker layer and one note. *)
Definition desktopPage : Host.State :=
  Host.boot false false false true ["note"%string] 0 0.

(** The page on a phone. *)
Definition mobilePage : Host.State :=
  Host.boot true true true true ["note"%string] 0 0.

(** A narrative of three stops, none active yet, over a freshly loaded
    scene. *)
Definition narrative : Narrative.State :=
  {| Narrative.animStops := ["zwave"; "swirl"; "explode"]%string;
     Narrative.activeAnimIndex := -1;
     Narrative.mobileCycleModeIndex := 0;
     Narrative.viewer := Examples.afterLoad |}.

End Examples3.

(** * Theorems *)

Section NumberFacts.
Local Open Scope R_scope.

Lemma ltb_true (x y : R) : x < y -> Js.ltb x y = true.
Proof. intros H; unfold Js.ltb; destruct (Rlt_dec x y); [reflexivity | contradiction]. Qed.

Lemma ltb_false (x y : R) : y <= x -> Js.ltb x y = false.
Proof. intros H; unfold Js.ltb; destruct (Rlt_dec x y); [lra | reflexivity]. Qed.

Lemma leb_true (x y : R) : x <= y -> Js.leb x y = true.
Proof. intros H; unfold Js.leb; destruct (Rle_dec x y); [reflexivity | contradiction]. Qed.

Lemma leb_false (x y : R) : y < x -> Js.leb x y = false.
Proof. intros H; unfold Js.leb; destruct (Rle_dec x y); [lra | reflexivity]. Qed.

Lemma floor_unique (x : R) (z : Z) : IZR z <= x -> x < IZR z + 1 -> Int_part x = z.
Proof. intros H1 H2; symmetry; apply Int_part_spec; lra. Qed.

Lemma floor_bounds (x : R) : IZR (Int_part x) <= x < IZR (Int_part x) + 1.
Proof. destruct (base_Int_part x) as [H1 H2]; lra. Qed.


Lemma floor_nonneg (x : R) : 0 <= x -> (0 <= Int_part x)%Z.
Proof.
  intros Hx. destruct (floor_bounds x) as [_ H2].
  apply Z.lt_succ_r, lt_IZR. rewrite succ_IZR. lra.
Qed.

(** On a dividend that is not negative [%] is the remainder of the
    division rounding down. *)
Lemma rem_floor (a b : R) : 0 <= a -> 0 < b -> Js.rem a b = SpecMorph.modulo a b.
Proof.
  intros Ha Hb. unfold Js.rem, Js.trunc, SpecMorph.modulo.
  destruct (Rle_dec 0 (a / b)) as [_ | n]; [reflexivity |].
  exfalso; apply n. apply Rmult_le_pos; [lra |].
  left; apply Rinv_0_lt_compat; lra.
Qed.

Lemma modulo_range (a b : R) : 0 < b -> 0 <= SpecMorph.modulo a b < b.
Proof.
  intros Hb. unfold SpecMorph.modulo.
  destruct (floor_bounds (a / b)) as [H1 H2].
  assert (Ha : a = a / b * b) by (field; lra).
  split; nra.
Qed.


Lemma modulo_small (a b : R) : 0 <= a -> a < b -> SpecMorph.modulo a b = a.
Proof.
  intros Ha Hb. unfold SpecMorph.modulo.
  assert (Hq : Int_part (a / b) = 0%Z).
  { apply floor_unique.
    - apply Rmult_le_pos; [lra | left; apply Rinv_0_lt_compat; lra].
    - assert (a / b < 1); [| simpl; lra].
      apply Rmult_lt_reg_r with b; [lra |].
      replace (a / b * b) with a by (field; lra). lra. }
  rewrite Hq. simpl. ring.
Qed.

Lemma clamp01_id (x : R) : 0 <= x <= 1 -> Controller.clamp01 x = x.
Proof.
  intros [H0 H1]. unfold Controller.clamp01.
  rewrite (Rmin_right 1 x) by lra. apply Rmax_right; lra.
Qed.

Lemma clamp01_range (x : R) : 0 <= Controller.clamp01 x <= 1.
Proof.
  unfold Controller.clamp01. split.
  - apply Rmax_l.
  - apply Rmax_lub; [lra | apply Rmin_l].
Qed.

End NumberFacts.

Section MorphClockFacts.
Import ModeRegistry Controller.
Local Open Scope R_scope.

Lemma easeInOutCubic_range (x : R) : 0 <= easeInOutCubic x <= 1.
Proof.
  unfold easeInOutCubic, Js.pow3, Js.ltb.
  destruct (clamp01_range x) as [H0 H1].
  set (c := clamp01 x) in *.
  destruct (Rlt_dec c 0.5) as [Hc | Hc].
  - assert (0 <= c * c) by nra. assert (c * c <= 0.25) by nra. split; nra.
  - set (d := -2 * c + 2). assert (0 <= d <= 1) by (unfold d; lra).
    assert (0 <= d * d <= 1) by nra. split; nra.
Qed.

Lemma easeInOutCubic_spec (x : R) :
  0 <= x <= 1 -> easeInOutCubic x = SpecMorph.easeInOutCubic x.
Proof.
  intros Hx. unfold easeInOutCubic, SpecMorph.easeInOutCubic, Js.pow3.
  rewrite (clamp01_id x Hx). destruct (Js.ltb x 0.5); ring.
Qed.

Lemma phaseOf_spec (t : R) : 0 <= t -> phaseOf t = SpecMorph.phase t.
Proof.
  intros Ht. unfold phaseOf, SpecMorph.phase, morphLoopSeconds.
  rewrite rem_floor by lra. reflexivity.
Qed.

Lemma spec_phase_range (t : R) : 0 <= SpecMorph.phase t < 1.
Proof.
  unfold SpecMorph.phase.
  destruct (modulo_range t 3.2) as [H0 H1]; [lra |]. split; lra.
Qed.

Lemma spec_triangle_range (t : R) : 0 <= SpecMorph.triangle t <= 1.
Proof.
  unfold SpecMorph.triangle, SpecMorph.dispersing, Js.ltb.
  destruct (spec_phase_range t).
  destruct (Rlt_dec (SpecMorph.phase t) 0.5); lra.
Qed.

Lemma morphOf_spec (mode : ModeValue) (t : R) :
  isNone mode = false -> 0 <= t -> morphOf mode t = SpecMorph.morph t.
Proof.
  intros Hm Ht. unfold morphOf. rewrite Hm, (phaseOf_spec t Ht).
  unfold SpecMorph.morph.
  rewrite <- easeInOutCubic_spec by apply spec_triangle_range.
  reflexivity.
Qed.

Lemma dispersingOf_spec (mode : ModeValue) (t : R) :
  isNone mode = false -> 0 <= t -> dispersingOf mode t = SpecMorph.dispersing t.
Proof.
  intros Hm Ht. unfold dispersingOf. rewrite Hm, (phaseOf_spec t Ht). reflexivity.
Qed.

Lemma morphOf_range (mode : ModeValue) (t : R) : 0 <= morphOf mode t <= 1.
Proof.
  unfold morphOf. destruct (isNone mode); [lra | apply easeInOutCubic_range].
Qed.



Lemma spec_phase_small (t : R) : 0 <= t < 3.2 -> SpecMorph.phase t = t / 3.2.
Proof.
  intros [H0 H1]. unfold SpecMorph.phase. rewrite modulo_small by lra. reflexivity.
Qed.

Lemma spec_morph_0 : SpecMorph.morph 0 = 0.
Proof.
  unfold SpecMorph.morph, SpecMorph.triangle, SpecMorph.dispersing.
  rewrite spec_phase_small by lra.
  rewrite ltb_true by lra.
  unfold SpecMorph.easeInOutCubic. rewrite ltb_true by lra. lra.
Qed.


(** The uniforms a tick publishes. *)
Lemma tick_uniforms (nowMs : R) (s : State) (u : CustomUniformRefs) :
  customUniforms s = Some u ->
  exists u',
    customUniforms (updateAnimationUniforms nowMs s) = Some u' /\
    u_time u' = elapsedSecondsAt nowMs s /\
    u_mode u' = animationModeToInt (animationMode s) /\
    u_morph u' = morphOf (animationMode s) (elapsedSecondsAt nowMs s) /\
    u_strength u' =
      (if isNone (animationMode s) then 0
       else 0.35 + 0.65 * morphOf (animationMode s) (elapsedSecondsAt nowMs s)) /\
    u_radius u' = Rmax (sceneRadius s) 0.25.
Proof.
  intros Hu. unfold updateAnimationUniforms. rewrite Hu.
  eexists. split; [reflexivity |]. cbn [u_time u_mode u_morph u_strength u_radius].
  repeat split; reflexivity.
Qed.



End MorphClockFacts.

Section RenderModeGateFacts.
Import ModeRegistry Controller.
Local Open Scope R_scope.

(** [pointCloudEnabled] after a tick on a loaded scene, in a mode other
    than none. *)
Lemma tick_pointCloudEnabled (nowMs : R) (s : State) (u : CustomUniformRefs) (m : SplatMesh) :
  customUniforms s = Some u ->
  splatMesh s = Some m ->
  isNone (animationMode s) = false ->
  let morph := morphOf (animationMode s) (elapsedSecondsAt nowMs s) in
  let dispersing := dispersingOf (animationMode s) (elapsedSecondsAt nowMs s) in
  pointCloudEnabled (updateAnimationUniforms nowMs s) =
    if negb dispersing && Js.leb morph modelRevealStartMorph then false
    else if negb dispersing && Js.leb morph (pointCloudExitMorph + 0.03) then false
    else if dispersing && Js.geb morph pointCloudEnterMorph then true
    else if negb dispersing && Js.leb morph pointCloudExitMorph then false
    else pointCloudEnabled s.
Proof.
  intros Hu Hm Hmode morph dispersing.
  unfold updateAnimationUniforms. rewrite Hu, Hm. cbn [pointCloudEnabled].
  rewrite Hmode. cbn [negb andb]. reflexivity.
Qed.

(** C2. In a tick on a loaded scene, in a mode other than none: while
    dispersing, [morph >= 0.38] switches the point cloud on; while
    reassembling, [morph <= 0.02] switches it off; and while reassembling,
    [morph <= 0.34] (the reveal window) switches it off whatever the exit
    threshold. *)
Theorem render_mode_gate :
  forall (s : State) (nowMs : R) (u : CustomUniformRefs) (m : SplatMesh),
    customUniforms s = Some u ->
    splatMesh s = Some m ->
    isNone (animationMode s) = false ->
    let morph := morphOf (animationMode s) (elapsedSecondsAt nowMs s) in
    let dispersing := dispersingOf (animationMode s) (elapsedSecondsAt nowMs s) in
    let s' := updateAnimationUniforms nowMs s in
    (dispersing = true -> pointCloudEnterMorph <= morph -> pointCloudEnabled s' = true) /\
    (dispersing = false -> morph <= pointCloudExitMorph -> pointCloudEnabled s' = false) /\
    (dispersing = false -> morph <= modelRevealStartMorph -> pointCloudEnabled s' = false).
Proof.
  intros s nowMs u m Hu Hm Hmode morph dispersing s'.
  unfold s'. rewrite (tick_pointCloudEnabled nowMs s u m Hu Hm Hmode).
  fold morph dispersing.
  unfold pointCloudEnterMorph, pointCloudExitMorph, modelRevealStartMorph.
  split; [| split]; intros Hd Hmorph; rewrite Hd; cbn [negb andb].
  - unfold Js.geb. rewrite (leb_true 0.38 morph Hmorph). reflexivity.
  - rewrite leb_true by lra. reflexivity.
  - rewrite leb_true by lra. reflexivity.
Qed.

End RenderModeGateFacts.

Section TransitionBridgeFacts.
Import ModeRegistry Controller.
Local Open Scope R_scope.

Lemma dtAt_range (nowMs : R) (s : State) : 0 <= dtAt nowMs s <= 0.05.
Proof.
  unfold dtAt. split.
  - apply Rmin_glb; [apply Rmax_r | lra].
  - apply Rmin_r.
Qed.

(** One tick moves the applied gain by at most the rate limits allow. *)
Lemma tick_colorGain_step (nowMs : R) (s : State) :
  let dt := dtAt nowMs s in
  let s' := updateAnimationUniforms nowMs s in
  colorGainApplied s' - colorGainApplied s <= colorRisePerSecond * dt /\
  colorGainApplied s - colorGainApplied s' <= colorFallPerSecond * dt.
Proof.
  intros dt s'. pose proof (dtAt_range nowMs s) as Hdt. fold dt in Hdt.
  unfold s', updateAnimationUniforms.
  destruct (customUniforms s) as [u |].
  - cbn [colorGainApplied]. fold dt.
    unfold colorRisePerSecond, colorFallPerSecond in *.
    match goal with
    | |- context [Js.gtb ?step ?rise] => set (colorStep := step)
    end.
    unfold Js.gtb, Js.ltb.
    destruct (Rlt_dec (0.35 * dt) colorStep) as [Hr | Hr].
    + split; lra.
    + destruct (Rlt_dec colorStep (- (1.8 * dt))) as [Hf | Hf].
      * split; lra.
      * unfold colorStep in *. split; lra.
  - unfold colorRisePerSecond, colorFallPerSecond. split; lra.
Qed.

Lemma tick_lastUniformUpdateTimeMs (nowMs : R) (s : State) (u : CustomUniformRefs) :
  customUniforms s = Some u ->
  lastUniformUpdateTimeMs (updateAnimationUniforms nowMs s) = nowMs.
Proof. intros Hu. unfold updateAnimationUniforms. rewrite Hu. reflexivity. Qed.

(** C3. Between two consecutive ticks, at clock readings [now1] and [now2],
    with [dt] the time between them clamped to [0, 0.05] seconds, the
    applied colour gain rises by at most [0.35 * dt] and falls by at most
    [1.8 * dt]. *)
Theorem color_gain_rate_limited :
  forall (s : State) (now1 now2 : R),
    let s1 := updateAnimationUniforms now1 s in
    let s2 := updateAnimationUniforms now2 s1 in
    let dt := Rmin (Rmax ((now2 - now1) / 1000) 0) 0.05 in
    0 <= dt <= 0.05 /\
    colorGainApplied s2 - colorGainApplied s1 <= 0.35 * dt /\
    colorGainApplied s1 - colorGainApplied s2 <= 1.8 * dt.
Proof.
  intros s now1 now2 s1 s2 dt.
  assert (Hdt : 0 <= dt <= 0.05).
  { unfold dt. split; [apply Rmin_glb; [apply Rmax_r | lra] | apply Rmin_r]. }
  split; [exact Hdt |].
  destruct (customUniforms s) as [u |] eqn:Hu.
  - pose proof (tick_colorGain_step now2 s1) as Hstep. cbv zeta in Hstep.
    fold s2 in Hstep.
    assert (Hd : dtAt now2 s1 = dt).
    { unfold dtAt, s1. rewrite (tick_lastUniformUpdateTimeMs now1 s u Hu). reflexivity. }
    rewrite Hd in Hstep. exact Hstep.
  - assert (H1 : s1 = s) by (unfold s1, updateAnimationUniforms; rewrite Hu; reflexivity).
    assert (H2 : s2 = s) by (unfold s2; rewrite H1; unfold updateAnimationUniforms; rewrite Hu; reflexivity).
    rewrite H1, H2. split; lra.
Qed.

End TransitionBridgeFacts.

Section BridgeInvariant.
Import ModeRegistry Controller.
Local Open Scope R_scope.

(** A tick that arms the bridges is inside the reveal window (or in mode
    none) and disarms them again before it ends. *)
Lemma tick_bridgesIdle (nowMs : R) (s : State) :
  bridgesIdle s -> bridgesIdle (updateAnimationUniforms nowMs s).
Proof.
  intros [Hl Hs]. unfold bridgesIdle, updateAnimationUniforms.
  destruct (customUniforms s) as [u |]; [| split; assumption].
  cbn [luminanceBridgeActive scaleBridgeActive]. rewrite Hl, Hs.
  set (morph := morphOf (animationMode s) (elapsedSecondsAt nowMs s)).
  set (dispersing := dispersingOf (animationMode s) (elapsedSecondsAt nowMs s)).
  unfold pointCloudExitMorph, modelRevealStartMorph, pointCloudEnterMorph.
  destruct (isNone (animationMode s)); [split; reflexivity |].
  destruct dispersing; cbn [negb andb];
    destruct (splatMesh s) as [m |]; cbn [negb andb];
    destruct (pointCloudEnabled s); cbn [negb andb];
    unfold Js.geb, Js.leb;
    destruct (Rle_dec morph 0.34); cbn [negb andb];
    try (split; reflexivity);
    destruct (Rle_dec morph (0.02 + 0.03)); try lra; cbn [negb andb];
    destruct (Rle_dec morph 0.02); try lra; cbn [negb andb];
    try (split; reflexivity);
    destruct (Rle_dec 0.38 morph); cbn [negb andb]; split; reflexivity.
Qed.

Lemma applyAnimationStyle_bridgesIdle (reset : bool) (s : State) :
  bridgesIdle s -> bridgesIdle (applyAnimationStyle reset s).
Proof.
  intros H. unfold applyAnimationStyle.
  destruct (splatMesh s); [| exact H].
  destruct (isNone (animationMode s) || reset); exact H.
Qed.

Lemma setAnimationFields_bridgesIdle (mode : string) (now0 now1 : R) (s : State) :
  bridgesIdle s -> bridgesIdle (setAnimationFields mode now0 now1 s).
Proof.
  intros [Hl Hs]. unfold bridgesIdle, setAnimationFields.
  cbn [luminanceBridgeActive scaleBridgeActive]. rewrite Hl, Hs.
  destruct (isNone (resolve mode)); split; reflexivity.
Qed.

Lemma reachable_bridgesIdle (s : State) : reachable s -> bridgesIdle s.
Proof.
  induction 1 as [mobile now0 now1 | s mode now0 now1 now2 _ IH | s nowMs _ IH
                 | s _ IH Hd | s scene now0 now1 now2 _ IH Hd | s _ IH].
  - split; reflexivity.
  - unfold setAnimation.
    apply tick_bridgesIdle, applyAnimationStyle_bridgesIdle,
      setAnimationFields_bridgesIdle, IH.
  - unfold update. destruct (disposed s); [exact IH | apply tick_bridgesIdle, IH].
  - exact IH.
  - unfold loadComplete. destruct (ls_material scene).
    + apply tick_bridgesIdle, applyAnimationStyle_bridgesIdle. split; reflexivity.
    + exact IH.
    + apply tick_bridgesIdle, applyAnimationStyle_bridgesIdle. split; reflexivity.
  - unfold dispose. destruct (disposed s); exact IH.
Qed.


Lemma applyAnimationStyle_animationStartTime (reset : bool) (s : State) :
  animationStartTime (applyAnimationStyle reset s) = animationStartTime s.
Proof.
  unfold applyAnimationStyle. destruct (splatMesh s); [| reflexivity].
  destruct (isNone (animationMode s) || reset); reflexivity.
Qed.

End BridgeInvariant.

Section KernelFacts.
Import ModeRegistry Controller.
Local Open Scope R_scope.

Lemma vec3_eq (a b : Kernel.vec3) :
  Kernel.vx a = Kernel.vx b -> Kernel.vy a = Kernel.vy b -> Kernel.vz a = Kernel.vz b ->
  a = b.
Proof. destruct a, b; cbn; intros; subst; reflexivity. Qed.

Lemma dot_self_nonneg (a : Kernel.vec3) : 0 <= Kernel.dot a a.
Proof. unfold Kernel.dot. nra. Qed.

Lemma length_scale (k : R) (a : Kernel.vec3) :
  0 <= k -> Kernel.length (Kernel.vscale k a) = k * Kernel.length a.
Proof.
  intros Hk. unfold Kernel.length.
  replace (Kernel.dot (Kernel.vscale k a) (Kernel.vscale k a))
    with ((k * k) * Kernel.dot a a) by (unfold Kernel.dot, Kernel.vscale; cbn; ring).
  rewrite sqrt_mult by (try apply dot_self_nonneg; nra).
  rewrite sqrt_square by exact Hk. reflexivity.
Qed.

Lemma length_nonneg (a : Kernel.vec3) : 0 <= Kernel.length a.
Proof. apply sqrt_pos. Qed.

Lemma length_normalize (a : Kernel.vec3) :
  Kernel.length a <> 0 -> Kernel.length (Kernel.normalize a) = 1.
Proof.
  intros Ha. unfold Kernel.normalize.
  assert (Hpos : 0 < Kernel.length a) by (pose proof (length_nonneg a); lra).
  rewrite length_scale by (left; apply Rinv_0_lt_compat; exact Hpos).
  field. exact Ha.
Qed.

Lemma clamp_id (x : R) : 0 <= x <= 1 -> Kernel.clamp x 0 1 = x.
Proof.
  intros [H0 H1]. unfold Kernel.clamp.
  rewrite Rmax_left by lra. apply Rmin_left; lra.
Qed.

Lemma clamp_range (x : R) : 0 <= Kernel.clamp x 0 1 <= 1.
Proof.
  unfold Kernel.clamp. split.
  - apply Rmin_glb; [apply Rmax_r | lra].
  - apply Rmin_r.
Qed.

Lemma gl_smoothstep_nonneg (e0 e1 x : R) : 0 <= Kernel.gl_smoothstep e0 e1 x.
Proof.
  unfold Kernel.gl_smoothstep.
  destruct (clamp_range ((x - e0) / (e1 - e0))) as [H0 H1].
  set (t := Kernel.clamp _ 0 1) in *. assert (0 <= t * t) by nra. nra.
Qed.

(** The explode branch adds [explodeDir * burst * strength * 0.28 * radius]. *)
Lemma modeTerm_explode (u : CustomUniformRefs) (sceneCenter baseCenter : Kernel.vec3)
    (splatIndex : nat) :
  u_mode u = 5%Z ->
  Kernel.modeTerm u sceneCenter splatIndex baseCenter =
    Kernel.vscale
      (Kernel.burstOf (Kernel.phaseIn u splatIndex) * Kernel.strengthIn u * 0.28 * u_radius u)
      (Kernel.explodeDir (Kernel.vsub baseCenter sceneCenter)).
Proof.
  intros Hm. unfold Kernel.modeTerm, Kernel.animatedCenter. rewrite Hm.
  cbn [Z.eqb Pos.eqb].
  apply vec3_eq; unfold Kernel.vsub, Kernel.vadd, Kernel.vscale; cbn; ring.
Qed.

Lemma burst_at_peak (phase : R) : sin (phase * 0.8) = 1 -> Kernel.burstOf phase = 1.
Proof.
  intros H. unfold Kernel.burstOf. rewrite H, Rmax_left by lra.
  unfold Rsqr. ring.
Qed.

(** C4, as the code has it. In mode explode with [sceneRadius = 1], at a
    tick where [sin(phase * 0.8) = 1] for an element, [burst] is 1,
    [strength] is [(0.35 + 0.65 * morph) * morph * smoothstep(0.12, 0.35, morph)],
    and the explode branch moves the element by [burst * strength * 0.28]
    along [normalize(fromCenter + (0.0001, 0.0001, 0.0001))]; the length of
    that move is exactly [strength * 0.28] unless the shifted vector is
    zero. *)
Theorem explode_term_at_burst_peak :
  forall (s : State) (nowMs : R) (u0 u : CustomUniformRefs)
         (sceneCenter baseCenter : Kernel.vec3) (splatIndex : nat),
    customUniforms s = Some u0 ->
    animationMode s = Canon explode ->
    sceneRadius s = 1 ->
    customUniforms (updateAnimationUniforms nowMs s) = Some u ->
    sin (Kernel.phaseIn u splatIndex * 0.8) = 1 ->
    let morph := morphOf (Canon explode) (elapsedSecondsAt nowMs s) in
    let strength := (0.35 + 0.65 * morph) * morph * Kernel.gl_smoothstep 0.12 0.35 morph in
    let fromCenter := Kernel.vsub baseCenter sceneCenter in
    let shifted := Kernel.vadd fromCenter (Kernel.splat 0.0001) in
    let term := Kernel.modeTerm u sceneCenter splatIndex baseCenter in
    Kernel.burstOf (Kernel.phaseIn u splatIndex) = 1 /\
    Kernel.strengthIn u = strength /\
    term = Kernel.vscale (1 * strength * 0.28) (Kernel.normalize shifted) /\
    (Kernel.length shifted <> 0 -> Kernel.length term = strength * 0.28).
Proof.
  intros s nowMs u0 u sceneCenter baseCenter splatIndex Hu0 Hmode Hrad Hu Hsin
         morph strength fromCenter shifted term.
  destruct (tick_uniforms nowMs s u0 Hu0) as (u' & Hu' & _ & Hm & Hmo & Hst & Hr).
  rewrite Hu in Hu'. injection Hu' as <-.
  rewrite Hmode in Hm, Hmo, Hst. cbn in Hm, Hst. fold morph in Hmo, Hst.
  rewrite Hrad in Hr. rewrite Rmax_left in Hr by lra.
  pose proof (morphOf_range (Canon explode) (elapsedSecondsAt nowMs s)) as Hrange.
  fold morph in Hrange.
  assert (Hburst : Kernel.burstOf (Kernel.phaseIn u splatIndex) = 1)
    by (apply burst_at_peak; exact Hsin).
  assert (Hstrength : Kernel.strengthIn u = strength).
  { unfold Kernel.strengthIn, Kernel.morphIn. rewrite Hmo, Hst, clamp_id by exact Hrange.
    reflexivity. }
  assert (Hterm : term = Kernel.vscale (1 * strength * 0.28) (Kernel.normalize shifted)).
  { unfold term. rewrite modeTerm_explode by exact Hm.
    rewrite Hburst, Hstrength, Hr. unfold Kernel.explodeDir.
    fold fromCenter. fold (Kernel.splat 0.0001). fold shifted.
    f_equal. ring. }
  split; [exact Hburst |]. split; [exact Hstrength |]. split; [exact Hterm |].
  intros Hnz. rewrite Hterm.
  assert (Hs0 : 0 <= strength).
  { unfold strength. pose proof (gl_smoothstep_nonneg 0.12 0.35 morph).
    apply Rmult_le_pos; [apply Rmult_le_pos |]; lra. }
  rewrite length_scale by lra.
  rewrite length_normalize by exact Hnz. ring.
Qed.

End KernelFacts.

Section KernelExample.
Import ModeRegistry Controller.
Local Open Scope R_scope.

Lemma PI_bounds : 3 < PI <= 4.
Proof. pose proof PI2_3_2. pose proof PI_4. split; lra. Qed.

Lemma seedOf_0 : Kernel.seedOf 0 = 0.
Proof.
  unfold Kernel.seedOf, Kernel.fract. cbn [INR].
  rewrite Rmult_0_l, sin_0, Rmult_0_l.
  rewrite (floor_unique 0 0%Z) by (simpl; lra). simpl. ring.
Qed.

Lemma elapsed_at_burst_peak :
  elapsedSecondsAt Examples.burstPeakMs (Examples.loaded (Canon explode)) = PI / 1.92.
Proof. unfold elapsedSecondsAt, Examples.burstPeakMs. cbn [animationStartTime Examples.loaded]. lra. Qed.

Lemma morph_at_burst_peak : 0.35 <= morphOf (Canon explode) (PI / 1.92).
Proof.
  destruct PI_bounds as [Hlo Hhi].
  assert (Ht : 0 <= PI / 1.92 < 3.2) by (split; lra).
  rewrite morphOf_spec by (reflexivity || lra).
  unfold SpecMorph.morph, SpecMorph.triangle, SpecMorph.dispersing.
  rewrite spec_phase_small by exact Ht.
  set (p := PI / 1.92 / 3.2).
  assert (Hp : 0.488 < p <= 0.652) by (unfold p; split; lra).
  unfold SpecMorph.easeInOutCubic, Js.ltb.
  destruct (Rlt_dec p 0.5) as [Hd | Hd].
  - destruct (Rlt_dec (p * 2) 0.5); [lra |].
    set (d := -2 * (p * 2) + 2). assert (Hdr : 0 <= d <= 0.05) by (unfold d; lra).
    assert (0 <= d * d <= 0.01) by nra. nra.
  - destruct (Rlt_dec ((1 - p) * 2) 0.5); [lra |].
    set (d := -2 * ((1 - p) * 2) + 2). assert (Hdr : 0 <= d <= 0.7) by (unfold d; lra).
    assert (0 <= d * d <= 0.49) by nra. nra.
Qed.

Lemma gl_smoothstep_saturated (x : R) : 0.35 <= x -> Kernel.gl_smoothstep 0.12 0.35 x = 1.
Proof.
  intros Hx. unfold Kernel.gl_smoothstep, Kernel.clamp.
  assert (Hq : 1 <= (x - 0.12) / (0.35 - 0.12)).
  { replace (0.35 - 0.12) with 0.23 by lra. lra. }
  rewrite Rmax_left by lra. rewrite Rmin_right by lra. ring.
Qed.

(** The uniforms of the tick at the burst peak. *)
Lemma uniforms_at_burst_peak :
  exists u,
    customUniforms (updateAnimationUniforms Examples.burstPeakMs
                      (Examples.loaded (Canon explode))) = Some u /\
    sin (Kernel.phaseIn u 0 * 0.8) = 1 /\
    Kernel.burstOf (Kernel.phaseIn u 0) = 1 /\
    0 < Kernel.strengthIn u /\
    u_mode u = 5%Z /\ u_radius u = 1.
Proof.
  destruct (tick_uniforms Examples.burstPeakMs (Examples.loaded (Canon explode))
              freshUniforms eq_refl) as (u & Hu & Ht & Hm & Hmo & Hst & Hr).
  rewrite elapsed_at_burst_peak in Ht, Hmo, Hst.
  cbn [Examples.loaded animationMode sceneRadius isNone animationModeToInt] in Hm, Hmo, Hst, Hr.
  rewrite Rmax_left in Hr by lra.
  pose proof morph_at_burst_peak as Hmorph.
  pose proof (morphOf_range (Canon explode) (PI / 1.92)) as Hrange.
  assert (Hsin : sin (Kernel.phaseIn u 0 * 0.8) = 1).
  { unfold Kernel.phaseIn. rewrite Ht, seedOf_0.
    replace ((PI / 1.92 * 1.2 + 0 * 6.2831853) * 0.8) with (PI / 2) by lra.
    apply sin_PI2. }
  exists u. split; [exact Hu |]. split; [exact Hsin |].
  split; [apply burst_at_peak; exact Hsin |].
  split; [| split; assumption].
  unfold Kernel.strengthIn, Kernel.morphIn. rewrite Hmo, Hst.
  rewrite clamp_id by exact Hrange.
  rewrite gl_smoothstep_saturated by exact Hmorph.
  set (m := morphOf (Canon explode) (PI / 1.92)) in *. nra.
Qed.

(** C4, as the specification words it, fails: for an element at
    [(1, 0, 0)] from the scene centre the explode branch moves the element
    off the x axis, whereas [normalize(fromCenter)] lies on it. *)
Lemma explode_direction_counterexample :
  exists u,
    customUniforms (updateAnimationUniforms Examples.burstPeakMs
                      (Examples.loaded (Canon explode))) = Some u /\
    sin (Kernel.phaseIn u 0 * 0.8) = 1 /\
    Kernel.modeTerm u Examples.origin 0 Examples.unitX <>
      Kernel.vscale (Kernel.burstOf (Kernel.phaseIn u 0) * Kernel.strengthIn u * 0.28)
        (Kernel.normalize (Kernel.vsub Examples.unitX Examples.origin)).
Proof.
  destruct uniforms_at_burst_peak as (u & Hu & Hsin & Hburst & Hstr & Hm & Hr).
  exists u. split; [exact Hu |]. split; [exact Hsin |].
  intros Heq. apply (f_equal Kernel.vy) in Heq.
  rewrite modeTerm_explode in Heq by exact Hm.
  rewrite Hburst, Hr in Heq.
  unfold Kernel.explodeDir, Kernel.normalize, Kernel.vscale, Kernel.vsub, Kernel.vadd in Heq.
  cbn [Kernel.vx Kernel.vy Kernel.vz Examples.unitX Examples.origin] in Heq.
  match type of Heq with
  | context [/ Kernel.length ?v] =>
      assert (Hlen : 0 < / Kernel.length v);
      [ apply Rinv_0_lt_compat, sqrt_lt_R0; unfold Kernel.dot; cbn; lra
      | set (k := / Kernel.length v) in * ]
  end.
  set (st := Kernel.strengthIn u) in *.
  assert (0 < 0.0001 * k * st) by (apply Rmult_lt_0_compat; nra).
  nra.
Qed.

End KernelExample.

Section ProbeFacts.
Import Probe Markers.
Local Open Scope R_scope.

(** [readRenderAlpha] catches whatever [readPixels] throws. *)
Lemma readRenderAlpha_returns (gl : GLContext) (x y : R) :
  exists a : Z, readRenderAlpha gl x y = Returned a.
Proof.
  unfold readRenderAlpha.
  destruct ((drawingBufferWidth gl <? 2)%Z || (drawingBufferHeight gl <? 2)%Z);
    [eexists; reflexivity |].
  destruct (callReadPixels gl _ _); cbn; eexists; reflexivity.
Qed.

Lemma readRenderAlpha_thrown (gl : GLContext) (x y : R) :
  (forall px py : Z, readPixels gl px py = Thrown) ->
  readRenderAlpha gl x y = Returned 0%Z.
Proof.
  intros Hthrow. unfold readRenderAlpha, callReadPixels.
  destruct ((drawingBufferWidth gl <? 2)%Z || (drawingBufferHeight gl <? 2)%Z);
    [reflexivity |].
  destruct (readPixelsIsFunction gl); [rewrite Hthrow |]; reflexivity.
Qed.

Lemma anySampleCovered_returns (gl : GLContext) (baseX baseY : R) (offsets : list (R * R)) :
  exists c : bool, anySampleCovered gl baseX baseY offsets = Returned c.
Proof.
  induction offsets as [| [dx dy] rest IH]; cbn [anySampleCovered].
  - eexists; reflexivity.
  - destruct (readRenderAlpha_returns gl (baseX + dx) (baseY + dy)) as [a ->].
    cbn [bind]. destruct (14 <? a)%Z; [eexists; reflexivity | exact IH].
Qed.

Lemma anySampleCovered_thrown (gl : GLContext) (baseX baseY : R) (offsets : list (R * R)) :
  (forall px py : Z, readPixels gl px py = Thrown) ->
  anySampleCovered gl baseX baseY offsets = Returned false.
Proof.
  intros Hthrow. induction offsets as [| [dx dy] rest IH]; cbn [anySampleCovered].
  - reflexivity.
  - rewrite (readRenderAlpha_thrown gl _ _ Hthrow). cbn [bind]. exact IH.
Qed.

(** The probe never lets an exception out. *)
Lemma isModelPixelCovered_returns (ctx : option GLContext) (perf : PerfLevel)
    (mobile : bool) (w h x y r : R) :
  exists c : bool, isModelPixelCovered ctx perf mobile w h x y r = Returned c.
Proof.
  unfold isModelPixelCovered. destruct ctx as [gl |]; [| eexists; reflexivity].
  destruct (negb (readPixelsIsFunction gl)); [eexists; reflexivity |].
  destruct ((drawingBufferWidth gl <? 2)%Z || (drawingBufferHeight gl <? 2)%Z);
    [eexists; reflexivity |].
  apply anySampleCovered_returns.
Qed.

Lemma isModelPixelCovered_fails_open (ctx : option GLContext) (perf : PerfLevel)
    (mobile : bool) (w h x y r : R) :
  readbackFails ctx ->
  isModelPixelCovered ctx perf mobile w h x y r = Returned false.
Proof.
  unfold readbackFails, isModelPixelCovered. destruct ctx as [gl |]; [| reflexivity].
  intros [Hno | [Hsmall | Hthrow]].
  - rewrite Hno. reflexivity.
  - destruct (negb (readPixelsIsFunction gl)); [reflexivity |].
    assert (Hb : ((drawingBufferWidth gl <? 2) || (drawingBufferHeight gl <? 2))%Z = true).
    { apply orb_true_iff. destruct Hsmall as [H | H]; [left | right]; apply Z.ltb_lt, H. }
    rewrite Hb. reflexivity.
  - destruct (negb (readPixelsIsFunction gl)); [reflexivity |].
    destruct ((drawingBufferWidth gl <? 2)%Z || (drawingBufferHeight gl <? 2)%Z);
      [reflexivity |].
    apply anySampleCovered_thrown, Hthrow.
Qed.

Lemma probeIfDue_returns (f : Frame) (s : State) (px py : R) (b : FloatingBubbleEntry) :
  exists b', probeIfDue f s px py b = Returned b'.
Proof.
  unfold probeIfDue.
  destruct (Js.geb (nowMs f - lastOverlapCheckMs b) (activeOverlapCheckInterval s));
    [| eexists; reflexivity].
  destruct (isModelPixelCovered_returns (context f) (performanceLevel s) (isMobileLike s)
              (canvasClientWidth f) (canvasClientHeight f) px py
              (getActiveNoOverlapSampleRadiusPx (performanceLevel s) (isMobileLike s)))
    as [c ->].
  cbn [bind]. eexists; reflexivity.
Qed.

Lemma advanceBubble_returns (f : Frame) (s : State) (id : nat) (b : FloatingBubbleEntry) :
  exists b', advanceBubble f s id b = Returned b'.
Proof.
  unfold advanceBubble. cbv zeta.
  match goal with |- context [if ?c then Returned _ else _] => destruct c end;
    [eexists; reflexivity |].
  match goal with |- context [probeIfDue ?f ?s ?x ?y ?b0] =>
    destruct (probeIfDue_returns f s x y b0) as [b3 ->] end.
  cbn [bind].
  match goal with |- context [if ?c then Returned _ else _] => destruct c end;
    eexists; reflexivity.
Qed.

Lemma stepBubble_returns (f : Frame) (i : nat) (s : State) :
  exists s', stepBubble f i s = Returned s'.
Proof.
  unfold stepBubble.
  destruct (floatingBubbles s !! i) as [id |]; [| eexists; reflexivity].
  destruct (heap s !! id) as [b |]; [| eexists; reflexivity].
  match goal with |- context [if ?c then Returned _ else _] => destruct c end;
    [eexists; reflexivity |].
  destruct (advanceBubble_returns f s id b) as [b' ->]. cbn [bind]. eexists; reflexivity.
Qed.

Lemma bubbleLoop_returns (f : Frame) (n : nat) (s : State) :
  exists s', bubbleLoop f n s = Returned s'.
Proof.
  revert s. induction n as [| i IH]; intros s; cbn [bubbleLoop].
  - eexists; reflexivity.
  - destruct (stepBubble_returns f i s) as [s1 ->]. cbn [bind]. apply IH.
Qed.

(** A tick of the markers never throws, whatever the read-back does. *)
Lemma updateFloatingBubbles_returns (f : Frame) (s : State) :
  exists s', updateFloatingBubbles f s = Returned s'.
Proof.
  unfold updateFloatingBubbles.
  destruct (negb (bubbleLayer s) || negb (bubblesEnabledForModel s));
    [eexists; reflexivity |].
  match goal with |- context [if ?c then Returned s else _] => destruct c end;
    [eexists; reflexivity |].
  cbv zeta.
  match goal with |- context [if ?c then Returned _ else _] => destruct c end;
    [eexists; reflexivity | apply bubbleLoop_returns].
Qed.

(** C7. When the read-back is unavailable or throws, the occlusion test
    returns "not covered" and does not throw, for every marker position and
    sample radius; a marker whose probe is due in such a frame comes out
    with [overModel = false]; and the tick of the markers returns to its
    caller without an exception. *)
Theorem occlusion_probe_fails_open :
  forall (ctx : option GLContext),
    readbackFails ctx ->
    (forall (perf : PerfLevel) (mobile : bool) (w h x y r : R),
        isModelPixelCovered ctx perf mobile w h x y r = Returned false) /\
    (forall (f : Frame) (s : State) (px py : R) (b : FloatingBubbleEntry),
        context f = ctx ->
        activeOverlapCheckInterval s <= nowMs f - lastOverlapCheckMs b ->
        probeIfDue f s px py b = Returned (probed (nowMs f) false b) /\
        overModel (probed (nowMs f) false b) = false) /\
    (forall (f : Frame) (s : State),
        context f = ctx ->
        exists s', updateFloatingBubbles f s = Returned s').
Proof.
  intros ctx Hfail. split; [| split].
  - intros. apply isModelPixelCovered_fails_open, Hfail.
  - intros f s px py b Hctx Hdue. split; [| reflexivity].
    unfold probeIfDue, Js.geb. rewrite (leb_true _ _ Hdue), Hctx.
    rewrite (isModelPixelCovered_fails_open ctx _ _ _ _ _ _ _ Hfail). reflexivity.
  - intros f s _. apply updateFloatingBubbles_returns.
Qed.

End ProbeFacts.

Section ThrottleFacts.
Import Probe Markers.
Local Open Scope R_scope.

Lemma probed_fields (nowMs : R) (c : bool) (b : FloatingBubbleEntry) :
  overModel (probed nowMs c b) = c /\ lastOverlapCheckMs (probed nowMs c b) = nowMs.
Proof. split; reflexivity. Qed.

Lemma closeIfDue_overModel (nowMs : R) (isActive : bool) (b : FloatingBubbleEntry) :
  overModel (closeIfDue nowMs isActive b) = overModel b.
Proof. unfold closeIfDue. destruct (negb isActive && passed nowMs _); reflexivity. Qed.

Lemma closeIfDue_lastOverlapCheckMs (nowMs : R) (isActive : bool) (b : FloatingBubbleEntry) :
  lastOverlapCheckMs (closeIfDue nowMs isActive b) = lastOverlapCheckMs b.
Proof. unfold closeIfDue. destruct (negb isActive && passed nowMs _); reflexivity. Qed.

(** A marker whose probe is not due leaves [advanceBubble] with the
    cached result. *)
Lemma advanceBubble_cached (f : Frame) (s : State) (id : nat) (b b' : FloatingBubbleEntry) :
  nowMs f - lastOverlapCheckMs b < activeOverlapCheckInterval s ->
  advanceBubble f s id b = Returned b' ->
  overModel b' = overModel b /\ lastOverlapCheckMs b' = lastOverlapCheckMs b.
Proof.
  intros Hearly. unfold advanceBubble. cbv zeta.
  match goal with |- context [if ?c then Returned _ else _] => destruct c end.
  - intros [= <-]. rewrite closeIfDue_overModel, closeIfDue_lastOverlapCheckMs. split; reflexivity.
  - unfold probeIfDue. cbn [lastOverlapCheckMs placed].
    unfold Js.geb. rewrite (leb_false _ _ Hearly). cbn [bind].
    match goal with |- context [if ?c then Returned _ else _] => destruct c end.
    + intros [= <-]. split; reflexivity.
    + intros [= <-]. rewrite closeIfDue_overModel, closeIfDue_lastOverlapCheckMs. split; reflexivity.
Qed.

(** C10, as the code has it. A marker is probed again only when the
    throttle interval has passed since [lastOverlapCheckMs]; the interval is
    36 ms on desktop and 120 ms on mobile, multiplied by 1.9 in the
    low-performance tier. Before that the probe is skipped and the cached
    [overModel] is kept; from then on the marker takes the result of a fresh
    probe. *)
Theorem occlusion_probe_throttle :
  forall (s : State) (f : Frame) (b : FloatingBubbleEntry),
    let base := if isMobileLike s then 120 else 36 in
    let interval := match performanceLevel s with low => base * 1.9 | high => base end in
    let elapsed := nowMs f - lastOverlapCheckMs b in
    activeOverlapCheckInterval s = interval /\
    (forall px py, elapsed < interval -> probeIfDue f s px py b = Returned b) /\
    (forall id b', elapsed < interval -> advanceBubble f s id b = Returned b' ->
        overModel b' = overModel b /\ lastOverlapCheckMs b' = lastOverlapCheckMs b) /\
    (forall px py, interval <= elapsed ->
        exists covered,
          isModelPixelCovered (context f) (performanceLevel s) (isMobileLike s)
            (canvasClientWidth f) (canvasClientHeight f) px py
            (getActiveNoOverlapSampleRadiusPx (performanceLevel s) (isMobileLike s))
          = Returned covered /\
          probeIfDue f s px py b = Returned (probed (nowMs f) covered b)).
Proof.
  intros s f b base interval elapsed.
  assert (Hint : activeOverlapCheckInterval s = interval) by reflexivity.
  split; [exact Hint |]. split; [| split].
  - intros px py Hearly. unfold probeIfDue, Js.geb.
    rewrite Hint. fold elapsed. rewrite (leb_false _ _ Hearly). reflexivity.
  - intros id b' Hearly. apply advanceBubble_cached. rewrite Hint. exact Hearly.
  - intros px py Hdue.
    destruct (isModelPixelCovered_returns (context f) (performanceLevel s) (isMobileLike s)
                (canvasClientWidth f) (canvasClientHeight f) px py
                (getActiveNoOverlapSampleRadiusPx (performanceLevel s) (isMobileLike s)))
      as [c Hc].
    exists c. split; [exact Hc |].
    unfold probeIfDue, Js.geb. rewrite Hint. fold elapsed.
    rewrite (leb_true _ _ Hdue), Hc. reflexivity.
Qed.

Lemma readRenderAlpha_opaque (x y : R) :
  readRenderAlpha Examples.opaqueContext x y = Returned 255%Z.
Proof. reflexivity. Qed.

(** C10, as the specification words it, fails: on a desktop in the
    low-performance tier a marker last probed at 1000 is probed again at
    1070, before twice 36 ms have passed. *)
Lemma throttle_not_doubled_counterexample :
  probeIfDue (Examples.frame 1070 (Some Examples.opaqueContext)) Examples.lowDesktop 400 300
    Examples.marker
  = Returned (probed 1070 true Examples.marker) /\
  overModel Examples.marker = false /\
  1070 - lastOverlapCheckMs Examples.marker < 2 * bubbleOverlapCheckIntervalDesktopMs.
Proof.
  split; [| split].
  - unfold probeIfDue, Js.geb.
    rewrite leb_true.
    + unfold isModelPixelCovered.
      cbn [context Examples.frame performanceLevel isMobileLike Examples.lowDesktop
           sampleOffsets anySampleCovered].
      cbn [negb readPixelsIsFunction Examples.opaqueContext].
      rewrite readRenderAlpha_opaque. reflexivity.
    + unfold activeOverlapCheckInterval, bubbleOverlapCheckIntervalDesktopMs.
      cbn [isMobileLike performanceLevel Examples.lowDesktop nowMs Examples.frame
           lastOverlapCheckMs Examples.marker]. lra.
  - reflexivity.
  - unfold bubbleOverlapCheckIntervalDesktopMs.
    cbn [lastOverlapCheckMs Examples.marker]. lra.
Qed.

End ThrottleFacts.

Section CapacityFacts.
Import Probe Markers.

Lemma notLonger_refl (s : State) : notLonger s s.
Proof. repeat split; lia. Qed.

Lemma notLonger_trans (s1 s2 s3 : State) :
  notLonger s1 s2 -> notLonger s2 s3 -> notLonger s1 s3.
Proof.
  intros (Hm1 & Hp1 & Hl1) (Hm2 & Hp2 & Hl2).
  repeat split; [congruence | congruence | lia].
Qed.

Lemma notLonger_capacity (s s' : State) :
  notLonger s s' -> withinCapacity s -> withinCapacity s'.
Proof.
  intros (Hm & Hp & Hl). unfold withinCapacity, getActiveMaxFloatingBubbles.
  rewrite Hm, Hp. lia.
Qed.

Lemma spawnDustBurst_notLonger (x y : R) (s : State) : notLonger s (spawnDustBurst x y s).
Proof.
  unfold spawnDustBurst. destruct (bubbleLayer s); [| apply notLonger_refl].
  repeat split; cbn; lia.
Qed.

Lemma dissipateBubble_notLonger (now : R) (id : nat) (s : State) :
  notLonger s (dissipateBubble now id s).
Proof.
  unfold dissipateBubble. destruct (heap s !! id) as [b |]; [| apply notLonger_refl].
  destruct (spawnDustBurst_notLonger (screenX b) (screenY b) s) as (Hm & Hp & Hl).
  match goal with |- context [bool_decide ?P] => destruct (bool_decide P) end;
    repeat split; cbn; assumption.
Qed.

Lemma scheduleNextBubble_notLonger (now roll : R) (s : State) :
  notLonger s (scheduleNextBubble now roll s).
Proof. repeat split; cbn; lia. Qed.

Lemma dismissActiveTextBubble_notLonger (now0 now1 roll : R) (s : State) :
  notLonger s (dismissActiveTextBubble now0 now1 roll s).
Proof.
  unfold dismissActiveTextBubble.
  destruct (activeTextBubble s) as [a |]; [| apply notLonger_refl].
  pose proof (dissipateBubble_notLonger now0 a s) as H.
  match goal with |- context [if ?c then _ else _] => destruct c end; exact H.
Qed.

Lemma releaseActive_notLonger (now : R) (id : nat) (s : State) :
  notLonger s (releaseActive now id s).
Proof.
  unfold releaseActive. destruct (activeTextBubble s) as [a |]; [| apply notLonger_refl].
  destruct (bool_decide (a = id)); [apply notLonger_refl |].
  exact (dissipateBubble_notLonger now a s).
Qed.

Lemma dissipateEach_notLonger (now : R) (id : nat) (l : list nat) (s : State) :
  notLonger s
    (fold_left (fun acc other => if bool_decide (other = id) then acc
                                 else dissipateBubble now other acc) l s).
Proof.
  revert s. induction l as [| other rest IH]; intros s; cbn [fold_left].
  - apply notLonger_refl.
  - eapply notLonger_trans; [| apply IH].
    destruct (bool_decide (other = id));
      [apply notLonger_refl | apply dissipateBubble_notLonger].
Qed.

Lemma activateTextBubble_notLonger (now : R) (id : nat) (s : State) :
  notLonger s (activateTextBubble now id s).
Proof.
  unfold activateTextBubble, dissipateOthers.
  eapply notLonger_trans; [apply (releaseActive_notLonger now id) |].
  exact (dissipateEach_notLonger now id _ (claimActive id (releaseActive now id s))).
Qed.

Lemma click_notLonger (now : R) (id : nat) (s : State) : notLonger s (click now id s).
Proof.
  unfold click. destruct (heap s !! id) as [b |]; [| apply notLonger_refl].
  destruct (kind b); [apply activateTextBubble_notLonger | apply dissipateBubble_notLonger].
Qed.

Lemma length_delete_le (i : nat) (l : list nat) :
  (List.length (delete i l) <= List.length l)%nat.
Proof.
  apply sublist_length, sublist_delete.
Qed.

Lemma stepBubble_notLonger (f : Frame) (i : nat) (s s' : State) :
  stepBubble f i s = Returned s' -> notLonger s s'.
Proof.
  unfold stepBubble.
  destruct (floatingBubbles s !! i) as [id |]; [| intros [= <-]; apply notLonger_refl].
  destruct (heap s !! id) as [b |]; [| intros [= <-]; apply notLonger_refl].
  match goal with |- context [if ?c then _ else _] => destruct c end.
  - intros [= <-]. repeat split. cbn. apply length_delete_le.
  - destruct (advanceBubble f s id b) as [b' |]; cbn [bind]; [| discriminate].
    intros [= <-]. repeat split; cbn; lia.
Qed.

Lemma bubbleLoop_notLonger (f : Frame) (n : nat) (s s' : State) :
  bubbleLoop f n s = Returned s' -> notLonger s s'.
Proof.
  revert s. induction n as [| i IH]; intros s; cbn [bubbleLoop].
  - intros [= <-]. apply notLonger_refl.
  - destruct (stepBubble f i s) as [s1 |] eqn:Hstep; cbn [bind]; [| discriminate].
    intros Hloop. eapply notLonger_trans; [eapply stepBubble_notLonger, Hstep |].
    apply IH, Hloop.
Qed.

Lemma length_shiftWhileOver (limit : nat) (l : list nat) :
  (List.length l <= limit -> shiftWhileOver limit l = l) /\
  (List.length (shiftWhileOver limit l) <= limit)%nat.
Proof.
  induction l as [| x rest [IHid IHle]]; cbn [shiftWhileOver].
  - split; [reflexivity | cbn; lia].
  - destruct (limit <? List.length (x :: rest))%nat eqn:Hcmp.
    + apply Nat.ltb_lt in Hcmp. split; [intros; lia | exact IHle].
    + apply Nat.ltb_ge in Hcmp. split; [reflexivity | exact Hcmp].
Qed.

Lemma setPerformanceLevel_capacity (level : PerfLevel) (s : State) :
  withinCapacity s -> withinCapacity (setPerformanceLevel level s).
Proof.
  intros H. unfold setPerformanceLevel.
  destruct (perfEqb (performanceLevel s) level); [exact H |].
  unfold withinCapacity. cbn [floatingBubbles withBubbles].
  match goal with
  | |- (List.length (shiftWhileOver ?n ?l) <= ?m)%nat =>
      change m with n; apply (length_shiftWhileOver n l)
  end.
Qed.

(** [spawnFloatingBubble] pushes one marker and evicts the oldest when
    the list has grown past the capacity. *)
Lemma spawnFloatingBubble_capacity (f : Frame) (s : State) :
  withinCapacity s -> withinCapacity (spawnFloatingBubble f s).
Proof.
  intros H. unfold spawnFloatingBubble.
  destruct (negb (bubbleLayer s)); [exact H |].
  unfold withinCapacity in *. cbn [floatingBubbles].
  change (getActiveMaxFloatingBubbles _) with (getActiveMaxFloatingBubbles s) at 2.
  destruct (getActiveMaxFloatingBubbles s <? List.length (floatingBubbles s ++ [nextId s]))%nat
    eqn:Hcmp.
  - destruct (floatingBubbles s) as [| x l]; cbn in *; [lia |].
    rewrite length_app in *. cbn in *. lia.
  - apply Nat.ltb_ge in Hcmp. exact Hcmp.
Qed.

Lemma resetFloatingBubbles_capacity (scheduleNext : bool) (now : R) (s : State) :
  withinCapacity (resetFloatingBubbles scheduleNext now s).
Proof. unfold withinCapacity. cbn. lia. Qed.

Lemma updateFloatingBubbles_capacity (f : Frame) (s s' : State) :
  updateFloatingBubbles f s = Returned s' -> withinCapacity s -> withinCapacity s'.
Proof.
  unfold updateFloatingBubbles. intros Htick Hcap.
  destruct (negb (bubbleLayer s) || negb (bubblesEnabledForModel s));
    [injection Htick as <-; exact Hcap |].
  match type of Htick with (if ?c then _ else _) = _ => destruct c end;
    [injection Htick as <-; exact Hcap |].
  cbv zeta in Htick.
  match type of Htick with
  | (if (List.length (floatingBubbles ?s2) =? 0)%nat then _ else _) = _ =>
      assert (Hs2 : withinCapacity s2); [| set (st2 := s2) in * ]
  end.
  { match goal with |- context [if ?c then _ else _] => destruct c end.
    - apply (notLonger_capacity (spawnFloatingBubble f (withLastTick (nowMs f) s)));
        [apply scheduleNextBubble_notLonger |].
      apply spawnFloatingBubble_capacity. exact Hcap.
    - exact Hcap. }
  destruct (List.length (floatingBubbles st2) =? 0)%nat.
  - injection Htick as <-. exact Hs2.
  - eapply notLonger_capacity; [eapply bubbleLoop_notLonger, Htick | exact Hs2].
Qed.

(** C6. In every state the viewer can reach - after every spawn with its
    eviction, after every change of the performance level, after every
    tick - the number of live markers is at most the capacity of the tier
    and the device class: 18 on desktop and 11 on mobile in the high tier,
    12 on desktop and 7 on mobile in the low tier. *)
Theorem live_markers_within_capacity :
  forall s : State,
    reachable s ->
    (List.length (floatingBubbles s) <= getActiveMaxFloatingBubbles s)%nat /\
    getActiveMaxFloatingBubbles s = capacity (performanceLevel s) (isMobileLike s).
Proof.
  intros s Hs. split.
  - change (withinCapacity s).
    induction Hs as [mobile | s layer messages now _ IH | s level _ IH
                    | s f s' _ IH Htick | s now id _ IH | s now0 now1 roll _ IH
                    | s now _ IH | s now _ IH | s now _ IH].
    + unfold withinCapacity. cbn. lia.
    + unfold withinCapacity. cbn. lia.
    + apply setPerformanceLevel_capacity, IH.
    + eapply updateFloatingBubbles_capacity; eassumption.
    + eapply notLonger_capacity; [apply click_notLonger | exact IH].
    + eapply notLonger_capacity; [apply dismissActiveTextBubble_notLonger | exact IH].
    + unfold withinCapacity. cbn. lia.
    + unfold withinCapacity. cbn. lia.
    + unfold withinCapacity. cbn. lia.
  - unfold getActiveMaxFloatingBubbles, capacity.
    destruct (performanceLevel s), (isMobileLike s); reflexivity.
Qed.

End CapacityFacts.

Section LifecycleFacts.
Import Probe Markers.
Local Open Scope R_scope.

Lemma spawnDustBurst_fields (x y : R) (s : State) :
  heap (spawnDustBurst x y s) = heap s /\
  floatingBubbles (spawnDustBurst x y s) = floatingBubbles s /\
  activeTextBubble (spawnDustBurst x y s) = activeTextBubble s.
Proof. unfold spawnDustBurst. destruct (bubbleLayer s); repeat split; reflexivity. Qed.

(** What [dissipateBubble] does to a bubble object that exists. *)
Lemma dissipateBubble_fields (now : R) (id : nat) (s : State) (b : FloatingBubbleEntry) :
  heap s !! id = Some b ->
  heap (dissipateBubble now id s) = <[id := dissipated now b]> (heap s) /\
  floatingBubbles (dissipateBubble now id s) = floatingBubbles s /\
  activeTextBubble (dissipateBubble now id s) =
    (if bool_decide (activeTextBubble s = Some id) then None else activeTextBubble s).
Proof.
  intros Hb. unfold dissipateBubble. rewrite Hb.
  destruct (spawnDustBurst_fields (screenX b) (screenY b) s) as (Hh & Hl & Ha).
  cbn [activeTextBubble withBubbles]. rewrite Ha.
  destruct (bool_decide (activeTextBubble s = Some id));
    cbn [heap floatingBubbles activeTextBubble withBubbles withActive];
    rewrite ?Hh, ?Hl, ?Ha; repeat split; reflexivity.
Qed.

Lemma dissipateBubble_missing (now : R) (id : nat) (s : State) :
  heap s !! id = None -> dissipateBubble now id s = s.
Proof. intros Hb. unfold dissipateBubble. rewrite Hb. reflexivity. Qed.

Lemma exclusive_dissipateBubble (now : R) (id : nat) (s : State) :
  exclusive s -> exclusive (dissipateBubble now id s).
Proof.
  intros [I1 I2]. destruct (heap s !! id) as [b |] eqn:Hb;
    [| rewrite dissipateBubble_missing by exact Hb; split; assumption].
  destruct (dissipateBubble_fields now id s b Hb) as (Hh & Hl & Ha).
  split.
  - intros i e Hin He Hopen. rewrite Hh in He. rewrite Hl in Hin. rewrite Ha.
    destruct (decide (id = i)) as [-> | Hne].
    + rewrite lookup_insert_eq in He. injection He as <-. discriminate Hopen.
    + rewrite lookup_insert_ne in He by exact Hne.
      pose proof (I1 i e Hin He Hopen) as Hact. rewrite Hact.
      rewrite bool_decide_eq_false_2 by congruence. reflexivity.
  - intros a Hact. rewrite Ha in Hact. rewrite Hh.
    destruct (bool_decide (activeTextBubble s = Some id)); [discriminate |].
    destruct (decide (id = a)) as [-> | Hne].
    + rewrite lookup_insert_eq. eexists; reflexivity.
    + rewrite lookup_insert_ne by exact Hne. apply I2, Hact.
Qed.

(** Dissipating the active marker leaves no marker revealed. *)
Lemma exclusive_release (now : R) (a : nat) (s : State) :
  exclusive s -> activeTextBubble s = Some a ->
  exclusive (withActive None (dissipateBubble now a s)).
Proof.
  intros Hex Hact. pose proof (exclusive_dissipateBubble now a s Hex) as [I1 _].
  destruct (proj2 Hex a Hact) as [b Hb].
  destruct (dissipateBubble_fields now a s b Hb) as (_ & _ & Ha).
  rewrite bool_decide_eq_true_2 in Ha by exact Hact.
  split.
  - intros i e Hin He Hopen. cbn in Hin, He.
    pose proof (I1 i e Hin He Hopen) as Habs. rewrite Ha in Habs. discriminate Habs.
  - intros a' Habs. discriminate Habs.
Qed.

Lemma exclusive_releaseActive (now : R) (id : nat) (s : State) :
  exclusive s ->
  exclusive (releaseActive now id s) /\
  (forall a, activeTextBubble (releaseActive now id s) = Some a -> a = id).
Proof.
  intros Hex. unfold releaseActive.
  destruct (activeTextBubble s) as [a |] eqn:Hact.
  - destruct (bool_decide (a = id)) eqn:Hd.
    + apply bool_decide_eq_true in Hd. split; [exact Hex |]. congruence.
    + split; [apply exclusive_release; assumption |]. intros a' Habs. discriminate Habs.
  - split; [exact Hex |]. congruence.
Qed.

Lemma exclusive_claimActive (id : nat) (s : State) :
  exclusive s ->
  (forall a, activeTextBubble s = Some a -> a = id) ->
  is_Some (heap s !! id) ->
  exclusive (claimActive id s).
Proof.
  intros [I1 I2] Honly Hid. unfold claimActive. split.
  - intros i e Hin He Hopen. cbn in Hin, He |- *.
    destruct (decide (id = i)) as [-> | Hne]; [reflexivity |].
    rewrite lookup_alter_ne in He by exact Hne.
    pose proof (I1 i e Hin He Hopen) as Hact. apply Honly in Hact. congruence.
  - intros a Hact. cbn in Hact |- *. injection Hact as <-.
    rewrite lookup_alter_eq. destruct Hid as [b ->]. eexists; reflexivity.
Qed.

Lemma exclusive_dissipateEach (now : R) (id : nat) (l : list nat) (s : State) :
  exclusive s ->
  exclusive (fold_left (fun acc other => if bool_decide (other = id) then acc
                                         else dissipateBubble now other acc) l s).
Proof.
  revert s. induction l as [| other rest IH]; intros s Hex; cbn [fold_left];
    [exact Hex |].
  apply IH. destruct (bool_decide (other = id));
    [exact Hex | apply exclusive_dissipateBubble, Hex].
Qed.

Lemma releaseActive_keeps (now : R) (id : nat) (s : State) :
  is_Some (heap s !! id) -> is_Some (heap (releaseActive now id s) !! id).
Proof.
  intros Hid. unfold releaseActive.
  destruct (activeTextBubble s) as [a |]; [| exact Hid].
  destruct (bool_decide (a = id)); [exact Hid |].
  cbn [heap withActive].
  destruct (heap s !! a) as [b |] eqn:Hb.
  - destruct (dissipateBubble_fields now a s b Hb) as (-> & _ & _).
    apply lookup_insert_is_Some'. right. exact Hid.
  - rewrite dissipateBubble_missing by exact Hb. exact Hid.
Qed.

Lemma exclusive_activateTextBubble (now : R) (id : nat) (s : State) :
  exclusive s -> is_Some (heap s !! id) -> exclusive (activateTextBubble now id s).
Proof.
  intros Hex Hid. unfold activateTextBubble, dissipateOthers.
  destruct (exclusive_releaseActive now id s Hex) as [Hmid Honly].
  apply (exclusive_dissipateEach now id _ (claimActive id (releaseActive now id s))).
  apply exclusive_claimActive; [exact Hmid | exact Honly |].
  apply releaseActive_keeps, Hid.
Qed.

Lemma exclusive_click (now : R) (id : nat) (s : State) :
  exclusive s -> exclusive (click now id s).
Proof.
  intros Hex. unfold click. destruct (heap s !! id) as [b |] eqn:Hb; [| exact Hex].
  destruct (kind b).
  - apply exclusive_activateTextBubble; [exact Hex | rewrite Hb; eexists; reflexivity].
  - apply exclusive_dissipateBubble, Hex.
Qed.

Lemma exclusive_dismissActiveTextBubble (now0 now1 roll : R) (s : State) :
  exclusive s -> exclusive (dismissActiveTextBubble now0 now1 roll s).
Proof.
  intros Hex. unfold dismissActiveTextBubble.
  destruct (activeTextBubble s) as [a |] eqn:Hact; [| exact Hex].
  pose proof (exclusive_release now0 a s Hex Hact) as H.
  match goal with |- context [if ?c then _ else _] => destruct c end; exact H.
Qed.

Lemma exclusive_resetFloatingBubbles (scheduleNext : bool) (now : R) (s : State) :
  exclusive (resetFloatingBubbles scheduleNext now s).
Proof.
  split.
  - intros i e Hin. cbn in Hin. contradiction.
  - intros a Hact. cbn in Hact. discriminate Hact.
Qed.

Lemma In_shiftWhileOver (limit : nat) (l : list nat) (x : nat) :
  In x (shiftWhileOver limit l) -> In x l.
Proof.
  induction l as [| y rest IH]; cbn [shiftWhileOver]; [tauto |].
  destruct (limit <? List.length (y :: rest))%nat; [| tauto].
  intros H. right. apply IH, H.
Qed.

Lemma exclusive_setPerformanceLevel (level : PerfLevel) (s : State) :
  exclusive s -> exclusive (setPerformanceLevel level s).
Proof.
  intros [I1 I2]. unfold setPerformanceLevel.
  destruct (perfEqb (performanceLevel s) level); [split; assumption |].
  split.
  - intros i e Hin He Hopen. cbn in Hin, He |- *.
    apply In_shiftWhileOver in Hin. exact (I1 i e Hin He Hopen).
  - exact I2.
Qed.

Lemma exclusive_spawnFloatingBubble (f : Frame) (s : State) :
  exclusive s -> exclusive (spawnFloatingBubble f s).
Proof.
  intros [I1 I2]. unfold spawnFloatingBubble.
  destruct (negb (bubbleLayer s)); [split; assumption |].
  split.
  - intros i e Hin He Hopen. cbn [floatingBubbles heap activeTextBubble] in Hin, He |- *.
    destruct (decide (nextId s = i)) as [<- | Hne].
    + rewrite lookup_insert_eq in He. injection He as <-. discriminate Hopen.
    + rewrite lookup_insert_ne in He by exact Hne.
      apply (I1 i e); [| exact He | exact Hopen].
      assert (Hpush : In i (floatingBubbles s ++ [nextId s])).
      { destruct (_ <? _)%nat in Hin; [| exact Hin].
        destruct (floatingBubbles s ++ [nextId s]); [contradiction | right; exact Hin]. }
      apply in_app_or in Hpush. destruct Hpush as [H | [H | []]]; [exact H | contradiction].
  - intros a Hact. cbn [heap activeTextBubble] in Hact |- *.
    apply lookup_insert_is_Some'. right. apply I2, Hact.
Qed.

Lemma probeIfDue_isOpen (f : Frame) (s : State) (px py : R) (b b' : FloatingBubbleEntry) :
  probeIfDue f s px py b = Returned b' -> isOpen b' = isOpen b.
Proof.
  unfold probeIfDue.
  destruct (Js.geb _ _); [| intros [= <-]; reflexivity].
  destruct (isModelPixelCovered _ _ _ _ _ _ _ _); cbn [bind]; [| discriminate].
  intros [= <-]. reflexivity.
Qed.

Lemma closeIfDue_isOpen (now : R) (isActive : bool) (b : FloatingBubbleEntry) :
  isOpen (closeIfDue now isActive b) = true -> isOpen b = true.
Proof.
  unfold closeIfDue. destruct (negb isActive && passed now (revealUntilMs b)); cbn; congruence.
Qed.

(** A tick never reveals a label. *)
Lemma advanceBubble_isOpen (f : Frame) (s : State) (id : nat) (b b' : FloatingBubbleEntry) :
  advanceBubble f s id b = Returned b' -> isOpen b' = true -> isOpen b = true.
Proof.
  unfold advanceBubble. cbv zeta.
  match goal with |- context [if ?c then Returned _ else _] => destruct c end.
  - intros [= <-] H. apply closeIfDue_isOpen in H. exact H.
  - match goal with |- context [probeIfDue ?f ?s ?x ?y ?b0] =>
      destruct (probeIfDue f s x y b0) as [b3 |] eqn:Hp end; cbn [bind]; [| discriminate].
    apply probeIfDue_isOpen in Hp. cbn [isOpen placed] in Hp.
    match goal with |- context [if ?c then Returned _ else _] => destruct c end.
    + intros [= <-] H. cbn [isOpen hidden] in H. congruence.
    + intros [= <-] H. apply closeIfDue_isOpen in H. cbn [isOpen shown] in H. congruence.
Qed.

Lemma In_delete (i x : nat) (l : list nat) : In x (delete i l) -> In x l.
Proof.
  rewrite <- !list_elem_of_In. intros H. eapply elem_of_sublist; [exact H | apply sublist_delete].
Qed.

Lemma exclusive_stepBubble (f : Frame) (i : nat) (s s' : State) :
  stepBubble f i s = Returned s' -> exclusive s -> exclusive s'.
Proof.
  unfold stepBubble. intros Hstep [I1 I2].
  destruct (floatingBubbles s !! i) as [id |]; [| injection Hstep as <-; split; assumption].
  destruct (heap s !! id) as [b |] eqn:Hb; [| injection Hstep as <-; split; assumption].
  match type of Hstep with (if ?c then _ else _) = _ => destruct c end.
  - injection Hstep as <-. split; [| exact I2].
    intros j e Hin He Hopen. cbn in Hin, He |- *.
    apply In_delete in Hin. exact (I1 j e Hin He Hopen).
  - destruct (advanceBubble f s id b) as [b' |] eqn:Hadv; cbn [bind] in Hstep;
      [| discriminate].
    injection Hstep as <-. split.
    + intros j e Hin He Hopen. cbn in Hin, He |- *.
      destruct (decide (id = j)) as [<- | Hne].
      * rewrite lookup_insert_eq in He. injection He as <-.
        apply (I1 id b Hin Hb). eapply advanceBubble_isOpen; eassumption.
      * rewrite lookup_insert_ne in He by exact Hne. exact (I1 j e Hin He Hopen).
    + intros a Hact. cbn in Hact |- *.
      apply lookup_insert_is_Some'. right. apply I2, Hact.
Qed.

Lemma exclusive_bubbleLoop (f : Frame) (n : nat) (s s' : State) :
  bubbleLoop f n s = Returned s' -> exclusive s -> exclusive s'.
Proof.
  revert s. induction n as [| i IH]; intros s; cbn [bubbleLoop].
  - intros [= <-] H. exact H.
  - destruct (stepBubble f i s) as [s1 |] eqn:Hstep; cbn [bind]; [| discriminate].
    intros Hloop Hex. apply (IH s1 Hloop). eapply exclusive_stepBubble; eassumption.
Qed.

Lemma exclusive_updateFloatingBubbles (f : Frame) (s s' : State) :
  updateFloatingBubbles f s = Returned s' -> exclusive s -> exclusive s'.
Proof.
  unfold updateFloatingBubbles. intros Htick Hex.
  destruct (negb (bubbleLayer s) || negb (bubblesEnabledForModel s));
    [injection Htick as <-; exact Hex |].
  match type of Htick with (if ?c then _ else _) = _ => destruct c end;
    [injection Htick as <-; exact Hex |].
  cbv zeta in Htick.
  match type of Htick with
  | (if (List.length (floatingBubbles ?s2) =? 0)%nat then _ else _) = _ =>
      assert (Hs2 : exclusive s2); [| set (st2 := s2) in * ]
  end.
  { match goal with |- context [if ?c then _ else _] => destruct c end; [| exact Hex].
    exact (exclusive_spawnFloatingBubble f (withLastTick (nowMs f) s) Hex). }
  destruct (List.length (floatingBubbles st2) =? 0)%nat.
  - injection Htick as <-. exact Hs2.
  - eapply exclusive_bubbleLoop; eassumption.
Qed.

Lemma reachable_exclusive (s : State) : reachable s -> exclusive s.
Proof.
  induction 1 as [mobile | s layer messages now _ IH | s level _ IH
                 | s f s' _ IH Htick | s now id _ IH | s now0 now1 roll _ IH
                 | s now _ IH | s now _ IH | s now _ IH].
  - split; [intros i e Hin; cbn in Hin; contradiction | intros a Ha; discriminate Ha].
  - exact (exclusive_resetFloatingBubbles false now s).
  - apply exclusive_setPerformanceLevel, IH.
  - eapply exclusive_updateFloatingBubbles; eassumption.
  - apply exclusive_click, IH.
  - apply exclusive_dismissActiveTextBubble, IH.
  - exact (exclusive_resetFloatingBubbles false now (withEnabled false s)).
  - exact (exclusive_resetFloatingBubbles true now (withEnabled true s)).
  - exact (exclusive_resetFloatingBubbles false now s).
Qed.

End LifecycleFacts.

Section ExclusiveActivation.
Import Probe Markers.
Local Open Scope R_scope.

Lemma dissipatingAt_dissipateBubble (now : R) (a other : nat) (s : State) :
  dissipatingAt now s a -> dissipatingAt now (dissipateBubble now other s) a.
Proof.
  intros (e & He & Hopen & Hop & Hpe & Hspawn).
  destruct (heap s !! other) as [b |] eqn:Hb;
    [| rewrite dissipateBubble_missing by exact Hb; exists e; repeat split; assumption].
  destruct (dissipateBubble_fields now other s b Hb) as (Hh & _ & _).
  unfold dissipatingAt. rewrite Hh.
  destruct (decide (other = a)) as [-> | Hne].
  - rewrite lookup_insert_eq. exists (dissipated now b). repeat split; reflexivity.
  - rewrite lookup_insert_ne by exact Hne. exists e. repeat split; assumption.
Qed.

Lemma dissipatingAt_dissipateEach (now : R) (a id : nat) (l : list nat) (s : State) :
  dissipatingAt now s a ->
  dissipatingAt now
    (fold_left (fun acc other => if bool_decide (other = id) then acc
                                 else dissipateBubble now other acc) l s) a.
Proof.
  revert s. induction l as [| other rest IH]; intros s H; cbn [fold_left]; [exact H |].
  apply IH. destruct (bool_decide (other = id));
    [exact H | apply dissipatingAt_dissipateBubble, H].
Qed.

Lemma active_dissipateEach (now : R) (id : nat) (l : list nat) (s : State) :
  activeTextBubble s = Some id ->
  activeTextBubble
    (fold_left (fun acc other => if bool_decide (other = id) then acc
                                 else dissipateBubble now other acc) l s) = Some id.
Proof.
  revert s. induction l as [| other rest IH]; intros s H; cbn [fold_left]; [exact H |].
  apply IH. destruct (bool_decide (other = id)) eqn:Hd; [exact H |].
  apply bool_decide_eq_false in Hd.
  destruct (heap s !! other) as [b |] eqn:Hb;
    [| rewrite dissipateBubble_missing by exact Hb; exact H].
  destruct (dissipateBubble_fields now other s b Hb) as (_ & _ & ->).
  rewrite bool_decide_eq_false_2 by congruence. exact H.
Qed.

(** The first part of an activation, when another marker is active. *)
Lemma releaseActive_other (now : R) (a id : nat) (s : State) (e : FloatingBubbleEntry) :
  activeTextBubble s = Some a -> a <> id -> heap s !! a = Some e ->
  releaseActive now id s = withActive None (dissipateBubble now a s) /\
  activeTextBubble (releaseActive now id s) = None /\
  dissipatingAt now (releaseActive now id s) a.
Proof.
  intros Hact Hne He.
  assert (Hrel : releaseActive now id s = withActive None (dissipateBubble now a s)).
  { unfold releaseActive. rewrite Hact, bool_decide_eq_false_2 by exact Hne. reflexivity. }
  rewrite Hrel. split; [reflexivity |]. split; [reflexivity |].
  destruct (dissipateBubble_fields now a s e He) as (Hh & _ & _).
  unfold dissipatingAt. cbn [heap withActive]. rewrite Hh, lookup_insert_eq.
  exists (dissipated now e). repeat split; reflexivity.
Qed.

(** C5. In every state the viewer can reach at most one marker is ACTIVE,
    and a listed marker whose label is revealed is the ACTIVE one. When a
    bubble [b] is activated while another marker [a] is ACTIVE, the
    activation first dissipates [a] - in the state between, [a] is
    dissipating and no marker is ACTIVE - and only then makes [b] ACTIVE;
    at the end [b] is ACTIVE and [a] is still dissipating. *)
Theorem single_active_marker :
  forall s : State,
    reachable s ->
    (forall i j, ACTIVE s i -> ACTIVE s j -> i = j) /\
    (forall i, revealed s i -> ACTIVE s i) /\
    (forall (now : R) (a b : nat),
        ACTIVE s a -> a <> b -> is_Some (heap s !! b) ->
        let mid := releaseActive now b s in
        let s' := activateTextBubble now b s in
        s' = withNextSpawn PositiveInfinity (dissipateOthers now b (claimActive b mid)) /\
        dissipatingAt now mid a /\
        (forall i, ~ ACTIVE mid i) /\
        ACTIVE s' b /\
        ~ ACTIVE s' a /\
        dissipatingAt now s' a).
Proof.
  intros s Hs. pose proof (reachable_exclusive s Hs) as [I1 I2].
  split; [| split].
  - unfold ACTIVE. intros i j Hi Hj. congruence.
  - intros i [Hin (e & He & Hopen)]. exact (I1 i e Hin He Hopen).
  - intros now a b Ha Hne Hb mid s'.
    destruct (I2 a Ha) as [e He].
    destruct (releaseActive_other now a b s e Ha Hne He) as (Hrel & Hnone & Hdis).
    fold mid in Hrel, Hnone, Hdis.
    assert (Hactive : activeTextBubble s' = Some b).
    { unfold s', activateTextBubble, dissipateOthers. cbn [activeTextBubble withNextSpawn].
      apply (active_dissipateEach now b _ (claimActive b (releaseActive now b s))).
      reflexivity. }
    split; [reflexivity |]. split; [exact Hdis |].
    split; [intros i Hi; unfold ACTIVE in Hi; rewrite Hnone in Hi; discriminate Hi |].
    split; [exact Hactive |].
    split; [unfold ACTIVE; rewrite Hactive; congruence |].
    unfold s', activateTextBubble, dissipateOthers.
    assert (Hclaim : dissipatingAt now (claimActive b mid) a).
    { destruct Hdis as (d & Hd & Hrest). exists d. split; [| exact Hrest].
      unfold claimActive. cbn [heap withBubbles withActive].
      rewrite lookup_alter_ne by congruence. exact Hd. }
    pose proof (dissipatingAt_dissipateEach now a b
                  (floatingBubbles (claimActive b mid)) (claimActive b mid) Hclaim)
      as (d & Hd & Hrest).
    exists d. split; [exact Hd | exact Hrest].
Qed.

End ExclusiveActivation.

Section ModeRegistryFacts.
Import ModeRegistry Controller.
Local Open Scope string_scope.

Lemma tick_animationMode (nowMs : R) (s : State) :
  animationMode (updateAnimationUniforms nowMs s) = animationMode s.
Proof. unfold updateAnimationUniforms. destruct (customUniforms s); reflexivity. Qed.

Lemma applyAnimationStyle_animationMode (reset : bool) (s : State) :
  animationMode (applyAnimationStyle reset s) = animationMode s.
Proof.
  unfold applyAnimationStyle. destruct (splatMesh s); [| reflexivity].
  destruct (isNone (animationMode s) || reset); reflexivity.
Qed.

(** The mode that reads back after [setAnimation(mode)]. *)
Lemma setAnimation_animationMode (mode : string) (now0 now1 now2 : R) (s : State) :
  animationMode (setAnimation mode now0 now1 now2 s) = resolve mode.
Proof.
  unfold setAnimation.
  rewrite tick_animationMode, applyAnimationStyle_animationMode. reflexivity.
Qed.

(** C8. [setAnimation] trims, lowers the case and looks the name up in the
    alias table: ["Z-Wave"] reads back as zwave, ["bogus"] and the empty
    name as none. But the table is an object literal, and a name that is a
    member of [Object.prototype] - ["constructor"] - is found there: the
    mode that reads back is that member, not none. *)
Theorem alias_table_inherits_object_members :
  forall (s : State) (now0 now1 now2 : R),
    animationMode (setAnimation "Z-Wave" now0 now1 now2 s) = Canon zwave /\
    animationMode (setAnimation "  SWIRL " now0 now1 now2 s) = Canon swirl /\
    animationMode (setAnimation "Breathe" now0 now1 now2 s) = Canon breath /\
    animationMode (setAnimation "bogus" now0 now1 now2 s) = Canon none /\
    animationMode (setAnimation "" now0 now1 now2 s) = Canon none /\
    animationMode (setAnimation "constructor" now0 now1 now2 s) = Inherited "constructor" /\
    isNone (animationMode (setAnimation "constructor" now0 now1 now2 s)) = false.
Proof.
  intros s now0 now1 now2. rewrite !setAnimation_animationMode.
  repeat split; vm_compute; reflexivity.
Qed.

End ModeRegistryFacts.

Section Witnesses.
Import ModeRegistry Controller.
Local Open Scope R_scope.

Lemma swirl_clock_at_1280 :
  dispersingOf (Canon swirl) (elapsedSecondsAt 1280 (Examples.loaded (Canon swirl))) = true /\
  pointCloudEnterMorph <= morphOf (Canon swirl) (elapsedSecondsAt 1280 (Examples.loaded (Canon swirl))).
Proof.
  assert (Ht : elapsedSecondsAt 1280 (Examples.loaded (Canon swirl)) = 1.28)
    by (unfold elapsedSecondsAt; cbn [animationStartTime Examples.loaded]; lra).
  rewrite Ht.
  rewrite dispersingOf_spec, morphOf_spec by (reflexivity || lra).
  unfold SpecMorph.morph, SpecMorph.triangle, SpecMorph.dispersing.
  rewrite spec_phase_small by lra.
  rewrite ltb_true by lra. split; [reflexivity |].
  unfold SpecMorph.easeInOutCubic. rewrite ltb_false by lra.
  unfold pointCloudEnterMorph. lra.
Qed.


Lemma render_mode_gate_witness :
  pointCloudEnabled (updateAnimationUniforms 1280 (Examples.loaded (Canon swirl))) = true.
Proof.
  destruct (render_mode_gate (Examples.loaded (Canon swirl)) 1280 freshUniforms
              Examples.mesh eq_refl eq_refl eq_refl) as [Henter _].
  destruct swirl_clock_at_1280 as [Hd Hm].
  exact (Henter Hd Hm).
Defined.

Lemma explode_term_at_burst_peak_witness :
  exists u,
    customUniforms (updateAnimationUniforms Examples.burstPeakMs
                      (Examples.loaded (Canon explode))) = Some u /\
    Kernel.burstOf (Kernel.phaseIn u 0) = 1 /\
    Kernel.length (Kernel.modeTerm u Examples.origin 0 Examples.unitX)
    = Kernel.strengthIn u * 0.28.
Proof.
  destruct uniforms_at_burst_peak as (u & Hu & Hsin & _).
  destruct (explode_term_at_burst_peak (Examples.loaded (Canon explode))
              Examples.burstPeakMs freshUniforms u Examples.origin Examples.unitX 0
              eq_refl eq_refl eq_refl Hu Hsin) as (Hb & Hs & _ & Hlen).
  exists u. split; [exact Hu |]. split; [exact Hb |].
  rewrite Hs. apply Hlen.
  intros Hz. apply sqrt_eq_0 in Hz; [| apply dot_self_nonneg].
  unfold Kernel.dot, Kernel.vadd, Kernel.vsub, Kernel.splat in Hz.
  cbn [Kernel.vx Kernel.vy Kernel.vz Examples.unitX Examples.origin] in Hz. lra.
Defined.

Lemma occlusion_probe_fails_open_witness :
  Probe.isModelPixelCovered (Some Examples.throwingContext) Probe.high false
    800 600 400 300 14 = Returned false.
Proof.
  destruct (occlusion_probe_fails_open (Some Examples.throwingContext)) as [H _].
  - right. right. intros x y. reflexivity.
  - apply H.
Defined.

End Witnesses.

Section MarkerRun.
Import Probe Markers.
Local Open Scope R_scope.

Ltac fields :=
  cbn [isMobileLike performanceLevel bubbleLayer bubbleMessages bubblesEnabledForModel
       heap nextId floatingBubbles activeTextBubble nextBubbleSpawnMs lastBubbleTickMs
       dustBursts withBubbles withActive withNextSpawn withDust withLastTick withEnabled
       nowMs context canvasClientWidth canvasClientHeight projection textRoll lifeRoll
       gapRoll Examples.frameBehind Examples.notes Examples.note Examples.nextSpawnAfter
       Examples.oneNote Examples.twoNotes ndcX ndcY ndcZ
       kind spawnMs lastUpdateMs lifeMs revealUntilMs maxAlpha screenX screenY overModel
       lastOverlapCheckMs isOpen opacity pointerEvents hidden placed closed
       negb andb orb perfEqb bind List.length Nat.ltb Nat.leb Nat.eqb fold_left app tail
       getActiveMaxFloatingBubbles maxFloatingBubbles reached passed bubbleLoop].

Lemma notesReady_fields :
  Examples.notesReady =
  {| isMobileLike := false; performanceLevel := high; bubbleLayer := true;
     bubbleMessages := ["note"%string]; bubblesEnabledForModel := true;
     heap := ∅; nextId := 0; floatingBubbles := []; activeTextBubble := None;
     nextBubbleSpawnMs := Finite (0 + 320); lastBubbleTickMs := 0; dustBursts := [] |}.
Proof. reflexivity. Qed.

(** A marker projected behind the far plane is hidden, not probed. *)
Lemma advanceBubble_behind (now roll : R) (s : State) (id : nat) (e : FloatingBubbleEntry) :
  advanceBubble (Examples.frameBehind now roll) s id e =
  Returned (closeIfDue now (bool_decide (activeTextBubble s = Some id))
              (hidden (placed now (screenX e) (screenY e) e))).
Proof.
  unfold advanceBubble. cbv zeta. fields.
  unfold Js.gtb at 1. rewrite (ltb_true (-1) 5) by lra.
  rewrite (ltb_false 5 1) by lra. reflexivity.
Qed.

Lemma stepBubble_behind (now roll : R) (i id : nat) (s : State) (e : FloatingBubbleEntry) :
  floatingBubbles s !! i = Some id ->
  heap s !! id = Some e ->
  (now - spawnMs e) / lifeMs e < 1 ->
  stepBubble (Examples.frameBehind now roll) i s =
  Returned (withBubbles
              (<[id := closeIfDue now (bool_decide (activeTextBubble s = Some id))
                         (hidden (placed now (screenX e) (screenY e) e))]> (heap s))
              (floatingBubbles s) s).
Proof.
  intros Hi He Hlife. unfold stepBubble. rewrite Hi, He. fields.
  unfold Js.geb. rewrite leb_false by exact Hlife. fields.
  rewrite advanceBubble_behind. reflexivity.
Qed.

Lemma note_young (spawn lastUpdate now : R) :
  now - spawn < 4500 ->
  (now - spawnMs (Examples.note spawn lastUpdate)) / lifeMs (Examples.note spawn lastUpdate) < 1.
Proof.
  intros H. fields. unfold bubbleLifeMinMs, bubbleLifeMaxMs.
  replace (3400 + 0.5 * (5600 - 3400)) with 4500 by lra. lra.
Qed.

(** The first tick after the load spawns marker 0. *)
Lemma tick_notesReady :
  updateFloatingBubbles (Examples.frameBehind 400 0.1) Examples.notesReady
  = Returned Examples.oneNote.
Proof.
  rewrite notesReady_fields.
  unfold updateFloatingBubbles. fields.
  rewrite bool_decide_eq_true_2 by reflexivity. fields.
  unfold Js.geb. rewrite leb_true by lra. fields.
  unfold spawnFloatingBubble, scheduleNextBubble. fields.
  unfold textBubbleSpawnProbability, maxTextBubbles. fields.
  rewrite ltb_true by lra. fields.
  erewrite (stepBubble_behind 400 0.1 0 0);
    [| reflexivity | apply lookup_insert_eq
     | fields; unfold bubbleLifeMinMs, bubbleLifeMaxMs; lra].
  fields.
  rewrite bool_decide_eq_false_2 by discriminate. unfold closeIfDue. fields.
  unfold Js.gtb. rewrite ltb_true by lra.
  rewrite insert_insert_eq.
  reflexivity.
Qed.

(** The next tick spawns marker 1. *)
Lemma tick_oneNote :
  updateFloatingBubbles (Examples.frameBehind 800 0.1) Examples.oneNote
  = Returned Examples.twoNotes.
Proof.
  unfold updateFloatingBubbles. fields.
  rewrite bool_decide_eq_true_2 by reflexivity. fields.
  unfold Js.geb. rewrite leb_true by (unfold bubbleSpawnMinGapMs; lra). fields.
  unfold spawnFloatingBubble, scheduleNextBubble. fields.
  unfold isText at 1. rewrite lookup_insert_eq. fields.
  unfold textBubbleSpawnProbability, maxTextBubbles. fields.
  rewrite ltb_true by lra. fields.
  erewrite (stepBubble_behind 800 0.1 1 1);
    [| reflexivity | apply lookup_insert_eq
     | fields; unfold bubbleLifeMinMs, bubbleLifeMaxMs; lra].
  fields.
  erewrite (stepBubble_behind 800 0.1 0 0);
    [| reflexivity
     | fields; rewrite lookup_insert_ne by discriminate;
       rewrite lookup_insert_ne by discriminate; apply lookup_insert_eq
     | apply note_young; lra].
  fields.
  rewrite !bool_decide_eq_false_2 by discriminate. unfold closeIfDue. fields.
  unfold Js.gtb. rewrite !ltb_true by lra.
  reflexivity.
Qed.

Lemma reachable_twoNotes : reachable Examples.twoNotes.
Proof.
  apply (reach_tick Examples.oneNote (Examples.frameBehind 800 0.1)); [| exact tick_oneNote].
  apply (reach_tick Examples.notesReady (Examples.frameBehind 400 0.1));
    [| exact tick_notesReady].
  apply reach_loadComplete, reach_setFloatingBubbles, reach_initial.
Qed.

Lemma activateTextBubble_active (now : R) (id : nat) (s : State) :
  activeTextBubble (activateTextBubble now id s) = Some id.
Proof.
  unfold activateTextBubble, dissipateOthers. cbn [activeTextBubble withNextSpawn].
  apply (active_dissipateEach now id _ (claimActive id (releaseActive now id s))).
  reflexivity.
Qed.

Lemma dissipateBubble_keeps (now : R) (id i : nat) (s : State) :
  is_Some (heap s !! i) -> is_Some (heap (dissipateBubble now id s) !! i).
Proof.
  intros Hi. destruct (heap s !! id) as [b |] eqn:Hb;
    [| rewrite dissipateBubble_missing by exact Hb; exact Hi].
  destruct (dissipateBubble_fields now id s b Hb) as (-> & _ & _).
  apply lookup_insert_is_Some'. right. exact Hi.
Qed.

Lemma dissipateEach_keeps (now : R) (id i : nat) (l : list nat) (s : State) :
  is_Some (heap s !! i) ->
  is_Some (heap (fold_left (fun acc other => if bool_decide (other = id) then acc
                                             else dissipateBubble now other acc) l s) !! i).
Proof.
  revert s. induction l as [| other rest IH]; intros s H; cbn [fold_left]; [exact H |].
  apply IH. destruct (bool_decide (other = id)); [exact H | apply dissipateBubble_keeps, H].
Qed.

Lemma activateTextBubble_keeps (now : R) (id i : nat) (s : State) :
  is_Some (heap s !! i) -> is_Some (heap (activateTextBubble now id s) !! i).
Proof.
  intros Hi. unfold activateTextBubble, dissipateOthers. cbn [heap withNextSpawn].
  apply (dissipateEach_keeps now id i _ (claimActive id (releaseActive now id s))).
  unfold claimActive. cbn [heap withBubbles withActive].
  assert (Hrel : is_Some (heap (releaseActive now id s) !! i)).
  { unfold releaseActive. destruct (activeTextBubble s) as [a |]; [| exact Hi].
    destruct (bool_decide (a = id)); [exact Hi |].
    cbn [heap withActive]. apply dissipateBubble_keeps, Hi. }
  destruct (decide (id = i)) as [-> | Hne].
  - rewrite lookup_alter_eq. destruct Hrel as [b ->]. eexists; reflexivity.
  - rewrite lookup_alter_ne by exact Hne. exact Hrel.
Qed.

Lemma twoNotes_lookup :
  heap Examples.twoNotes !! 0%nat = Some (Examples.note 400 800) /\
  heap Examples.twoNotes !! 1%nat = Some (Examples.note 800 800).
Proof.
  fields. split.
  - apply lookup_insert_eq.
  - rewrite lookup_insert_ne by discriminate. apply lookup_insert_eq.
Qed.

Lemma click_twoNotes :
  click 900 0 Examples.twoNotes = activateTextBubble 900 0 Examples.twoNotes.
Proof. unfold click. rewrite (proj1 twoNotes_lookup). reflexivity. Qed.

Lemma single_active_marker_witness :
  ACTIVE (activateTextBubble 1000 1 (click 900 0 Examples.twoNotes)) 1 /\
  ~ ACTIVE (activateTextBubble 1000 1 (click 900 0 Examples.twoNotes)) 0 /\
  dissipatingAt 1000 (releaseActive 1000 1 (click 900 0 Examples.twoNotes)) 0 /\
  dissipatingAt 1000 (activateTextBubble 1000 1 (click 900 0 Examples.twoNotes)) 0.
Proof.
  destruct (single_active_marker (click 900 0 Examples.twoNotes)
              (reach_click Examples.twoNotes 900 0 reachable_twoNotes))
    as (_ & _ & Horder).
  destruct (Horder 1000 0%nat 1%nat) as (_ & Hmid & _ & Hb & Ha & Hend).
  - unfold ACTIVE. rewrite click_twoNotes. apply activateTextBubble_active.
  - discriminate.
  - rewrite click_twoNotes. apply activateTextBubble_keeps.
    rewrite (proj2 twoNotes_lookup). eexists; reflexivity.
  - repeat split; assumption.
Defined.

Lemma live_markers_within_capacity_witness :
  (List.length (floatingBubbles (setPerformanceLevel low Examples.twoNotes))
   <= getActiveMaxFloatingBubbles (setPerformanceLevel low Examples.twoNotes))%nat /\
  getActiveMaxFloatingBubbles (setPerformanceLevel low Examples.twoNotes) = 12%nat.
Proof.
  exact (live_markers_within_capacity (setPerformanceLevel low Examples.twoNotes)
           (reach_setPerformanceLevel Examples.twoNotes low reachable_twoNotes)).
Defined.

End MarkerRun.

Section ThrottleWitness.
Import Probe Markers.
Local Open Scope R_scope.

Lemma occlusion_probe_throttle_witness :
  probeIfDue (Examples.frame 1050 (Some Examples.opaqueContext)) Examples.lowDesktop 400 300
    Examples.marker
  = Returned Examples.marker.
Proof.
  destruct (occlusion_probe_throttle Examples.lowDesktop
              (Examples.frame 1050 (Some Examples.opaqueContext)) Examples.marker)
    as (_ & Hcached & _).
  apply Hcached.
  cbn [isMobileLike performanceLevel Examples.lowDesktop nowMs Examples.frame
       lastOverlapCheckMs Examples.marker]. lra.
Defined.

End ThrottleWitness.

(** * Further properties of the code *)

Section RampFacts.
Import Controller.
Local Open Scope R_scope.

Lemma cube_mono (a b : R) : 0 <= a -> a <= b -> a * a * a <= b * b * b.
Proof.
  intros Ha Hab. assert (a * a <= b * b) by nra.
  assert (0 <= a * a) by nra. nra.
Qed.

Lemma clamp01_mono (x y : R) : x <= y -> clamp01 x <= clamp01 y.
Proof.
  intros H. unfold clamp01.
  apply Rmax_lub; [apply Rmax_l |].
  apply Rle_trans with (Rmin 1 y); [| apply Rmax_r].
  apply Rmin_glb; [apply Rmin_l |].
  apply Rle_trans with x; [apply Rmin_r | exact H].
Qed.

Lemma clamp01_low (x : R) : x <= 0 -> clamp01 x = 0.
Proof.
  intros H. unfold clamp01. rewrite Rmin_right by lra. apply Rmax_left. exact H.
Qed.

Lemma clamp01_high (x : R) : 1 <= x -> clamp01 x = 1.
Proof.
  intros H. unfold clamp01. rewrite Rmin_left by lra. apply Rmax_right. lra.
Qed.

Lemma clamp01_flip (x : R) : clamp01 (1 - x) = 1 - clamp01 x.
Proof.
  destruct (Rle_dec x 0) as [H0 | H0].
  - rewrite (clamp01_low x H0), clamp01_high by lra. lra.
  - destruct (Rle_dec 1 x) as [H1 | H1].
    + rewrite (clamp01_high x H1), clamp01_low by lra. lra.
    + rewrite !clamp01_id by lra. reflexivity.
Qed.

(** X1. [easeInOutCubic] is a symmetric, non-decreasing ramp from 0 to 1:
    [ease(1 - x) = 1 - ease(x)] for every [x], it is 0 up to 0, 1/2 at 1/2
    and 1 from 1 on, and [x <= y] gives [ease(x) <= ease(y)]. *)
Theorem easeInOutCubic_symmetric_monotone :
  (forall x, easeInOutCubic (1 - x) = 1 - easeInOutCubic x) /\
  (forall x y, x <= y -> easeInOutCubic x <= easeInOutCubic y) /\
  (forall x, x <= 0 -> easeInOutCubic x = 0) /\
  easeInOutCubic 0.5 = 0.5 /\
  (forall x, 1 <= x -> easeInOutCubic x = 1).
Proof.
  split; [| split; [| split; [| split]]].
  - intros x. unfold easeInOutCubic, Js.pow3, Js.ltb. rewrite clamp01_flip.
    destruct (clamp01_range x) as [H0 H1]. set (c := clamp01 x) in *.
    destruct (Rlt_dec (1 - c) 0.5), (Rlt_dec c 0.5); try lra.
    assert (c = 0.5) by lra. subst c. rewrite H. lra.
  - intros x y Hxy. unfold easeInOutCubic, Js.pow3, Js.ltb.
    pose proof (clamp01_mono x y Hxy) as Hc.
    destruct (clamp01_range x) as [Hx0 Hx1]. destruct (clamp01_range y) as [Hy0 Hy1].
    set (a := clamp01 x) in *. set (b := clamp01 y) in *.
    destruct (Rlt_dec a 0.5), (Rlt_dec b 0.5); try lra.
    + pose proof (cube_mono a b Hx0 Hc). lra.
    + pose proof (cube_mono a 0.5 Hx0 ltac:(lra)).
      pose proof (cube_mono (-2 * b + 2) 1 ltac:(lra) ltac:(lra)). lra.
    + pose proof (cube_mono (-2 * b + 2) (-2 * a + 2) ltac:(lra) ltac:(lra)). lra.
  - intros x Hx. unfold easeInOutCubic. rewrite (clamp01_low x Hx), ltb_true by lra. lra.
  - unfold easeInOutCubic, Js.pow3. rewrite clamp01_id by lra. rewrite ltb_false by lra. lra.
  - intros x Hx. unfold easeInOutCubic, Js.pow3.
    rewrite (clamp01_high x Hx), ltb_false by lra. lra.
Qed.

Lemma smoothstep_range (e0 e1 x : R) : 0 <= smoothstep e0 e1 x <= 1.
Proof.
  unfold smoothstep, Js.eqb, Js.ltb.
  destruct (Req_dec_T e0 e1); [destruct (Rlt_dec x e0); lra |].
  destruct (clamp01_range ((x - e0) / (e1 - e0))) as [H0 H1].
  set (t := clamp01 _) in *. split.
  - apply Rmult_le_pos; [nra | lra].
  - assert (H : 1 - t * t * (3 - 2 * t) = (1 - t) * (1 - t) * (1 + 2 * t)) by ring.
    assert (0 <= (1 - t) * (1 - t) * (1 + 2 * t)) by (apply Rmult_le_pos; nra).
    lra.
Qed.

Lemma smooth_poly_mono (a b : R) :
  0 <= a -> a <= b -> b <= 1 -> a * a * (3 - 2 * a) <= b * b * (3 - 2 * b).
Proof.
  intros Ha Hab Hb.
  assert (H : b * b * (3 - 2 * b) - a * a * (3 - 2 * a)
              = (b - a) * (3 * (a + b) - 2 * (a * a + a * b + b * b))) by ring.
  assert (0 <= 3 * (a + b) - 2 * (a * a + a * b + b * b)) by nra.
  assert (0 <= (b - a) * (3 * (a + b) - 2 * (a * a + a * b + b * b)))
    by (apply Rmult_le_pos; lra).
  lra.
Qed.

(** X2. [smoothstep(edge0, edge1, x)] with [edge0 < edge1] is a
    non-decreasing ramp: 0 for [x <= edge0], 1 for [x >= edge1], within
    [0,1] between; with equal edges it is the step at the edge. *)
Theorem smoothstep_is_a_ramp :
  forall e0 e1 : R,
    e0 <= e1 ->
    (forall x, 0 <= smoothstep e0 e1 x <= 1) /\
    (forall x, x < e0 -> smoothstep e0 e1 x = 0) /\
    (forall x, e1 <= x -> smoothstep e0 e1 x = 1) /\
    (forall x y, x <= y -> smoothstep e0 e1 x <= smoothstep e0 e1 y).
Proof.
  intros e0 e1 He. split; [intros; apply smoothstep_range |].
  unfold smoothstep, Js.eqb, Js.ltb.
  destruct (Req_dec_T e0 e1) as [Heq | Hne].
  - subst e1. split; [| split].
    + intros x Hx. destruct (Rlt_dec x e0); lra.
    + intros x Hx. destruct (Rlt_dec x e0); lra.
    + intros x y Hxy. destruct (Rlt_dec x e0), (Rlt_dec y e0); lra.
  - assert (Hpos : 0 < e1 - e0) by lra.
    assert (Hinv : 0 < / (e1 - e0)) by (apply Rinv_0_lt_compat; exact Hpos).
    split; [| split].
    + intros x Hx. rewrite clamp01_low; [ring |].
      unfold Rdiv. assert (x - e0 <= 0) by lra. nra.
    + intros x Hx. rewrite clamp01_high; [ring |].
      apply Rmult_le_reg_r with (e1 - e0); [exact Hpos |].
      unfold Rdiv. rewrite Rmult_assoc, Rinv_l by lra. lra.
    + intros x y Hxy.
      assert (Hq : (x - e0) / (e1 - e0) <= (y - e0) / (e1 - e0)).
      { unfold Rdiv. apply Rmult_le_compat_r; lra. }
      pose proof (clamp01_mono _ _ Hq) as Hc.
      destruct (clamp01_range ((x - e0) / (e1 - e0))) as [Hx0 _].
      destruct (clamp01_range ((y - e0) / (e1 - e0))) as [_ Hy1].
      apply smooth_poly_mono; assumption.
Qed.

Lemma mix_bounds (a b t lo hi : R) :
  lo <= a <= hi -> lo <= b <= hi -> lo <= mix a b t <= hi.
Proof.
  intros Ha Hb. unfold mix. destruct (clamp01_range t) as [H0 H1].
  set (x := clamp01 t) in *. split; nra.
Qed.

(** X3. [mix(a, b, t)] clamps [t] to [0,1]: it is [a] for [t <= 0], [b] for
    [t >= 1], and for every [t] it lies between [a] and [b]. *)
Theorem mix_stays_between :
  forall a b t : R,
    Rmin a b <= mix a b t <= Rmax a b /\
    (t <= 0 -> mix a b t = a) /\
    (1 <= t -> mix a b t = b).
Proof.
  intros a b t. split; [| split].
  - apply mix_bounds; split;
      auto using Rmin_l, Rmin_r, Rmax_l, Rmax_r.
  - intros Ht. unfold mix. rewrite (clamp01_low t Ht). ring.
  - intros Ht. unfold mix. rewrite (clamp01_high t Ht). ring.
Qed.

Lemma easeOutCubic_range (x : R) : 0 <= easeOutCubic x <= 1.
Proof.
  unfold easeOutCubic, Js.pow3. destruct (clamp01_range x) as [H0 H1].
  set (c := clamp01 x) in *.
  pose proof (cube_mono 0 (1 - c) ltac:(lra) ltac:(lra)).
  pose proof (cube_mono (1 - c) 1 ltac:(lra) ltac:(lra)). split; lra.
Qed.

(** X4. [easeOutCubic] is a non-decreasing ramp from 0 to 1 that runs ahead
    of the linear ramp: it is 0 up to 0, 1 from 1 on, and at least the
    clamped argument everywhere. *)
Theorem easeOutCubic_leads_linear :
  (forall x y, x <= y -> easeOutCubic x <= easeOutCubic y) /\
  (forall x, x <= 0 -> easeOutCubic x = 0) /\
  (forall x, 1 <= x -> easeOutCubic x = 1) /\
  (forall x, clamp01 x <= easeOutCubic x <= 1).
Proof.
  split; [| split; [| split]].
  - intros x y Hxy. unfold easeOutCubic, Js.pow3.
    pose proof (clamp01_mono x y Hxy) as Hc.
    destruct (clamp01_range x) as [Hx0 Hx1]. destruct (clamp01_range y) as [Hy0 Hy1].
    pose proof (cube_mono (1 - clamp01 y) (1 - clamp01 x) ltac:(lra) ltac:(lra)). lra.
  - intros x Hx. unfold easeOutCubic, Js.pow3. rewrite (clamp01_low x Hx). ring.
  - intros x Hx. unfold easeOutCubic, Js.pow3. rewrite (clamp01_high x Hx). ring.
  - intros x. split; [| apply easeOutCubic_range].
    unfold easeOutCubic, Js.pow3. destruct (clamp01_range x) as [H0 H1].
    set (c := clamp01 x) in *. set (d := 1 - c).
    assert (Hd : 0 <= d <= 1) by (unfold d; lra).
    assert (d * d <= d) by nra. assert (0 <= d * d) by nra.
    assert (d * d * d <= d) by nra. unfold d in *. lra.
Qed.

End RampFacts.

Section BlendRange.
Import ModeRegistry Controller.
Local Open Scope R_scope.

Lemma exp_follow_range (dt tau : R) : 0 <= dt -> 0 < tau -> 0 <= 1 - exp (- dt / tau) < 1.
Proof.
  intros Hdt Htau. pose proof (exp_pos (- dt / tau)) as Hpos.
  assert (Hle : exp (- dt / tau) <= 1).
  { assert (Hx : - dt / tau <= 0).
    { unfold Rdiv. assert (0 < / tau) by (apply Rinv_0_lt_compat; exact Htau). nra. }
    destruct Hx as [Hlt | Heq].
    - left. rewrite <- exp_0. apply exp_increasing, Hlt.
    - rewrite Heq, exp_0. lra. }
  lra.
Qed.

(** A value that follows a target by a fraction, or by a capped step in
    the same direction, stays in every interval that holds both. *)
Lemma limited_follow_range (a d f rise fall lo hi : R) :
  lo <= a <= hi -> lo <= d <= hi -> 0 <= f <= 1 -> 0 <= rise -> 0 <= fall ->
  let target := a + (d - a) * f in
  let step := target - a in
  lo <= (if Js.gtb step rise then a + rise
         else if Js.ltb step (- fall) then a - fall
         else target) <= hi.
Proof.
  intros Ha Hd Hf Hr Hfa target step.
  assert (Ht : lo <= target <= hi) by (unfold target; split; nra).
  unfold Js.gtb, Js.ltb.
  destruct (Rlt_dec rise step); [unfold step in *; lra |].
  destruct (Rlt_dec step (- fall)); [unfold step in *; lra | exact Ht].
Qed.

Lemma follow_range (a d f lo hi : R) :
  lo <= a <= hi -> lo <= d <= hi -> 0 <= f <= 1 -> lo <= a + (d - a) * f <= hi.
Proof. intros Ha Hd Hf. split; nra. Qed.

Lemma colorGainRaw_range (morph blend : R) :
  0.62 <= mix (1.0 - 0.08 * (1 - smoothstep 0.0 0.24 morph))
              (1.2 + 0.14 * (1 - smoothstep 0.0 0.24 morph)) blend <= 1.34.
Proof.
  pose proof (smoothstep_range 0.0 0.24 morph). apply mix_bounds; lra.
Qed.

Lemma targetScaleRaw_range (morph : R) (dispersing : bool) :
  1 <= 1.0 + 0.22 * easeInOutCubic morph * smoothstep 0.03 0.18 morph
       + 0.26 * (if negb dispersing then 1 - smoothstep 0.0 0.28 morph else 0) <= 1.48.
Proof.
  pose proof (easeInOutCubic_range morph) as He.
  pose proof (smoothstep_range 0.03 0.18 morph) as Hg.
  pose proof (smoothstep_range 0.0 0.28 morph) as Hf.
  assert (0 <= easeInOutCubic morph * smoothstep 0.03 0.18 morph <= 1) by nra.
  destruct (negb dispersing); lra.
Qed.

(** A tick keeps the applied gain in range. *)
Lemma tick_gain_range (nowMs : R) (s : State) :
  bridgesIdle s ->
  0.62 <= colorGainApplied s <= 1.34 ->
  0.62 <= colorGainApplied (updateAnimationUniforms nowMs s) <= 1.34.
Proof.
  intros [Hl _] Hg. unfold updateAnimationUniforms.
  destruct (customUniforms s) as [u |]; [| exact Hg].
  cbn [colorGainApplied]. rewrite Hl.
  pose proof (dtAt_range nowMs s) as Hdt.
  unfold colorRisePerSecond, colorFallPerSecond.
  apply limited_follow_range; try lra.
  - set (morph := morphOf (animationMode s) (elapsedSecondsAt nowMs s)).
    unfold modelRevealStartGain.
    repeat match goal with
           | |- context [if ?c then _ else _] =>
               lazymatch c with
               | context [if _ then _ else _] => fail
               | _ => destruct c
               end
           end;
      try lra; try (apply mix_bounds; lra); try apply colorGainRaw_range.
  - pose proof (exp_follow_range (dtAt nowMs s) 0.18 ltac:(lra) ltac:(lra)). lra.
Qed.

(** A tick keeps the applied scale in range. *)
Lemma tick_scale_range (nowMs : R) (s : State) :
  bridgesIdle s ->
  0.84 <= scaleApplied s <= 1.7464 ->
  0.84 <= scaleApplied (updateAnimationUniforms nowMs s) <= 1.7464.
Proof.
  intros [_ Hs] Hg. unfold updateAnimationUniforms.
  destruct (customUniforms s) as [u |]; [| exact Hg].
  cbn [scaleApplied]. rewrite Hs.
  pose proof (dtAt_range nowMs s) as Hdt.
  apply follow_range; [exact Hg | |].
  - set (morph := morphOf (animationMode s) (elapsedSecondsAt nowMs s)).
    set (dispersing := dispersingOf (animationMode s) (elapsedSecondsAt nowMs s)).
    pose proof (targetScaleRaw_range morph dispersing) as Hraw.
    unfold modelRevealStartScale.
    assert (Hmin : 0.84 <= Rmin (scaleApplied s) 0.9 <= 1.7464).
    { split; [apply Rmin_glb; lra |].
      apply Rle_trans with 0.9; [apply Rmin_r | lra]. }
    repeat match goal with
           | |- context [if ?c then _ else _] =>
               lazymatch c with
               | context [if _ then _ else _] => fail
               | _ => destruct c
               end
           end;
      try lra;
      try (apply mix_bounds; lra);
      try (match goal with
           | |- _ <= mix ?a 1.0 ?h * 1.18 <= _ =>
               assert (1 <= mix a 1.0 h <= 1.48) by (apply mix_bounds; lra); lra
           end).
  - pose proof (exp_follow_range (dtAt nowMs s) 0.1 ltac:(lra) ltac:(lra)). lra.
Qed.

Lemma applyAnimationStyle_blend (reset : bool) (s : State) :
  colorGainApplied (applyAnimationStyle reset s) = colorGainApplied s /\
  scaleApplied (applyAnimationStyle reset s) = scaleApplied s.
Proof.
  unfold applyAnimationStyle. destruct (splatMesh s); [| split; reflexivity].
  destruct (isNone (animationMode s) || reset); split; reflexivity.
Qed.

Lemma inRange_tick (nowMs : R) (s : State) :
  bridgesIdle s -> Blend.inRange s -> Blend.inRange (updateAnimationUniforms nowMs s).
Proof.
  intros Hb [Hg Hs]. split; [apply tick_gain_range | apply tick_scale_range]; assumption.
Qed.

Lemma inRange_applyAnimationStyle (reset : bool) (s : State) :
  Blend.inRange s -> Blend.inRange (applyAnimationStyle reset s).
Proof.
  unfold Blend.inRange. destruct (applyAnimationStyle_blend reset s) as [-> ->]. auto.
Qed.

Lemma reachable_inRange (s : State) : reachable s -> Blend.inRange s.
Proof.
  intros Hs.
  induction Hs as [mobile now0 now1 | s mode now0 now1 now2 Hs IH | s nowMs Hs IH
                  | s Hs IH Hd | s scene now0 now1 now2 Hs IH Hd | s Hs IH].
  - unfold Blend.inRange. cbn. lra.
  - unfold setAnimation. apply inRange_tick.
    + apply applyAnimationStyle_bridgesIdle, setAnimationFields_bridgesIdle,
        reachable_bridgesIdle, Hs.
    + apply inRange_applyAnimationStyle. destruct IH as [Hg Hsc].
      unfold Blend.inRange, setAnimationFields. cbn [colorGainApplied scaleApplied].
      destruct (isNone (resolve mode)); lra.
  - unfold update. destruct (disposed s); [exact IH |].
    apply inRange_tick; [apply reachable_bridgesIdle, Hs | exact IH].
  - exact IH.
  - unfold loadComplete. destruct (ls_material scene).
    + apply inRange_tick; [apply applyAnimationStyle_bridgesIdle; split; reflexivity |].
      apply inRange_applyAnimationStyle. unfold Blend.inRange. cbn. lra.
    + exact IH.
    + apply inRange_tick; [apply applyAnimationStyle_bridgesIdle; split; reflexivity |].
      apply inRange_applyAnimationStyle. unfold Blend.inRange. cbn. lra.
  - unfold dispose. destruct (disposed s); exact IH.
Qed.

(** X5. In every state the controller can reach, the applied colour gain
    is between 0.62 and 1.34 and the applied splat scale between 0.84 and
    1.7464 (= 1.48 * 1.18): the exponential follow and the rate limit never
    carry either value outside the span of its targets. *)
Theorem blend_state_stays_in_range :
  forall s : State,
    reachable s ->
    0.62 <= colorGainApplied s <= 1.34 /\
    0.84 <= scaleApplied s <= 1.7464.
Proof.
  intros s Hs. exact (reachable_inRange s Hs).
Qed.

End BlendRange.

Section NeutralReset.
Import ModeRegistry Controller.
Local Open Scope R_scope.

Lemma clock_of_none (mode : ModeValue) (t : R) :
  isNone mode = true -> morphOf mode t = 0 /\ dispersingOf mode t = false.
Proof. intros H. unfold morphOf, dispersingOf. rewrite H. split; reflexivity. Qed.

(** A tick in mode none, from neutral gain and scale. *)
Lemma tick_none_neutral (nowMs : R) (s : State) :
  isNone (animationMode s) = true ->
  colorGainApplied s = 1 -> scaleApplied s = 1 ->
  luminanceBridgeActive s = false -> scaleBridgeActive s = false ->
  let s' := updateAnimationUniforms nowMs s in
  colorGainApplied s' = 1 /\ scaleApplied s' = 1 /\
  luminanceBridgeActive s' = false /\ scaleBridgeActive s' = false /\
  (forall u, customUniforms s = Some u ->
     exists u', customUniforms s' = Some u' /\
                u_morph u' = 0 /\ u_strength u' = 0 /\ u_mode u' = 0%Z /\ u_colorGain u' = 1) /\
  (forall m, splatMesh s = Some m -> pointCloudEnabled s = false ->
     pointCloudEnabled s' = false /\
     (splatMesh s' = Some m \/ splatMesh s' = Some (setSplatScale 1 m))).
Proof.
  intros Hmode Hg Hsc Hl Hs s'. unfold s', updateAnimationUniforms.
  destruct (clock_of_none (animationMode s) (elapsedSecondsAt nowMs s) Hmode) as [Hmorph Hdisp].
  pose proof (dtAt_range nowMs s) as Hdt.
  destruct (customUniforms s) as [u |] eqn:Hu.
  - cbn [colorGainApplied scaleApplied luminanceBridgeActive scaleBridgeActive
         customUniforms pointCloudEnabled splatMesh u_morph u_strength u_mode u_colorGain].
    rewrite Hmode, Hmorph, Hdisp, Hg, Hsc. cbn [negb andb].
    unfold colorRisePerSecond, colorFallPerSecond.
    set (dt := dtAt nowMs s) in *.
    assert (Hgain : (if Js.gtb (1 + (1.0 - 1) * (1 - exp (- dt / 0.18)) - 1) (0.35 * dt)
                     then 1 + 0.35 * dt
                     else if Js.ltb (1 + (1.0 - 1) * (1 - exp (- dt / 0.18)) - 1) (- (1.8 * dt))
                          then 1 - 1.8 * dt
                          else 1 + (1.0 - 1) * (1 - exp (- dt / 0.18))) = 1).
    { unfold Js.gtb, Js.ltb.
      destruct (Rlt_dec (0.35 * dt) _); [lra |].
      destruct (Rlt_dec _ (- (1.8 * dt))); lra. }
    rewrite Hgain.
    assert (Hscale : 1 + (1.0 - 1) * (1 - exp (- dt / 0.1)) = 1) by lra.
    rewrite Hscale.
    split; [reflexivity |]. split; [reflexivity |].
    split; [reflexivity |]. split; [reflexivity |]. split.
    + intros u0 _. eexists. split; [reflexivity |].
      cbn [u_morph u_strength u_mode u_colorGain].
      repeat split; try reflexivity.
      destruct (animationMode s) as [[] | k]; try discriminate Hmode; reflexivity.
    + intros m Hm Hpc. rewrite Hm, Hpc. cbn [negb andb Bool.eqb option_map].
      assert (Htarget : (if Js.leb 0 (pointCloudExitMorph + 0.03) then false else false) = false)
        by (destruct (Js.leb 0 (pointCloudExitMorph + 0.03)); reflexivity).
      rewrite Htarget. cbn [Bool.eqb option_map]. split; [reflexivity |].
      right. reflexivity.
  - rewrite Hu. split; [exact Hg |]. split; [exact Hsc |].
    split; [exact Hl |]. split; [exact Hs |]. split.
    + intros u Habs. discriminate Habs.
    + intros m Hm Hpc. split; [exact Hpc |]. left. exact Hm.
Qed.

(** X6. [setAnimation] with a name that resolves to none ("none", "off", an
    unknown name, the empty name) puts the blend state back to neutral
    whatever the clock says: gain 1, scale 1, no bridge, the uniforms at
    morph 0, strength 0, mode 0, gain 1; and with a mesh present the point
    cloud is off and the mesh, where it has the setters, is in assembled
    mode at scale 1. *)
Theorem setAnimation_none_is_neutral :
  forall (s : State) (mode : string) (now0 now1 now2 : R),
    isNone (resolve mode) = true ->
    let s' := setAnimation mode now0 now1 now2 s in
    colorGainApplied s' = 1 /\ scaleApplied s' = 1 /\
    luminanceBridgeActive s' = false /\ scaleBridgeActive s' = false /\
    (forall u, customUniforms s = Some u ->
       exists u', customUniforms s' = Some u' /\
                  u_morph u' = 0 /\ u_strength u' = 0 /\ u_mode u' = 0%Z /\
                  u_colorGain u' = 1) /\
    (forall m, splatMesh s = Some m ->
       pointCloudEnabled s' = false /\
       exists m', splatMesh s' = Some m' /\
                  (hasSetPointCloudModeEnabled m = true -> meshPointCloudMode m' = false) /\
                  (hasSetSplatScale m = true -> meshSplatScale m' = 1)).
Proof.
  intros s mode now0 now1 now2 Hnone s'.
  set (s0 := setAnimationFields mode now0 now1 s).
  set (s1 := applyAnimationStyle true s0).
  assert (Hmode1 : animationMode s1 = resolve mode)
    by (unfold s1; rewrite applyAnimationStyle_animationMode; reflexivity).
  destruct (applyAnimationStyle_blend true s0) as [Hg1 Hsc1]. fold s1 in Hg1, Hsc1.
  assert (Hg0 : colorGainApplied s0 = 1)
    by (unfold s0, setAnimationFields; cbn [colorGainApplied]; rewrite Hnone; reflexivity).
  assert (Hsc0 : scaleApplied s0 = 1)
    by (unfold s0, setAnimationFields; cbn [scaleApplied]; rewrite Hnone; reflexivity).
  assert (Hidle0 : bridgesIdle s0).
  { unfold bridgesIdle, s0, setAnimationFields.
    cbn [luminanceBridgeActive scaleBridgeActive]. rewrite Hnone. split; reflexivity. }
  destruct (applyAnimationStyle_bridgesIdle true s0 Hidle0) as [Hl1 Hs1]. fold s1 in Hl1, Hs1.
  assert (Hnone1 : isNone (animationMode s1) = true) by (rewrite Hmode1; exact Hnone).
  destruct (tick_none_neutral now2 s1 Hnone1 ltac:(congruence) ltac:(congruence) Hl1 Hs1)
    as (Hg & Hsc & Hl & Hsb & Hun & Hmesh).
  fold s1 in Hg, Hsc, Hl, Hsb, Hun, Hmesh.
  change s' with (updateAnimationUniforms now2 s1).
  split; [exact Hg |]. split; [exact Hsc |]. split; [exact Hl |]. split; [exact Hsb |].
  split.
  - intros u Hu. apply (Hun u).
    unfold s1, applyAnimationStyle. cbn [splatMesh s0 setAnimationFields].
    destruct (splatMesh s); [| exact Hu].
    destruct (_ || true); exact Hu.
  - intros m Hm.
    assert (Hs1m : splatMesh s1 = Some (setSplatScale 1.0 (setPointCloudModeEnabled false m))
                   /\ pointCloudEnabled s1 = false).
    { unfold s1, applyAnimationStyle. cbn [splatMesh s0 setAnimationFields]. rewrite Hm.
      rewrite orb_true_r. split; reflexivity. }
    destruct Hs1m as [Hs1m Hpc1].
    destruct (Hmesh _ Hs1m Hpc1) as [Hpc Hm'].
    split; [exact Hpc |].
    assert (Hfields : forall m0,
               m0 = setSplatScale 1.0 (setPointCloudModeEnabled false m) \/
               m0 = setSplatScale 1 (setSplatScale 1.0 (setPointCloudModeEnabled false m)) ->
               (hasSetPointCloudModeEnabled m = true -> meshPointCloudMode m0 = false) /\
               (hasSetSplatScale m = true -> meshSplatScale m0 = 1)).
    { intros m0 [-> | ->]; unfold setSplatScale, setPointCloudModeEnabled;
        destruct (hasSetPointCloudModeEnabled m), (hasSetSplatScale m); cbn;
        split; intros; try discriminate; try reflexivity; lra. }
    destruct Hm' as [Hm' | Hm']; eexists; (split; [exact Hm' |]); apply Hfields; auto.
Qed.

End NeutralReset.

Section KernelBounds.
Import ModeRegistry Controller.
Local Open Scope R_scope.

Lemma clamp_low (x : R) : x <= 0 -> Kernel.clamp x 0 1 = 0.
Proof.
  intros H. unfold Kernel.clamp. rewrite Rmax_right by exact H. apply Rmin_left. lra.
Qed.

Lemma vmix_zero (a b : Kernel.vec3) : Kernel.vmix a b 0 = a.
Proof. apply vec3_eq; unfold Kernel.vmix, Kernel.gl_mix; cbn; ring. Qed.

(** The kernel leaves an element in place when the mode index is not
    positive or the morph is not positive. *)
Lemma splatCenter_at_rest (u : CustomUniformRefs) (c b : Kernel.vec3) (i : nat) :
  (u_mode u <= 0)%Z \/ u_morph u <= 0 -> Kernel.splatCenter u c i b = b.
Proof.
  intros H. unfold Kernel.splatCenter.
  destruct (0 <? u_mode u)%Z eqn:Hm; [| reflexivity].
  apply Z.ltb_lt in Hm. destruct H as [H | H]; [lia |].
  unfold Kernel.morphIn. rewrite (clamp_low _ H). apply vmix_zero.
Qed.

Lemma morphOf_at_0 (mode : ModeValue) : morphOf mode 0 = 0.
Proof.
  destruct (isNone mode) eqn:Hm.
  - apply (clock_of_none mode 0 Hm).
  - rewrite morphOf_spec by (assumption || lra). apply spec_morph_0.
Qed.

(** X7. The patched shader leaves every element at its base position
    whenever the published mode index is 0 or the published morph is 0; in
    particular right after [setAnimation], whose tick runs at elapsed time
    0: switching the mode does not move anything in the frame of the
    switch. *)
Theorem switching_mode_moves_nothing :
  (forall (u : CustomUniformRefs) (c b : Kernel.vec3) (i : nat),
      (u_mode u <= 0)%Z \/ u_morph u <= 0 -> Kernel.splatCenter u c i b = b) /\
  (forall (s : State) (mode : string) (nowMs : R) (u : CustomUniformRefs),
      customUniforms (Blend.switchAt mode nowMs s) = Some u ->
      u_morph u = 0 /\
      forall (c b : Kernel.vec3) (i : nat), Kernel.splatCenter u c i b = b).
Proof.
  split; [intros; apply splatCenter_at_rest; assumption |].
  intros s mode nowMs u Hu. unfold Blend.switchAt, setAnimation in Hu.
  set (s1 := applyAnimationStyle true (setAnimationFields mode nowMs nowMs s)) in *.
  destruct (customUniforms s1) as [u1 |] eqn:Hu1.
  - destruct (tick_uniforms nowMs s1 u1 Hu1) as (u' & Hu' & _ & _ & Hm & _).
    rewrite Hu in Hu'. injection Hu' as <-.
    assert (Hel : elapsedSecondsAt nowMs s1 = 0).
    { unfold elapsedSecondsAt, s1. rewrite applyAnimationStyle_animationStartTime.
      cbn [animationStartTime setAnimationFields]. lra. }
    rewrite Hel, morphOf_at_0 in Hm. split; [exact Hm |].
    intros c b i. apply splatCenter_at_rest. right. lra.
  - unfold updateAnimationUniforms in Hu. rewrite Hu1 in Hu. congruence.
Qed.

(** The uniforms a tick publishes give the kernel a strength in [0,1]
    and a radius of at least 0.25. *)
Lemma tick_strength_range (nowMs : R) (s : State) (u : CustomUniformRefs) :
  customUniforms (updateAnimationUniforms nowMs s) = Some u ->
  customUniforms s <> None ->
  0 <= Kernel.strengthIn u <= 1 /\ 0.25 <= u_radius u /\
  u_mode u = animationModeToInt (animationMode s).
Proof.
  intros Hu Hs. destruct (customUniforms s) as [u0 |] eqn:Hu0; [| contradiction].
  destruct (tick_uniforms nowMs s u0 Hu0) as (u' & Hu' & _ & Hmode & Hm & Hst & Hr).
  rewrite Hu in Hu'. injection Hu' as <-.
  pose proof (morphOf_range (animationMode s) (elapsedSecondsAt nowMs s)) as Hrange.
  rewrite <- Hm in Hrange.
  split; [| split; [rewrite Hr; apply Rmax_r | exact Hmode]].
  unfold Kernel.strengthIn, Kernel.morphIn. rewrite clamp_id by exact Hrange.
  assert (Hg : 0 <= Kernel.gl_smoothstep 0.12 0.35 (u_morph u) <= 1).
  { split; [apply gl_smoothstep_nonneg |].
    unfold Kernel.gl_smoothstep.
    destruct (clamp_range ((u_morph u - 0.12) / (0.35 - 0.12))) as [H0 H1].
    set (t := Kernel.clamp _ 0 1) in *.
    assert (H : 1 - t * t * (3 - 2 * t) = (1 - t) * (1 - t) * (1 + 2 * t)) by ring.
    assert (0 <= (1 - t) * (1 - t) * (1 + 2 * t)) by (apply Rmult_le_pos; nra). lra. }
  assert (Hs0 : 0 <= u_strength u <= 1).
  { rewrite Hst, <- Hm. destruct (isNone (animationMode s)); lra. }
  set (a := u_strength u) in *. set (m := u_morph u) in *.
  set (g := Kernel.gl_smoothstep 0.12 0.35 m) in *.
  assert (0 <= a * m <= 1) by nra. split; nra.
Qed.

Lemma length_le_one_normalize (v : Kernel.vec3) : Kernel.length (Kernel.normalize v) <= 1.
Proof.
  destruct (Req_dec_T (Kernel.length v) 0) as [Hz | Hnz].
  - unfold Kernel.normalize. rewrite length_scale.
    + rewrite Hz. lra.
    + rewrite Hz. rewrite Rinv_0. lra.
  - rewrite length_normalize by exact Hnz. lra.
Qed.

(** X8. In mode explode, with the uniforms of any tick, the explode branch
    moves an element by at most 0.28 times the published radius
    ([max(sceneRadius, 0.25)]), wherever the element is and whatever the
    time. *)
Theorem explode_term_bounded :
  forall (s : State) (nowMs : R) (u : CustomUniformRefs)
         (c b : Kernel.vec3) (i : nat),
    customUniforms (updateAnimationUniforms nowMs s) = Some u ->
    customUniforms s <> None ->
    animationMode s = Canon explode ->
    u_radius u = Rmax (sceneRadius s) 0.25 /\
    Kernel.length (Kernel.modeTerm u c i b) <= 0.28 * u_radius u.
Proof.
  intros s nowMs u c b i Hu Hs Hmode.
  destruct (tick_strength_range nowMs s u Hu Hs) as (Hst & Hr & Hm).
  rewrite Hmode in Hm. cbn in Hm.
  split.
  { destruct (customUniforms s) as [u0 |] eqn:Hu0; [| contradiction].
    destruct (tick_uniforms nowMs s u0 Hu0) as (u' & Hu' & _ & _ & _ & _ & Hrad).
    rewrite Hu in Hu'. injection Hu' as <-. exact Hrad. }
  rewrite modeTerm_explode by exact Hm.
  assert (Hb : 0 <= Kernel.burstOf (Kernel.phaseIn u i) <= 1).
  { unfold Kernel.burstOf, Rsqr.
    destruct (SIN_bound (Kernel.phaseIn u i * 0.8)) as [_ Hs1].
    assert (0 <= Rmax (sin (Kernel.phaseIn u i * 0.8)) 0 <= 1)
      by (split; [apply Rmax_r | apply Rmax_lub; lra]).
    nra. }
  set (burst := Kernel.burstOf _) in *. set (st := Kernel.strengthIn u) in *.
  assert (Hk : 0 <= burst * st * 0.28 * u_radius u <= 0.28 * u_radius u).
  { assert (0 <= burst * st <= 1) by nra. split; nra. }
  rewrite length_scale by lra.
  pose proof (length_le_one_normalize
                (Kernel.vadd (Kernel.vsub b c)
                   {| Kernel.vx := 0.0001; Kernel.vy := 0.0001; Kernel.vz := 0.0001 |})) as Hd.
  fold (Kernel.explodeDir (Kernel.vsub b c)) in Hd.
  pose proof (length_nonneg (Kernel.explodeDir (Kernel.vsub b c))) as Hd0.
  set (d := Kernel.length _) in *. nra.
Qed.

(** X9. In mode swirl the animated position is the base position turned
    about the vertical axis through the scene centre: its horizontal
    distance from that axis is the one of the base position. *)
Theorem swirl_keeps_axis_distance :
  forall (u : CustomUniformRefs) (c b : Kernel.vec3) (i : nat),
    u_mode u = 2%Z ->
    let a := Kernel.animatedCenter u c i b in
    (Kernel.vx a - Kernel.vx c) * (Kernel.vx a - Kernel.vx c)
    + (Kernel.vz a - Kernel.vz c) * (Kernel.vz a - Kernel.vz c)
    = (Kernel.vx b - Kernel.vx c) * (Kernel.vx b - Kernel.vx c)
      + (Kernel.vz b - Kernel.vz c) * (Kernel.vz b - Kernel.vz c).
Proof.
  intros u c b i Hm a. unfold a, Kernel.animatedCenter. rewrite Hm.
  cbn [Z.eqb Pos.eqb Kernel.vx Kernel.vz Kernel.vsub].
  set (fx := Kernel.vx b - Kernel.vx c). set (fz := Kernel.vz b - Kernel.vz c).
  match goal with |- context [cos ?t * sqrt ?r] => set (angle := t); set (q := r) end.
  assert (Hq : 0 <= q) by (unfold q; nra).
  pose proof (sqrt_def q Hq) as Hsq. pose proof (sin2_cos2 angle) as Htrig.
  unfold Rsqr in Htrig.
  replace (Kernel.vx c + cos angle * sqrt q - Kernel.vx c) with (cos angle * sqrt q) by ring.
  replace (Kernel.vz c + sin angle * sqrt q - Kernel.vz c) with (sin angle * sqrt q) by ring.
  replace (cos angle * sqrt q * (cos angle * sqrt q) + sin angle * sqrt q * (sin angle * sqrt q))
    with ((sin angle * sin angle + cos angle * cos angle) * (sqrt q * sqrt q)) by ring.
  rewrite Htrig, Hsq. unfold q. ring.
Qed.

(** X10. In mode breathe, with the uniforms of any tick, the animated
    position lies on the ray from the scene centre through the base
    position, at between 88% and 112% of the base distance. *)
Theorem breathe_scales_about_centre :
  forall (s : State) (nowMs : R) (u : CustomUniformRefs)
         (c b : Kernel.vec3) (i : nat),
    customUniforms (updateAnimationUniforms nowMs s) = Some u ->
    customUniforms s <> None ->
    animationMode s = Canon breath ->
    exists pulse,
      0.88 <= pulse <= 1.12 /\
      Kernel.animatedCenter u c i b = Kernel.vadd c (Kernel.vscale pulse (Kernel.vsub b c)).
Proof.
  intros s nowMs u c b i Hu Hs Hmode.
  destruct (tick_strength_range nowMs s u Hu Hs) as (Hst & _ & Hm).
  rewrite Hmode in Hm. cbn in Hm.
  exists (1.0 + sin (Kernel.phaseIn u i * 0.9) * 0.12 * Kernel.strengthIn u). split.
  - destruct (SIN_bound (Kernel.phaseIn u i * 0.9)) as [Hlo Hhi].
    set (sn := sin _) in *. set (st := Kernel.strengthIn u) in *.
    assert (-1 <= sn * st <= 1) by nra. split; lra.
  - unfold Kernel.animatedCenter. rewrite Hm. reflexivity.
Qed.

End KernelBounds.

Section MarkerExpiry.
Import Probe Markers.
Local Open Scope R_scope.

Lemma probeIfDue_life (f : Frame) (s : State) (px py : R) (b b' : FloatingBubbleEntry) :
  probeIfDue f s px py b = Returned b' ->
  spawnMs b' = spawnMs b /\ lifeMs b' = lifeMs b /\ kind b' = kind b.
Proof.
  unfold probeIfDue.
  destruct (Js.geb _ _); [| intros [= <-]; repeat split; reflexivity].
  destruct (isModelPixelCovered _ _ _ _ _ _ _ _); cbn [bind]; [| discriminate].
  intros [= <-]. repeat split; reflexivity.
Qed.

Lemma closeIfDue_life (now : R) (isActive : bool) (b : FloatingBubbleEntry) :
  spawnMs (closeIfDue now isActive b) = spawnMs b /\
  lifeMs (closeIfDue now isActive b) = lifeMs b /\
  kind (closeIfDue now isActive b) = kind b.
Proof.
  unfold closeIfDue. destruct (negb isActive && passed now (revealUntilMs b));
    repeat split; reflexivity.
Qed.

(** A tick changes neither the spawn time, nor the life time, nor the
    kind of a marker it keeps. *)
Lemma advanceBubble_life (f : Frame) (s : State) (id : nat) (b b' : FloatingBubbleEntry) :
  advanceBubble f s id b = Returned b' ->
  spawnMs b' = spawnMs b /\ lifeMs b' = lifeMs b /\ kind b' = kind b.
Proof.
  unfold advanceBubble. cbv zeta.
  match goal with |- context [if ?c then Returned _ else _] => destruct c end.
  - intros [= <-].
    match goal with |- context [closeIfDue ?n ?a ?x] =>
      destruct (closeIfDue_life n a x) as (-> & -> & ->) end.
    repeat split; reflexivity.
  - match goal with |- context [probeIfDue ?f ?s ?x ?y ?b0] =>
      destruct (probeIfDue f s x y b0) as [b3 |] eqn:Hp end; cbn [bind]; [| discriminate].
    apply probeIfDue_life in Hp. cbn [spawnMs lifeMs kind placed] in Hp.
    destruct Hp as (H1 & H2 & H3).
    match goal with |- context [if ?c then Returned _ else _] => destruct c end.
    + intros [= <-]. cbn [spawnMs lifeMs kind hidden]. auto.
    + intros [= <-].
      match goal with |- context [closeIfDue ?n ?a ?x] =>
        destruct (closeIfDue_life n a x) as (-> & -> & ->) end.
      cbn [spawnMs lifeMs kind shown]. auto.
Qed.

(** One iteration at an index keeps every later position not due. *)
Lemma stepBubble_kept (f : Frame) (i : nat) (s s' : State) :
  stepBubble f i s = Returned s' ->
  (forall j id, (i < j)%nat -> floatingBubbles s !! j = Some id -> Tick.kept f s id) ->
  forall j id, (i <= j)%nat -> floatingBubbles s' !! j = Some id -> Tick.kept f s' id.
Proof.
  unfold stepBubble. intros Hstep Hlater.
  destruct (floatingBubbles s !! i) as [id0 |] eqn:Hi.
  2:{ injection Hstep as <-. intros j id Hj Hjl.
      destruct (decide (j = i)) as [-> | Hne]; [congruence |].
      apply (Hlater j id); [lia | exact Hjl]. }
  destruct (heap s !! id0) as [b0 |] eqn:Hb0.
  2:{ injection Hstep as <-. intros j id Hj Hjl.
      destruct (decide (j = i)) as [-> | Hne].
      - rewrite Hi in Hjl. injection Hjl as <-. intros b Hb. congruence.
      - apply (Hlater j id); [lia | exact Hjl]. }
  destruct (Js.geb ((nowMs f - spawnMs b0) / lifeMs b0) 1
            && negb (bool_decide (activeTextBubble s = Some id0))) eqn:Hdue.
  - injection Hstep as <-. intros j id Hj Hjl. cbn [floatingBubbles withBubbles] in Hjl.
    rewrite list_lookup_delete_ge in Hjl by lia.
    intros b Hb. cbn [heap activeTextBubble withBubbles] in Hb |- *.
    exact (Hlater (S j) id ltac:(lia) Hjl b Hb).
  - destruct (advanceBubble f s id0 b0) as [b' |] eqn:Hadv; cbn [bind] in Hstep;
      [| discriminate].
    injection Hstep as <-.
    destruct (advanceBubble_life f s id0 b0 b' Hadv) as (Hsp & Hli & _).
    assert (Hid0 : Tick.kept f s id0).
    { intros b Hb. rewrite Hb0 in Hb. injection Hb as <-.
      apply andb_false_iff in Hdue. destruct Hdue as [Hr | Ha].
      - left. unfold Tick.expired. unfold Js.geb, Js.leb in Hr.
        destruct (Rle_dec 1 ((nowMs f - spawnMs b0) / lifeMs b0)); [discriminate | assumption].
      - right. apply negb_false_iff, bool_decide_eq_true in Ha. exact Ha. }
    intros j id Hj Hjl b Hb.
    cbn [floatingBubbles heap activeTextBubble withBubbles] in Hjl, Hb |- *.
    destruct (decide (id0 = id)) as [<- | Hne].
    + rewrite lookup_insert_eq in Hb. injection Hb as <-.
      destruct (Hid0 b0 Hb0) as [Hk | Hk]; [left | right; exact Hk].
      unfold Tick.expired in *. rewrite Hsp, Hli. exact Hk.
    + rewrite lookup_insert_ne in Hb by exact Hne.
      destruct (decide (j = i)) as [-> | Hji]; [congruence |].
      exact (Hlater j id ltac:(lia) Hjl b Hb).
Qed.

Lemma bubbleLoop_kept (f : Frame) (n : nat) (s s' : State) :
  bubbleLoop f n s = Returned s' ->
  (forall j id, (n <= j)%nat -> floatingBubbles s !! j = Some id -> Tick.kept f s id) ->
  forall j id, floatingBubbles s' !! j = Some id -> Tick.kept f s' id.
Proof.
  revert s. induction n as [| i IH]; intros s; cbn [bubbleLoop].
  - intros [= <-] H j id Hj. apply (H j id); [lia | exact Hj].
  - destruct (stepBubble f i s) as [s1 |] eqn:Hstep; cbn [bind]; [| discriminate].
    intros Hloop Hlater. apply (IH s1 Hloop).
    apply (stepBubble_kept f i s s1 Hstep).
    intros j id Hj. apply Hlater. lia.
Qed.

Lemma runs_past_returns (f : Frame) (s : State) :
  Tick.runs f s ->
  (negb (bubbleLayer s) || negb (bubblesEnabledForModel s)) = false /\
  (perfEqb (performanceLevel s) low
   && Js.ltb (nowMs f - lastBubbleTickMs s) lowBubbleTickIntervalMs) = false.
Proof.
  intros (Hl & He & Hp). rewrite Hl, He. split; [reflexivity |].
  destruct Hp as [-> | Hp]; [reflexivity |].
  rewrite ltb_false by exact Hp. apply andb_false_r.
Qed.

Lemma tick_listed_kept (f : Frame) (s s' : State) :
  Tick.runs f s ->
  updateFloatingBubbles f s = Returned s' ->
  forall id b,
    In id (floatingBubbles s') -> heap s' !! id = Some b ->
    (nowMs f - spawnMs b) / lifeMs b < 1 \/ activeTextBubble s' = Some id.
Proof.
  intros Hruns Htick id b Hin Hb.
  destruct (runs_past_returns f s Hruns) as [H1 H2].
  unfold updateFloatingBubbles in Htick. rewrite H1, H2 in Htick. cbv zeta in Htick.
  match type of Htick with
  | (if (List.length (floatingBubbles ?s2) =? 0)%nat then _ else _) = _ =>
      set (st2 := s2) in *
  end.
  destruct (List.length (floatingBubbles st2) =? 0)%nat eqn:Hlen.
  - injection Htick as <-. apply Nat.eqb_eq in Hlen.
    destruct (floatingBubbles st2); [contradiction | discriminate].
  - apply list_elem_of_In, list_elem_of_lookup in Hin. destruct Hin as [j Hj].
    assert (Hkept : Tick.kept f s' id).
    { apply (bubbleLoop_kept f _ st2 s' Htick) with (j := j); [| exact Hj].
      intros k id' Hk Hlk. apply lookup_lt_Some in Hlk. lia. }
    destruct (Hkept b Hb) as [Hk | Hk]; [left | right; exact Hk].
    unfold Tick.expired in Hk. lra.
Qed.

(** X11. A tick that runs leaves no expired marker in the list except the
    active one: every marker still listed afterwards has [lifeRatio < 1] at
    the time of the tick, or is [activeTextBubble]. *)
Theorem expired_markers_are_removed :
  forall (f : Frame) (s s' : State),
    Tick.runs f s ->
    updateFloatingBubbles f s = Returned s' ->
    forall id b,
      In id (floatingBubbles s') -> heap s' !! id = Some b ->
      (nowMs f - spawnMs b) / lifeMs b < 1 \/ activeTextBubble s' = Some id.
Proof.
  intros f s s'. exact (tick_listed_kept f s s').
Qed.

End MarkerExpiry.

Section MarkerTickFrame.
Import Probe Markers.
Local Open Scope R_scope.

(** What one loop iteration does to the rest of the state. *)
Lemma stepBubble_frame (f : Frame) (i : nat) (s s' : State) :
  stepBubble f i s = Returned s' ->
  activeTextBubble s' = activeTextBubble s /\
  nextId s' = nextId s /\
  floatingBubbles s' `sublist_of` floatingBubbles s /\
  (forall id b, heap s !! id = Some b ->
     exists b', heap s' !! id = Some b' /\
                spawnMs b' = spawnMs b /\ lifeMs b' = lifeMs b /\ kind b' = kind b) /\
  (forall id, is_Some (heap s' !! id) -> is_Some (heap s !! id)).
Proof.
  unfold stepBubble. intros Hstep.
  assert (Hsame : forall t : State, t = s ->
            activeTextBubble t = activeTextBubble s /\ nextId t = nextId s /\
            floatingBubbles t `sublist_of` floatingBubbles s /\
            (forall id b, heap s !! id = Some b ->
               exists b', heap t !! id = Some b' /\
                          spawnMs b' = spawnMs b /\ lifeMs b' = lifeMs b /\ kind b' = kind b) /\
            (forall id, is_Some (heap t !! id) -> is_Some (heap s !! id))).
  { intros t ->. repeat split; try reflexivity; eauto. }
  destruct (floatingBubbles s !! i) as [id0 |]; [| injection Hstep as <-; auto].
  destruct (heap s !! id0) as [b0 |] eqn:Hb0; [| injection Hstep as <-; auto].
  match type of Hstep with (if ?c then _ else _) = _ => destruct c end.
  - injection Hstep as <-. cbn [activeTextBubble nextId floatingBubbles heap withBubbles].
    repeat split; try reflexivity; eauto using sublist_delete.
  - destruct (advanceBubble f s id0 b0) as [b' |] eqn:Hadv; cbn [bind] in Hstep;
      [| discriminate].
    injection Hstep as <-. cbn [activeTextBubble nextId floatingBubbles heap withBubbles].
    destruct (advanceBubble_life f s id0 b0 b' Hadv) as (Hsp & Hli & Hk).
    repeat split; try reflexivity.
    + intros id b Hb. destruct (decide (id0 = id)) as [<- | Hne].
      * rewrite lookup_insert_eq. exists b'. rewrite Hb0 in Hb. injection Hb as <-. auto.
      * rewrite lookup_insert_ne by exact Hne. exists b. auto.
    + intros id Hid. destruct (decide (id0 = id)) as [<- | Hne].
      * rewrite Hb0. eexists; reflexivity.
      * rewrite lookup_insert_ne in Hid by exact Hne. exact Hid.
Qed.

Lemma bubbleLoop_frame (f : Frame) (n : nat) (s s' : State) :
  bubbleLoop f n s = Returned s' ->
  activeTextBubble s' = activeTextBubble s /\
  nextId s' = nextId s /\
  floatingBubbles s' `sublist_of` floatingBubbles s /\
  (forall id b, heap s !! id = Some b ->
     exists b', heap s' !! id = Some b' /\
                spawnMs b' = spawnMs b /\ lifeMs b' = lifeMs b /\ kind b' = kind b) /\
  (forall id, is_Some (heap s' !! id) -> is_Some (heap s !! id)).
Proof.
  revert s. induction n as [| i IH]; intros s; cbn [bubbleLoop].
  - intros [= <-]. repeat split; try reflexivity; eauto.
  - destruct (stepBubble f i s) as [s1 |] eqn:Hstep; cbn [bind]; [| discriminate].
    intros Hloop.
    destruct (stepBubble_frame f i s s1 Hstep) as (Ha1 & Hn1 & Hl1 & Hh1 & Hd1).
    destruct (IH s1 Hloop) as (Ha2 & Hn2 & Hl2 & Hh2 & Hd2).
    split; [congruence |]. split; [congruence |].
    split; [etransitivity; eassumption |]. split.
    + intros id b Hb. destruct (Hh1 id b Hb) as (b1 & Hb1 & E1 & E2 & E3).
      destruct (Hh2 id b1 Hb1) as (b2 & Hb2 & F1 & F2 & F3).
      exists b2. repeat split; congruence.
    + intros id Hid. apply Hd1, Hd2, Hid.
Qed.

(** The state a tick runs its marker loop on: after the spawn, if one is
    due. *)
Lemma tick_shape (f : Frame) (s s' : State) :
  updateFloatingBubbles f s = Returned s' ->
  s' = s \/
  exists s2,
    (s2 = withLastTick (nowMs f) s \/
     (activeTextBubble s = None /\
      s2 = scheduleNextBubble (nowMs f) (gapRoll f)
             (spawnFloatingBubble f (withLastTick (nowMs f) s)))) /\
    (s' = s2 \/ bubbleLoop f (List.length (floatingBubbles s2)) s2 = Returned s').
Proof.
  unfold updateFloatingBubbles. intros Htick.
  destruct (negb (bubbleLayer s) || negb (bubblesEnabledForModel s));
    [injection Htick as <-; left; reflexivity |].
  match type of Htick with (if ?c then _ else _) = _ => destruct c end;
    [injection Htick as <-; left; reflexivity |].
  cbv zeta in Htick. right.
  match type of Htick with
  | (if (List.length (floatingBubbles ?s2) =? 0)%nat then _ else _) = _ =>
      exists s2; split
  end.
  - cbn [activeTextBubble withLastTick].
    destruct (bool_decide (activeTextBubble s = None)) eqn:Ha; cbn [andb]; [| left; reflexivity].
    apply bool_decide_eq_true in Ha.
    match goal with |- context [if ?c then _ else _] => destruct c end;
      [right; split; [exact Ha | reflexivity] | left; reflexivity].
  - match type of Htick with (if ?c then _ else _) = _ => destruct c end;
      [injection Htick as <-; left; reflexivity | right; exact Htick].
Qed.

Lemma spawnFloatingBubble_frame (f : Frame) (s : State) :
  activeTextBubble (spawnFloatingBubble f s) = activeTextBubble s /\
  (forall id b, heap s !! id = Some b -> (id < nextId s)%nat ->
     heap (spawnFloatingBubble f s) !! id = Some b) /\
  (nextId s <= nextId (spawnFloatingBubble f s) <= S (nextId s))%nat /\
  (forall id, is_Some (heap (spawnFloatingBubble f s) !! id) ->
     is_Some (heap s !! id) \/ (id = nextId s /\ nextId (spawnFloatingBubble f s) = S id)).
Proof.
  unfold spawnFloatingBubble. destruct (negb (bubbleLayer s)).
  - repeat split; auto; lia.
  - cbn [activeTextBubble heap nextId]. repeat split; try lia.
    + intros id b Hb Hlt. rewrite lookup_insert_ne by lia. exact Hb.
    + intros id Hid. destruct (decide (nextId s = id)) as [<- | Hne]; [right; auto |].
      rewrite lookup_insert_ne in Hid by exact Hne. left. exact Hid.
Qed.

(** A tick keeps the active marker, and the spawn time, life time and
    kind of every bubble object. *)
Lemma tick_frame (f : Frame) (s s' : State) :
  updateFloatingBubbles f s = Returned s' ->
  Tick.allocated s ->
  activeTextBubble s' = activeTextBubble s /\
  Tick.allocated s' /\
  (forall id b, heap s !! id = Some b ->
     exists b', heap s' !! id = Some b' /\
                spawnMs b' = spawnMs b /\ lifeMs b' = lifeMs b /\ kind b' = kind b).
Proof.
  intros Htick Halloc.
  assert (Hkeep : forall id b, heap s !! id = Some b ->
            exists b', heap s !! id = Some b' /\
                       spawnMs b' = spawnMs b /\ lifeMs b' = lifeMs b /\ kind b' = kind b)
    by (intros id b Hb; exists b; auto).
  destruct (tick_shape f s s' Htick) as [-> | (s2 & Hs2 & Hs')]; [auto |].
  assert (H2 : activeTextBubble s2 = activeTextBubble s /\ Tick.allocated s2 /\
               (forall id b, heap s !! id = Some b -> heap s2 !! id = Some b)).
  { destruct Hs2 as [-> | [_ ->]]; [auto |].
    destruct (spawnFloatingBubble_frame f (withLastTick (nowMs f) s)) as (Ha & Hh & Hn & Hd).
    cbn [activeTextBubble heap nextId scheduleNextBubble withNextSpawn withLastTick] in *.
    split; [exact Ha |]. split.
    - intros id Hid. unfold scheduleNextBubble in *.
      cbn [heap nextId withNextSpawn] in *.
      destruct (Hd id Hid) as [Hold | [-> Hnew]]; [| lia].
      apply Halloc in Hold. lia.
    - intros id b Hb. unfold scheduleNextBubble. cbn [heap withNextSpawn].
      apply Hh; [exact Hb |]. apply Halloc. rewrite Hb. eexists; reflexivity. }
  destruct H2 as (Ha2 & Hal2 & Hh2).
  destruct Hs' as [-> | Hloop].
  - split; [exact Ha2 |]. split; [exact Hal2 |].
    intros id b Hb. exists b. auto.
  - destruct (bubbleLoop_frame f _ s2 s' Hloop) as (Ha & Hn & _ & Hh & Hd).
    split; [congruence |]. split.
    + intros id Hid. rewrite Hn. apply Hal2, Hd, Hid.
    + intros id b Hb. apply Hh, Hh2, Hb.
Qed.

Lemma dissipateBubble_allocated (now : R) (id : nat) (s : State) :
  Tick.allocated s -> Tick.allocated (dissipateBubble now id s).
Proof.
  intros Hal. destruct (heap s !! id) as [b |] eqn:Hb;
    [| rewrite dissipateBubble_missing by exact Hb; exact Hal].
  destruct (dissipateBubble_fields now id s b Hb) as (Hh & _ & _).
  intros i Hi. rewrite Hh in Hi.
  assert (Hn : nextId (dissipateBubble now id s) = nextId s).
  { unfold dissipateBubble. rewrite Hb. unfold spawnDustBurst.
    destruct (bubbleLayer s); cbn [activeTextBubble withBubbles withDust];
      destruct (bool_decide _); reflexivity. }
  rewrite Hn. apply Hal. destruct (decide (id = i)) as [<- | Hne].
  - rewrite Hb. eexists; reflexivity.
  - rewrite lookup_insert_ne in Hi by exact Hne. exact Hi.
Qed.

Lemma dissipateEach_allocated (now : R) (id : nat) (l : list nat) (s : State) :
  Tick.allocated s ->
  Tick.allocated (fold_left (fun acc other => if bool_decide (other = id) then acc
                                              else dissipateBubble now other acc) l s).
Proof.
  revert s. induction l as [| other rest IH]; intros s H; cbn [fold_left]; [exact H |].
  apply IH. destruct (bool_decide (other = id)); [exact H | apply dissipateBubble_allocated, H].
Qed.

Lemma activateTextBubble_allocated (now : R) (id : nat) (s : State) :
  Tick.allocated s -> Tick.allocated (activateTextBubble now id s).
Proof.
  intros Hal. unfold activateTextBubble, dissipateOthers.
  assert (Hrel : Tick.allocated (releaseActive now id s)).
  { unfold releaseActive. destruct (activeTextBubble s) as [a |]; [| exact Hal].
    destruct (bool_decide (a = id)); [exact Hal |].
    exact (dissipateBubble_allocated now a s Hal). }
  assert (Hclaim : Tick.allocated (claimActive id (releaseActive now id s))).
  { intros i Hi. unfold claimActive in Hi |- *. cbn [heap nextId withBubbles withActive] in *.
    apply Hrel. destruct (decide (id = i)) as [<- | Hne].
    - rewrite lookup_alter_eq in Hi. destruct (heap (releaseActive now id s) !! id);
        [eexists; reflexivity | destruct Hi; discriminate].
    - rewrite lookup_alter_ne in Hi by exact Hne. exact Hi. }
  exact (dissipateEach_allocated now id _ _ Hclaim).
Qed.

(** In every reachable state the identities in use are below [nextId]. *)
Lemma reachable_allocated (s : State) : reachable s -> Tick.allocated s.
Proof.
  induction 1 as [mobile | s layer messages now _ IH | s level _ IH
                 | s f s' _ IH Htick | s now id _ IH | s now0 now1 roll _ IH
                 | s now _ IH | s now _ IH | s now _ IH];
    try exact IH.
  - intros id Hid. cbn in Hid. rewrite lookup_empty in Hid. destruct Hid; discriminate.
  - unfold setPerformanceLevel. destruct (perfEqb _ _); exact IH.
  - apply (tick_frame f s s' Htick IH).
  - unfold click. destruct (heap s !! id) as [b |]; [| exact IH].
    destruct (kind b);
      [apply activateTextBubble_allocated | apply dissipateBubble_allocated]; exact IH.
  - unfold dismissActiveTextBubble. destruct (activeTextBubble s) as [a |]; [| exact IH].
    pose proof (dissipateBubble_allocated now0 a s IH) as H.
    match goal with |- context [if ?c then _ else _] => destruct c end; exact H.
Qed.

(** X12. A marker that was dissipated (clicked away, or swept aside by an
    activation) is gone from the list after the next tick that runs,
    provided its life time is positive and the clock has not gone back. *)
Theorem dissipated_marker_is_removed :
  forall (s s' : State) (now : R) (id : nat) (b : FloatingBubbleEntry) (f : Frame),
    reachable s ->
    heap s !! id = Some b ->
    0 < lifeMs b ->
    now <= nowMs f ->
    Tick.runs f (dissipateBubble now id s) ->
    updateFloatingBubbles f (dissipateBubble now id s) = Returned s' ->
    ~ In id (floatingBubbles s').
Proof.
  intros s s' now id b f Hs Hb Hlife Hnow Hruns Htick Hin.
  set (s1 := dissipateBubble now id s) in *.
  destruct (dissipateBubble_fields now id s b Hb) as (Hh & _ & Ha). fold s1 in Hh, Ha.
  assert (Hal : Tick.allocated s1)
    by (apply dissipateBubble_allocated, reachable_allocated, Hs).
  destruct (tick_frame f s1 s' Htick Hal) as (Hact & _ & Hkeep).
  assert (Hb1 : heap s1 !! id = Some (dissipated now b))
    by (rewrite Hh; apply lookup_insert_eq).
  destruct (Hkeep id _ Hb1) as (b' & Hb' & Hsp & Hli & _).
  cbn [spawnMs lifeMs dissipated] in Hsp, Hli.
  destruct (tick_listed_kept f s1 s' Hruns Htick id b' Hin Hb') as [Hyoung | Hactive].
  - rewrite Hsp, Hli in Hyoung.
    assert (Hge : 1 <= (nowMs f - (now - lifeMs b - 1)) / lifeMs b).
    { apply Rmult_le_reg_r with (lifeMs b); [exact Hlife |].
      unfold Rdiv. rewrite Rmult_assoc, Rinv_l by lra. lra. }
    lra.
  - rewrite Hact, Ha in Hactive.
    destruct (bool_decide (activeTextBubble s = Some id)) eqn:Hd; [discriminate |].
    apply bool_decide_eq_false in Hd. contradiction.
Qed.

(** X13. A tick never changes which marker is active, and while a marker
    is active it spawns nothing: no bubble object is created and the list
    of markers only loses entries. *)
Theorem no_spawn_while_active :
  forall (f : Frame) (s s' : State),
    updateFloatingBubbles f s = Returned s' ->
    activeTextBubble s' = activeTextBubble s /\
    (activeTextBubble s <> None ->
       nextId s' = nextId s /\
       floatingBubbles s' `sublist_of` floatingBubbles s).
Proof.
  intros f s s' Htick.
  destruct (tick_shape f s s' Htick) as [-> | (s2 & Hs2 & Hs')];
    [split; [reflexivity | intros _; split; reflexivity] |].
  assert (H2 : activeTextBubble s2 = activeTextBubble s /\
               (activeTextBubble s <> None ->
                  nextId s2 = nextId s /\ floatingBubbles s2 = floatingBubbles s)).
  { destruct Hs2 as [-> | [Hnone ->]].
    - split; [reflexivity | intros _; split; reflexivity].
    - destruct (spawnFloatingBubble_frame f (withLastTick (nowMs f) s)) as (Ha & _).
      split; [exact Ha | intros Habs; contradiction]. }
  destruct H2 as (Ha2 & Hn2).
  destruct Hs' as [-> | Hloop].
  - split; [exact Ha2 |]. intros Hact. destruct (Hn2 Hact) as [-> ->]. split; reflexivity.
  - destruct (bubbleLoop_frame f _ s2 s' Hloop) as (Ha & Hn & Hl & _).
    split; [congruence |]. intros Hact. destruct (Hn2 Hact) as [Hn' Hl'].
    split; [congruence | rewrite <- Hl'; exact Hl].
Qed.

(** X14. [scheduleNextBubble] puts the next spawn between [minGap] and
    [maxGap] after now (for a random draw in [0,1)), where the gaps are 230
    and 520 ms, scaled by 1.2 and 1.3 on mobile and both by 1.28 in the low
    tier; on every device that is at least 230 ms and less than 865.28 ms
    ahead. *)
Theorem next_spawn_gap_bounds :
  forall (s : State) (nowMs roll : R),
    0 <= roll < 1 ->
    exists t,
      nextBubbleSpawnMs (scheduleNextBubble nowMs roll s) = Finite t /\
      nowMs + Tick.minGap s <= t < nowMs + Tick.maxGap s /\
      230 <= Tick.minGap s /\ Tick.maxGap s <= 865.28.
Proof.
  intros s nowMs roll Hroll. unfold scheduleNextBubble. cbn [nextBubbleSpawnMs withNextSpawn].
  eexists. split; [reflexivity |].
  unfold Tick.minGap, Tick.maxGap, bubbleSpawnMinGapMs, bubbleSpawnMaxGapMs.
  destruct (isMobileLike s), (performanceLevel s);
    (rewrite Rmax_left by lra); repeat split; nra.
Qed.

End MarkerTickFrame.

Section BufferFacts.
Import Probe Markers Buffer.
Local Open Scope R_scope.

(** The pixel [readRenderAlpha] asks for lies inside the drawing buffer. *)
Lemma readRenderAlpha_agree (g1 g2 : GLContext) (x y : R) :
  agreeInside g1 g2 -> readRenderAlpha g1 x y = readRenderAlpha g2 x y.
Proof.
  intros (Hf & Hw & Hh & Hpx). unfold readRenderAlpha, callReadPixels.
  rewrite <- Hw, <- Hh, <- Hf. cbv zeta.
  destruct ((drawingBufferWidth g1 <? 2)%Z || (drawingBufferHeight g1 <? 2)%Z) eqn:Hsmall;
    [reflexivity |].
  apply orb_false_iff in Hsmall. destruct Hsmall as [H1 H2].
  apply Z.ltb_ge in H1, H2.
  destruct (readPixelsIsFunction g1); [| reflexivity].
  rewrite Hpx; [reflexivity |]. split; lia.
Qed.

Lemma anySampleCovered_agree (g1 g2 : GLContext) (baseX baseY : R) (offsets : list (R * R)) :
  agreeInside g1 g2 ->
  anySampleCovered g1 baseX baseY offsets = anySampleCovered g2 baseX baseY offsets.
Proof.
  intros Hagree. induction offsets as [| [dx dy] rest IH]; cbn [anySampleCovered];
    [reflexivity |].
  rewrite (readRenderAlpha_agree g1 g2 _ _ Hagree).
  destruct (readRenderAlpha g2 (baseX + dx) (baseY + dy)) as [a |]; cbn [bind];
    [| reflexivity].
  destruct (14 <? a)%Z; [reflexivity | exact IH].
Qed.

(** X15. The occlusion probe reads the drawing buffer only inside its
    bounds: what [readPixels] would do for a pixel outside them has no
    effect on the result of the probe. *)
Theorem probe_reads_inside_buffer :
  forall (g1 g2 : GLContext) (perf : PerfLevel) (mobile : bool) (w h x y r : R),
    agreeInside g1 g2 ->
    isModelPixelCovered (Some g1) perf mobile w h x y r =
    isModelPixelCovered (Some g2) perf mobile w h x y r.
Proof.
  intros g1 g2 perf mobile w h x y r Hagree.
  pose proof Hagree as (Hf & Hw & Hh & _).
  unfold isModelPixelCovered. rewrite <- Hf, <- Hw, <- Hh.
  destruct (negb (readPixelsIsFunction g1)); [reflexivity |].
  destruct ((drawingBufferWidth g1 <? 2)%Z || (drawingBufferHeight g1 <? 2)%Z);
    [reflexivity |].
  apply anySampleCovered_agree, Hagree.
Qed.

Lemma anySampleCovered_true_iff (gl : GLContext) (baseX baseY : R) (offsets : list (R * R)) :
  anySampleCovered gl baseX baseY offsets = Returned true <->
  exists dx dy, In (dx, dy) offsets /\ coveredAt gl (baseX + dx) (baseY + dy).
Proof.
  induction offsets as [| [dx dy] rest IH]; cbn [anySampleCovered].
  - split; [discriminate | intros (? & ? & [] & _)].
  - destruct (readRenderAlpha_returns gl (baseX + dx) (baseY + dy)) as [a Ha].
    rewrite Ha. cbn [bind]. destruct (14 <? a)%Z eqn:Hcmp.
    + split; [intros _ | reflexivity].
      exists dx, dy. split; [left; reflexivity |].
      exists a. split; [exact Ha | apply Z.ltb_lt, Hcmp].
    + rewrite IH. apply Z.ltb_ge in Hcmp. split.
      * intros (dx' & dy' & Hin & Hcov). exists dx', dy'. split; [right; exact Hin | exact Hcov].
      * intros (dx' & dy' & [Heq | Hin] & Hcov); [| exists dx', dy'; split; assumption].
        injection Heq as <- <-. destruct Hcov as (a' & Ha' & Hgt).
        rewrite Ha in Ha'. injection Ha' as <-. lia.
Qed.

(** X16. With a usable context, the probe answers "covered" exactly when
    one of the sample points of its pattern (five points, nine on a
    desktop in the high tier) reads an alpha above 14. *)
Theorem probe_covered_iff_some_sample :
  forall (gl : GLContext) (perf : PerfLevel) (mobile : bool) (w h x y r : R),
    readPixelsIsFunction gl = true ->
    (2 <= drawingBufferWidth gl)%Z ->
    (2 <= drawingBufferHeight gl)%Z ->
    let baseX := x / Rmax w 1 * IZR (drawingBufferWidth gl) in
    let baseY := y / Rmax h 1 * IZR (drawingBufferHeight gl) in
    let radius := Rmax 1 (r * (IZR (drawingBufferWidth gl) / Rmax w 1)) in
    isModelPixelCovered (Some gl) perf mobile w h x y r = Returned true <->
    exists dx dy, In (dx, dy) (sampleOffsets perf mobile radius) /\
                  coveredAt gl (baseX + dx) (baseY + dy).
Proof.
  intros gl perf mobile w h x y r Hf Hw Hh. cbv zeta.
  unfold isModelPixelCovered. rewrite Hf. cbn [negb].
  assert (Hbig : ((drawingBufferWidth gl <? 2)%Z || (drawingBufferHeight gl <? 2)%Z) = false).
  { apply orb_false_iff. split; apply Z.ltb_ge; assumption. }
  rewrite Hbig. apply anySampleCovered_true_iff.
Qed.

End BufferFacts.

Section TextCap.
Import Probe Markers Census.
Local Open Scope R_scope.

Lemma fold_count (h : gmap nat FloatingBubbleEntry) (l : list nat) (n : nat) :
  fold_left (fun count id => (count + (if isText h id then 1 else 0))%nat) l n =
  (n + List.length (List.filter (isText h) l))%nat.
Proof.
  revert n. induction l as [| x rest IH]; intros n; cbn [fold_left List.filter].
  - cbn. lia.
  - rewrite IH. destruct (isText h x); cbn [List.length]; lia.
Qed.

Lemma textCount_filter (s : State) :
  textCount s = List.length (List.filter (isText (heap s)) (floatingBubbles s)).
Proof. unfold textCount. rewrite fold_count. lia. Qed.

Lemma filter_sublist_length (h h' : gmap nat FloatingBubbleEntry) (l l' : list nat) :
  l' `sublist_of` l ->
  (forall id, In id l -> isText h' id = isText h id) ->
  (List.length (List.filter (isText h') l') <= List.length (List.filter (isText h) l))%nat.
Proof.
  induction 1 as [| x l1 l2 _ IH | x l1 l2 _ IH]; intros Hk; cbn [List.filter].
  - lia.
  - rewrite (Hk x) by (left; reflexivity).
    assert (IH' := IH (fun id Hin => Hk id (or_intror Hin))).
    destruct (isText h x); cbn [List.length]; lia.
  - assert (IH' := IH (fun id Hin => Hk id (or_intror Hin))).
    destruct (isText h x); cbn [List.length]; lia.
Qed.

Lemma keeps_refl (s : State) : keeps s s.
Proof. repeat split; reflexivity. Qed.

Lemma keeps_trans (s1 s2 s3 : State) : keeps s1 s2 -> keeps s2 s3 -> keeps s1 s3.
Proof.
  intros (Hn1 & Hl1 & Hk1) (Hn2 & Hl2 & Hk2). split; [congruence |].
  split; [etransitivity; eassumption |]. intros id. rewrite Hk2. apply Hk1.
Qed.

Lemma keeps_textCount (s s' : State) :
  keeps s s' -> (textCount s' <= textCount s)%nat /\ (listedBelowNext s -> listedBelowNext s').
Proof.
  intros (Hn & Hl & Hk). split.
  - rewrite !textCount_filter. apply filter_sublist_length; [exact Hl |].
    intros id _. apply Hk.
  - intros Hb id Hin. rewrite Hn. apply Hb.
    apply list_elem_of_In. eapply elem_of_sublist; [| exact Hl].
    apply list_elem_of_In, Hin.
Qed.

Lemma isText_insert_same (h : gmap nat FloatingBubbleEntry) (id : nat)
    (b b' : FloatingBubbleEntry) :
  h !! id = Some b -> kind b' = kind b ->
  forall i, isText (<[id := b']> h) i = isText h i.
Proof.
  intros Hb Hkind i. unfold isText. destruct (decide (id = i)) as [<- | Hne].
  - rewrite lookup_insert_eq, Hb, Hkind. reflexivity.
  - rewrite lookup_insert_ne by exact Hne. reflexivity.
Qed.

Lemma dissipateBubble_nextId (now : R) (id : nat) (s : State) :
  nextId (dissipateBubble now id s) = nextId s.
Proof.
  unfold dissipateBubble. destruct (heap s !! id) as [b |]; [| reflexivity].
  unfold spawnDustBurst.
  destruct (bubbleLayer s); cbn [activeTextBubble withBubbles withDust];
    destruct (bool_decide _); reflexivity.
Qed.

Lemma dissipateBubble_kinds (now : R) (id : nat) (s : State) :
  keeps s (dissipateBubble now id s).
Proof.
  destruct (heap s !! id) as [b |] eqn:Hb;
    [| rewrite dissipateBubble_missing by exact Hb; apply keeps_refl].
  destruct (dissipateBubble_fields now id s b Hb) as (Hh & Hl & _).
  split; [apply dissipateBubble_nextId |]. split; [rewrite Hl; reflexivity |].
  rewrite Hh. apply (isText_insert_same _ _ b); [exact Hb | reflexivity].
Qed.

Lemma dissipateEach_kinds (now : R) (id : nat) (l : list nat) (s : State) :
  keeps s (fold_left (fun acc other => if bool_decide (other = id) then acc
                                       else dissipateBubble now other acc) l s).
Proof.
  revert s. induction l as [| other rest IH]; intros s; cbn [fold_left];
    [apply keeps_refl |].
  eapply keeps_trans; [| apply IH].
  destruct (bool_decide (other = id)); [apply keeps_refl | apply dissipateBubble_kinds].
Qed.

Lemma activateTextBubble_kinds (now : R) (id : nat) (s : State) :
  keeps s (activateTextBubble now id s).
Proof.
  unfold activateTextBubble, dissipateOthers.
  assert (Hrel : keeps s (releaseActive now id s)).
  { unfold releaseActive. destruct (activeTextBubble s) as [a |]; [| apply keeps_refl].
    destruct (bool_decide (a = id)); [apply keeps_refl |].
    exact (dissipateBubble_kinds now a s). }
  assert (Hclaim : keeps (releaseActive now id s) (claimActive id (releaseActive now id s))).
  { split; [reflexivity |]. split; [reflexivity |].
    intros i. unfold claimActive. cbn [heap withBubbles withActive]. unfold isText.
    destruct (decide (id = i)) as [<- | Hne].
    - rewrite lookup_alter_eq. destruct (heap (releaseActive now id s) !! id); reflexivity.
    - rewrite lookup_alter_ne by exact Hne. reflexivity. }
  eapply keeps_trans; [exact Hrel |]. eapply keeps_trans; [exact Hclaim |].
  exact (dissipateEach_kinds now id _ _).
Qed.

Lemma resetFloatingBubbles_kinds (scheduleNext : bool) (now : R) (s : State) :
  keeps s (resetFloatingBubbles scheduleNext now s).
Proof.
  split; [reflexivity |]. split; [apply sublist_nil_l | reflexivity].
Qed.

(** [setPerformanceLevel] drops markers from the front of the list. *)
Lemma shiftWhileOver_drop (limit : nat) (l : list nat) :
  shiftWhileOver limit l = drop (List.length l - limit) l.
Proof.
  induction l as [| x rest IH]; cbn [shiftWhileOver]; [reflexivity |].
  destruct (limit <? List.length (x :: rest))%nat eqn:Hcmp.
  - apply Nat.ltb_lt in Hcmp. cbn [List.length] in *. rewrite IH.
    replace (S (List.length rest) - limit)%nat with (S (List.length rest - limit)) by lia.
    reflexivity.
  - apply Nat.ltb_ge in Hcmp. replace (List.length (x :: rest) - limit)%nat with 0%nat by lia.
    reflexivity.
Qed.

Lemma setPerformanceLevel_kinds (level : PerfLevel) (s : State) :
  keeps s (setPerformanceLevel level s).
Proof.
  unfold setPerformanceLevel. destruct (perfEqb (performanceLevel s) level);
    [apply keeps_refl |].
  split; [reflexivity |]. split; [| reflexivity].
  cbn [floatingBubbles withBubbles]. rewrite shiftWhileOver_drop. apply sublist_drop.
Qed.

Lemma bubbleLoop_kinds (f : Frame) (n : nat) (s s' : State) :
  bubbleLoop f n s = Returned s' -> keeps s s'.
Proof.
  intros Hloop. destruct (bubbleLoop_frame f n s s' Hloop) as (_ & Hn & Hl & Hh & Hd).
  split; [exact Hn |]. split; [exact Hl |].
  intros id. unfold isText. destruct (heap s !! id) as [b |] eqn:Hb.
  - destruct (Hh id b Hb) as (b' & -> & _ & _ & ->). reflexivity.
  - destruct (heap s' !! id) as [b' |] eqn:Hb'; [| reflexivity].
    destruct (Hd id (ex_intro _ b' Hb')) as [b Hb0]. congruence.
Qed.

(** A spawn adds a text marker only while fewer than [maxTextBubbles] are
    listed. *)
Lemma spawnFloatingBubble_textCount (f : Frame) (s : State) :
  listedBelowNext s -> (textCount s <= maxTextBubbles)%nat ->
  listedBelowNext (spawnFloatingBubble f s) /\
  (textCount (spawnFloatingBubble f s) <= maxTextBubbles)%nat.
Proof.
  intros Hb Hc. unfold spawnFloatingBubble.
  destruct (negb (bubbleLayer s)); [split; assumption |].
  fold (textCount s).
  set (canSpawnText := (0 <? List.length (bubbleMessages s))%nat
                       && (textCount s <? maxTextBubbles)%nat
                       && Js.ltb (textRoll f) textBubbleSpawnProbability).
  match goal with
  | |- context [<[nextId s := ?b]> (heap s)] => set (bubble := b)
  end.
  set (pushed := floatingBubbles s ++ [nextId s]).
  assert (Hsub : (if (getActiveMaxFloatingBubbles s <? List.length pushed)%nat
                  then tail pushed else pushed) `sublist_of` pushed).
  { destruct (getActiveMaxFloatingBubbles s <? List.length pushed)%nat; [| reflexivity].
    destruct pushed as [| x rest]; [reflexivity | apply sublist_cons; reflexivity]. }
  split.
  - intros id Hin. cbn [floatingBubbles nextId] in *.
    apply list_elem_of_In in Hin. eapply elem_of_sublist in Hin; [| exact Hsub].
    apply list_elem_of_In in Hin. unfold pushed in Hin. apply in_app_or in Hin.
    destruct Hin as [Hin | [<- | []]]; [apply Hb in Hin; lia | lia].
  - rewrite textCount_filter. cbn [floatingBubbles heap].
    assert (Hold : forall id, In id (floatingBubbles s) ->
              isText (<[nextId s := bubble]> (heap s)) id = isText (heap s) id).
    { intros id Hin. unfold isText. rewrite lookup_insert_ne; [reflexivity |].
      apply Hb in Hin. lia. }
    assert (Hpushed : (List.length (List.filter (isText (<[nextId s := bubble]> (heap s))) pushed)
                       <= maxTextBubbles)%nat).
    { unfold pushed. rewrite List.filter_app, length_app.
      assert (Hl : (List.length (List.filter (isText (<[nextId s := bubble]> (heap s)))
                                             (floatingBubbles s))
                    <= textCount s)%nat).
      { rewrite textCount_filter. apply filter_sublist_length; [reflexivity | exact Hold]. }
      cbn [List.filter]. unfold isText at 2. rewrite lookup_insert_eq.
      cbn [kind bubble]. destruct canSpawnText eqn:Hcan; cbn [List.length]; [| lia].
      unfold canSpawnText in Hcan. apply andb_true_iff in Hcan. destruct Hcan as [Hcan _].
      apply andb_true_iff in Hcan. destruct Hcan as [_ Hlt]. apply Nat.ltb_lt in Hlt. lia. }
    etransitivity; [| exact Hpushed].
    apply filter_sublist_length; [exact Hsub | reflexivity].
Qed.

Lemma scheduleNextBubble_kinds (now roll : R) (s : State) :
  keeps s (scheduleNextBubble now roll s).
Proof. repeat split; reflexivity. Qed.

Lemma tick_textCount (f : Frame) (s s' : State) :
  updateFloatingBubbles f s = Returned s' ->
  listedBelowNext s -> (textCount s <= maxTextBubbles)%nat ->
  listedBelowNext s' /\ (textCount s' <= maxTextBubbles)%nat.
Proof.
  intros Htick Hb Hc.
  destruct (tick_shape f s s' Htick) as [-> | (s2 & Hs2 & Hs')]; [split; assumption |].
  assert (H2 : listedBelowNext s2 /\ (textCount s2 <= maxTextBubbles)%nat).
  { destruct Hs2 as [-> | [_ ->]]; [split; assumption |].
    destruct (spawnFloatingBubble_textCount f (withLastTick (nowMs f) s) Hb Hc) as [Hb1 Hc1].
    destruct (keeps_textCount _ _ (scheduleNextBubble_kinds (nowMs f) (gapRoll f)
                (spawnFloatingBubble f (withLastTick (nowMs f) s)))) as [Hle Hbn].
    split; [apply Hbn, Hb1 | lia]. }
  destruct H2 as [Hb2 Hc2].
  destruct Hs' as [-> | Hloop]; [split; assumption |].
  destruct (keeps_textCount _ _ (bubbleLoop_kinds f _ s2 s' Hloop)) as [Hle Hbn].
  split; [apply Hbn, Hb2 | lia].
Qed.

(** X17. In every state the viewer can reach, at most [maxTextBubbles]
    (six) of the listed markers are text markers. *)
Theorem text_markers_capped :
  forall s : State, reachable s -> (textCount s <= maxTextBubbles)%nat.
Proof.
  intros s Hs.
  enough (H : listedBelowNext s /\ (textCount s <= maxTextBubbles)%nat) by apply H.
  assert (Hkeeps : forall s0 s1, keeps s0 s1 ->
            listedBelowNext s0 /\ (textCount s0 <= maxTextBubbles)%nat ->
            listedBelowNext s1 /\ (textCount s1 <= maxTextBubbles)%nat).
  { intros s0 s1 Hk [Hb Hc]. destruct (keeps_textCount s0 s1 Hk) as [Hle Hbn].
    split; [apply Hbn, Hb | lia]. }
  induction Hs as [mobile | s layer messages now _ IH | s level _ IH
                  | s f s' _ IH Htick | s now id _ IH | s now0 now1 roll _ IH
                  | s now _ IH | s now _ IH | s now _ IH].
  - split; [intros id [] | cbn; unfold maxTextBubbles; lia].
  - refine (Hkeeps s _ _ IH). split; [reflexivity |].
    split; [apply sublist_nil_l | reflexivity].
  - exact (Hkeeps s _ (setPerformanceLevel_kinds level s) IH).
  - destruct IH as [Hb Hc]. exact (tick_textCount f s s' Htick Hb Hc).
  - refine (Hkeeps s _ _ IH). unfold click.
    destruct (heap s !! id) as [b |]; [| apply keeps_refl].
    destruct (kind b); [apply activateTextBubble_kinds | apply dissipateBubble_kinds].
  - refine (Hkeeps s _ _ IH). unfold dismissActiveTextBubble.
    destruct (activeTextBubble s) as [a |]; [| apply keeps_refl].
    pose proof (dissipateBubble_kinds now0 a s) as Hk.
    match goal with |- context [if ?c then _ else _] => destruct c end; exact Hk.
  - refine (Hkeeps s _ _ IH). split; [reflexivity |].
    split; [apply sublist_nil_l | reflexivity].
  - refine (Hkeeps s _ _ IH). split; [reflexivity |].
    split; [apply sublist_nil_l | reflexivity].
  - refine (Hkeeps s _ _ IH). split; [reflexivity |].
    split; [apply sublist_nil_l | reflexivity].
Qed.

(** X18. When the tier changes, [setPerformanceLevel] keeps the newest
    markers: the list is cut from the front down to the capacity of the
    new tier, and nothing else about it changes. *)
Theorem tier_change_keeps_newest :
  forall (level : PerfLevel) (s : State),
    withinCapacity s ->
    floatingBubbles (setPerformanceLevel level s) =
      drop (List.length (floatingBubbles s) - capacity level (isMobileLike s))
           (floatingBubbles s).
Proof.
  intros level s Hcap. unfold setPerformanceLevel.
  destruct (perfEqb (performanceLevel s) level) eqn:Heq.
  - assert (Hl : level = performanceLevel s)
      by (destruct (performanceLevel s), level; (reflexivity || discriminate)).
    subst level. unfold withinCapacity in Hcap.
    assert (Hsame : capacity (performanceLevel s) (isMobileLike s) =
                    getActiveMaxFloatingBubbles s).
    { unfold getActiveMaxFloatingBubbles.
      destruct (performanceLevel s), (isMobileLike s); reflexivity. }
    rewrite Hsame.
    replace (List.length (floatingBubbles s) - getActiveMaxFloatingBubbles s)%nat
      with 0%nat by lia.
    reflexivity.
  - cbn [floatingBubbles withBubbles]. rewrite shiftWhileOver_drop.
    unfold getActiveMaxFloatingBubbles. cbn [performanceLevel isMobileLike].
    destruct level, (isMobileLike s); reflexivity.
Qed.

End TextCap.

Section ColourFacts.
Import ModeRegistry Probe Markers Buffer Colour.
Local Open Scope R_scope.

Lemma clampByte_range (z : Z) : (0 <= clampByte z <= 255)%Z.
Proof. unfold clampByte. lia. Qed.

Lemma jittered_isRgb (base : Rgb) (jitter : R) :
  isRgb (let '(r, g, b) := base in
         (clampByte (Js.round (IZR r + jitter)),
          clampByte (Js.round (IZR g + jitter * 0.7)),
          clampByte (Js.round (IZR b + jitter * 0.4)))).
Proof.
  destruct base as [[r g] b]. unfold isRgb. repeat split; apply clampByte_range.
Qed.

Lemma fallbackBubbleColor_isRgb (mode : ModeValue) (seed : R) :
  isRgb (fallbackBubbleColor mode seed).
Proof. unfold fallbackBubbleColor. cbv zeta. apply jittered_isRgb. Qed.

Lemma round_nonneg (x : R) : 0 <= x -> (0 <= Js.round x)%Z.
Proof. intros Hx. unfold Js.round. apply floor_nonneg. lra. Qed.

Lemma gained_range (gain : R) (channel : Z) :
  0 <= gain -> (0 <= channel)%Z -> (0 <= gained gain channel <= 255)%Z.
Proof.
  intros Hg Hc. unfold gained.
  assert (H : (0 <= Js.round (IZR channel * (0.82 + gain * 0.26)))%Z).
  { apply round_nonneg. apply IZR_le in Hc. apply Rmult_le_pos; [exact Hc | nra]. }
  lia.
Qed.

Lemma readFramePixel_returns (gl : GLContext) (x y : R) :
  bytes gl ->
  exists o, readFramePixel gl x y = Returned o /\ (forall c, o = Some c -> isRgb c).
Proof.
  intros Hbytes. unfold readFramePixel, callReadPixels. cbv zeta.
  destruct ((drawingBufferWidth gl <? 2)%Z || (drawingBufferHeight gl <? 2)%Z);
    [exists None; split; [reflexivity | discriminate] |].
  destruct (readPixelsIsFunction gl);
    [| exists None; split; [reflexivity | discriminate]].
  match goal with
  | |- context [readPixels gl ?px ?py] => destruct (readPixels gl px py) as [p |] eqn:Hp
  end; cbn [bind tryCatch]; [| exists None; split; [reflexivity | discriminate]].
  destruct (alphaByte p <? 14)%Z; [exists None; split; [reflexivity | discriminate] |].
  destruct (red p + green p + blue p <? 32)%Z;
    [exists None; split; [reflexivity | discriminate] |].
  eexists. split; [reflexivity |]. intros c [= <-]. exact (Hbytes _ _ p Hp).
Qed.

Lemma readFramePixel_thrown (gl : GLContext) (x y : R) :
  (forall px py : Z, readPixels gl px py = Thrown) ->
  readFramePixel gl x y = Returned None.
Proof.
  intros Hthrow. unfold readFramePixel, callReadPixels. cbv zeta.
  destruct ((drawingBufferWidth gl <? 2)%Z || (drawingBufferHeight gl <? 2)%Z);
    [reflexivity |].
  destruct (readPixelsIsFunction gl); [rewrite Hthrow |]; reflexivity.
Qed.

Lemma pickBest_returns (gl : GLContext) (baseX baseY : R) (offsets : list (R * R))
    (best : option Rgb) (bestScore : R) :
  bytes gl ->
  (forall c, best = Some c -> isRgb c) ->
  exists o, pickBest gl baseX baseY offsets best bestScore = Returned o /\
            (forall c, o = Some c -> isRgb c).
Proof.
  intros Hbytes. revert best bestScore.
  induction offsets as [| [ox oy] rest IH]; intros best bestScore Hbest; cbn [pickBest].
  - exists best. split; [reflexivity | exact Hbest].
  - destruct (readFramePixel_returns gl (baseX + ox) (baseY + oy) Hbytes) as (o & -> & Ho).
    cbn [bind]. destruct o as [c |]; [| apply IH, Hbest].
    destruct (Js.gtb (score c) bestScore); [| apply IH, Hbest].
    apply IH. intros c' [= <-]. apply Ho. reflexivity.
Qed.

Lemma pickBest_thrown (gl : GLContext) (baseX baseY : R) (offsets : list (R * R))
    (bestScore : R) :
  (forall px py : Z, readPixels gl px py = Thrown) ->
  pickBest gl baseX baseY offsets None bestScore = Returned None.
Proof.
  intros Hthrow. induction offsets as [| [ox oy] rest IH]; cbn [pickBest]; [reflexivity |].
  rewrite (readFramePixel_thrown gl _ _ Hthrow). cbn [bind]. exact IH.
Qed.

(** X19. The colour a new marker is given is always a colour: the call
    returns, and each of the three channels is an integer from 0 to 255,
    whether it was sampled from the frame or is the fallback of the mode. *)
Theorem marker_colour_is_rgb :
  forall (perf : PerfLevel) (c : Controller.State) (ctx : option GLContext)
         (centre : Projection) (seed : R),
    Controller.reachable c ->
    (forall gl, ctx = Some gl -> bytes gl) ->
    exists rgb, colorRgbOf perf c ctx centre seed = Returned rgb /\ isRgb rgb.
Proof.
  intros perf c ctx centre seed Hc Hbytes.
  pose proof (fallbackBubbleColor_isRgb (Controller.animationMode c) seed) as Hfb.
  destruct perf; cbn [colorRgbOf]; [| eexists; split; [reflexivity | exact Hfb]].
  unfold resolveBubbleColor. cbv zeta.
  destruct ctx as [gl |]; [| eexists; split; [reflexivity | exact Hfb]].
  destruct (negb (readPixelsIsFunction gl)); [eexists; split; [reflexivity | exact Hfb] |].
  destruct ((drawingBufferWidth gl <? 2)%Z || (drawingBufferHeight gl <? 2)%Z);
    [eexists; split; [reflexivity | exact Hfb] |].
  destruct (Js.leb (ndcZ centre) (-1) || Js.geb (ndcZ centre) 1);
    [eexists; split; [reflexivity | exact Hfb] |].
  match goal with
  | |- context [pickBest gl ?bx ?by' ?offs None ?sc] =>
      destruct (pickBest_returns gl bx by' offs None sc (Hbytes gl eq_refl))
        as (o & -> & Ho); [discriminate |]
  end.
  cbn [bind]. destruct o as [[[r g] b] |]; [| eexists; split; [reflexivity | exact Hfb]].
  eexists. split; [reflexivity |].
  destruct (Ho _ eq_refl) as (Hr & Hg & Hb).
  destruct (reachable_inRange c Hc) as [Hgain _].
  unfold isRgb. repeat split; apply gained_range; lra || lia.
Qed.

(** X20. When the frame cannot be read back (no context, no [readPixels],
    a drawing buffer under 2 by 2 pixels, or a [readPixels] that throws) or
    the scene centre is not in front of the camera, the colour is the
    fallback colour of the current mode. *)
Theorem marker_colour_falls_back :
  forall (c : Controller.State) (ctx : option GLContext) (centre : Projection) (seed : R),
    readbackFails ctx \/ ndcZ centre <= -1 \/ 1 <= ndcZ centre ->
    resolveBubbleColor c ctx centre seed =
      Returned (fallbackBubbleColor (Controller.animationMode c) seed).
Proof.
  intros c ctx centre seed H. unfold resolveBubbleColor. cbv zeta.
  destruct ctx as [gl |]; [| reflexivity].
  destruct (negb (readPixelsIsFunction gl)) eqn:Hf; [reflexivity |].
  destruct ((drawingBufferWidth gl <? 2)%Z || (drawingBufferHeight gl <? 2)%Z) eqn:Hsmall;
    [reflexivity |].
  destruct (Js.leb (ndcZ centre) (-1) || Js.geb (ndcZ centre) 1) eqn:Hoff; [reflexivity |].
  apply orb_false_iff in Hoff. destruct Hoff as [Hlo Hhi].
  unfold Js.geb, Js.leb in Hlo, Hhi.
  destruct (Rle_dec (ndcZ centre) (-1)) as [| Hn1]; [discriminate |].
  destruct (Rle_dec 1 (ndcZ centre)) as [| Hn2]; [discriminate |].
  destruct H as [Hfail | [Hz | Hz]]; [| lra | lra].
  cbn [readbackFails] in Hfail. destruct Hfail as [Hno | [Hdim | Hthrow]].
  - rewrite Hno in Hf. discriminate.
  - apply orb_false_iff in Hsmall. destruct Hsmall as [H1 H2].
    apply Z.ltb_ge in H1, H2. lia.
  - rewrite (pickBest_thrown gl _ _ _ _ Hthrow). reflexivity.
Qed.

End ColourFacts.

Section PlacementFacts.
Import Probe Markers Kernel Placement.
Local Open Scope R_scope.

Lemma vadd_vscale_0 (p d : vec3) (k : R) : k = 0 -> vadd p (vscale k d) = p.
Proof. intros ->. destruct p, d. unfold vadd, vscale. cbn. f_equal; lra. Qed.

Lemma vadd_vscale_assoc (p d : vec3) (a b : R) :
  vadd (vadd p (vscale a d)) (vscale b d) = vadd p (vscale (a + b) d).
Proof. destruct p, d. unfold vadd, vscale. cbn. f_equal; lra. Qed.

Lemma pushLoop_spec (v : View) (dir : vec3) (tries : nat) (pos : vec3) :
  exists pos' k,
    pushLoop v dir tries pos = Returned pos' /\
    0 <= k <= INR tries + 1.5 /\
    pos' = vadd pos (vscale (k * pushStep v) dir) /\
    (readbackFails (context v) -> (0 < tries)%nat -> pos' = pos).
Proof.
  revert pos. induction tries as [| rest IH]; intros pos; cbn [pushLoop].
  - exists (vadd pos (vscale (pushStep v * 1.5) dir)), 1.5.
    split; [reflexivity |]. split; [cbn; lra |].
    split; [f_equal; f_equal; lra | intros _ Hlt; lia].
  - pose proof (pos_INR rest) as Hrest. rewrite S_INR.
    destruct (offScreen (project v pos)).
    { exists pos, 0. split; [reflexivity |]. split; [lra |].
      split; [symmetry; apply vadd_vscale_0; lra | reflexivity]. }
    match goal with
    | |- context [isModelPixelCovered ?c ?p ?m ?w ?h ?x ?y ?r] =>
        destruct (isModelPixelCovered_returns c p m w h x y r) as [covered Hcov];
        pose proof (isModelPixelCovered_fails_open c p m w h x y r) as Hopen
    end.
    rewrite Hcov. cbn [bind]. destruct covered; cbn [negb].
    + destruct (IH (vadd pos (vscale (pushStep v) dir))) as (pos' & k & Hrun & Hk & Hpos & _).
      exists pos', (k + 1). split; [exact Hrun |]. split; [lra |]. split.
      * rewrite Hpos, vadd_vscale_assoc. f_equal. f_equal. lra.
      * intros Hfail _. rewrite (Hopen Hfail) in Hcov. discriminate.
    + exists pos, 0. split; [reflexivity |]. split; [lra |].
      split; [symmetry; apply vadd_vscale_0; lra | reflexivity].
Qed.

Lemma activeMaxPushTries_range (v : View) : (4 <= activeMaxPushTries v <= 12)%nat.
Proof.
  unfold activeMaxPushTries, bubbleNoOverlapPushMaxTries.
  destruct (isMobileLike v), (performanceLevel v); cbn; lia.
Qed.

(** X21. [pushBubbleOutsideModel] returns, and moves the new marker only
    along its outward direction, by a whole number of steps while the probe
    reports the model, or by all the tries plus one and a half steps: at
    most 13.5 steps of at least 0.005.  When the frame cannot be read back
    the marker is left where it was. *)
Theorem push_is_outward_and_bounded :
  forall (v : View) (position outwardDir : vec3),
    exists position' k,
      pushBubbleOutsideModel v position outwardDir = Returned position' /\
      0 <= k <= 13.5 /\
      0.005 <= pushStep v /\
      position' = vadd position (vscale (k * pushStep v) outwardDir) /\
      (readbackFails (context v) -> position' = position).
Proof.
  intros v position outwardDir. unfold pushBubbleOutsideModel.
  destruct (pushLoop_spec v outwardDir (activeMaxPushTries v) position)
    as (pos' & k & Hrun & Hk & Hpos & Hfail).
  pose proof (activeMaxPushTries_range v) as [Hlo Hhi].
  exists pos', k. split; [exact Hrun |]. split.
  - apply le_INR in Hhi. change (INR 12) with (INR (S (S (S (S (S (S (S (S (S (S (S (S O))))))))))))) in Hhi.
    rewrite !S_INR in Hhi. cbn [INR] in Hhi. lra.
  - split; [unfold pushStep; apply Rmax_r |]. split; [exact Hpos |].
    intros Hf. apply Hfail; [exact Hf | lia].
Qed.

End PlacementFacts.

Section CameraFacts.
Import Probe Kernel Camera.
Local Open Scope R_scope.

(** X22. Framing a loaded scene leaves a positive scene radius, clip
    planes with [0 < near < far], the orbit target on the scene centre, a
    positive minimum orbit distance, and the camera at least 1.8 radii from
    the centre, so outside the bounding sphere of the scene.  The field of
    view is one whose half-angle tangent is not zero, as the source divides
    by it. *)
Theorem framing_keeps_camera_outside :
  forall (center : option vec3) (radius : option R) (fov : R),
    tan (fov * PI / 180 / 2) <> 0 ->
    let c := frameCameraFromSplatMesh center radius fov in
    0 < sceneRadius c /\
    0 < near c < far c /\
    target c = sceneCenter c /\
    0 < minDistance c /\
    sceneRadius c * 1.8 <= length (vsub (position c) (sceneCenter c)).
Proof.
  intros center radius fov _. cbv zeta. unfold frameCameraFromSplatMesh. cbv zeta.
  cbn [sceneRadius near far target sceneCenter minDistance position].
  set (r := match radius with
            | Some r => if Js.gtb r 0 then r else 1
            | None => 1
            end).
  assert (Hr : 0 < r).
  { unfold r. destruct radius as [x |]; [| lra].
    unfold Js.gtb, Js.ltb. destruct (Rlt_dec 0 x); lra. }
  set (d := Rmax (r / tan (fov * PI / 180 / 2) * 1.35) (r * 1.8)).
  assert (Hd : r * 1.8 <= d) by apply Rmax_r.
  split; [exact Hr |]. split; [| split; [reflexivity | split]].
  - split.
    + apply Rlt_le_trans with 0.001; [lra | apply Rmax_l].
    + unfold Rmax. repeat destruct (Rle_dec _ _); lra.
  - apply Rlt_le_trans with 0.0001; [lra | apply Rmax_r].
  - apply Rle_trans with d; [exact Hd |].
    unfold length, dot, vsub. cbn [vx vy vz].
    rewrite <- (sqrt_square d) at 1 by lra.
    apply sqrt_le_1_alt. nra.
Qed.

(** X23. The pixel ratio the renderer is given never exceeds the cap of
    the tier and device (at most 2), is positive for a positive device
    ratio, and is never higher in the low tier than in the high tier. *)
Theorem low_tier_is_never_sharper :
  forall (perf : PerfLevel) (mobile : bool) (devicePixelRatio : R),
    applyRendererPixelRatio low mobile devicePixelRatio
      <= applyRendererPixelRatio high mobile devicePixelRatio /\
    applyRendererPixelRatio perf mobile devicePixelRatio <= 2 /\
    applyRendererPixelRatio low mobile devicePixelRatio <= 1.35 /\
    (0 <= devicePixelRatio -> 0 < applyRendererPixelRatio perf mobile devicePixelRatio).
Proof.
  intros perf mobile dpr.
  unfold applyRendererPixelRatio, highDprCapDesktop, highDprCapMobile,
    lowDprCapDesktop, lowDprCapMobile, Js.eqb.
  destruct (Req_dec_T dpr 0) as [-> | Hne]; destruct perf, mobile;
    unfold Rmin; repeat destruct (Rle_dec _ _); repeat split; intros; lra.
Qed.

End CameraFacts.

Section HostTier.
Import Probe Host.
Local Open Scope R_scope.

Lemma perfEqb_eq (a b : PerfLevel) : Markers.perfEqb a b = true <-> a = b.
Proof. destruct a, b; cbn; split; (reflexivity || discriminate). Qed.

Lemma setPerformanceLevel_level (level : PerfLevel) (m : Markers.State) :
  Markers.performanceLevel (Markers.setPerformanceLevel level m) = level.
Proof.
  unfold Markers.setPerformanceLevel.
  destruct (Markers.perfEqb (Markers.performanceLevel m) level) eqn:Heq;
    [apply perfEqb_eq, Heq | reflexivity].
Qed.

(** [applyPerformanceLevel] sets the tier of the page and of the viewer,
    and nothing else of the page. *)
Lemma applyPerformanceLevel_fields (level : PerfLevel) (s : State) :
  performanceLevel (applyPerformanceLevel level s) = level /\
  isMobileLayout (applyPerformanceLevel level s) = isMobileLayout s /\
  isShowcaseMode (applyPerformanceLevel level s) = isShowcaseMode s /\
  isNarrativeScrolling (applyPerformanceLevel level s) = isNarrativeScrolling s /\
  narrativePerfRestoreLevel (applyPerformanceLevel level s) = narrativePerfRestoreLevel s /\
  lowFpsWindows (applyPerformanceLevel level s) = lowFpsWindows s /\
  highFpsWindows (applyPerformanceLevel level s) = highFpsWindows s /\
  fpsFrameCount (applyPerformanceLevel level s) = fpsFrameCount s /\
  fpsWindowStartMs (applyPerformanceLevel level s) = fpsWindowStartMs s.
Proof.
  unfold applyPerformanceLevel.
  destruct (Markers.perfEqb (performanceLevel s) level) eqn:Heq;
    [apply perfEqb_eq in Heq | ]; repeat split; try reflexivity; exact Heq.
Qed.

Lemma applyPerformanceLevel_agree (level : PerfLevel) (s : State) :
  tiersAgree s -> tiersAgree (applyPerformanceLevel level s).
Proof.
  unfold tiersAgree, applyPerformanceLevel. intros H.
  destruct (Markers.perfEqb (performanceLevel s) level); [exact H |].
  cbn [viewer performanceLevel]. apply setPerformanceLevel_level.
Qed.

Lemma startNarrativeScrollBoost_fields (s : State) :
  isNarrativeScrolling s = false ->
  performanceLevel (startNarrativeScrollBoost s) = low /\
  isNarrativeScrolling (startNarrativeScrollBoost s) = true /\
  narrativePerfRestoreLevel (startNarrativeScrollBoost s) = Some (performanceLevel s) /\
  isMobileLayout (startNarrativeScrollBoost s) = isMobileLayout s.
Proof.
  intros Hs. unfold startNarrativeScrollBoost. rewrite Hs.
  cbn [performanceLevel withScrolling withWindows].
  destruct (performanceLevel s) eqn:Hp; cbn [Markers.perfEqb negb].
  - match goal with
    | |- context [applyPerformanceLevel low ?s1] =>
        destruct (applyPerformanceLevel_fields low s1) as (-> & -> & _ & -> & -> & _)
    end.
    cbn [isNarrativeScrolling narrativePerfRestoreLevel isMobileLayout withScrolling withWindows].
    repeat split; reflexivity.
  - cbn [performanceLevel isNarrativeScrolling narrativePerfRestoreLevel isMobileLayout
         withScrolling withWindows].
    repeat split; assumption || reflexivity.
Qed.

Lemma startNarrativeScrollBoost_agree (s : State) :
  tiersAgree s -> tiersAgree (startNarrativeScrollBoost s).
Proof.
  intros H. unfold startNarrativeScrollBoost.
  destruct (isNarrativeScrolling s); [exact H |].
  match goal with |- context [if ?c then _ else _] => destruct c end;
    [apply applyPerformanceLevel_agree |]; exact H.
Qed.

Lemma stopNarrativeScrollBoost_idle (s : State) :
  isNarrativeScrolling s = false -> stopNarrativeScrollBoost s = s.
Proof. intros H. unfold stopNarrativeScrollBoost. rewrite H. reflexivity. Qed.

Lemma stopNarrativeScrollBoost_fields (s : State) :
  isNarrativeScrolling (stopNarrativeScrollBoost s) = false /\
  isMobileLayout (stopNarrativeScrollBoost s) = isMobileLayout s /\
  isShowcaseMode (stopNarrativeScrollBoost s) = isShowcaseMode s /\
  (isNarrativeScrolling s = true ->
   performanceLevel (stopNarrativeScrollBoost s) =
     match narrativePerfRestoreLevel s with
     | Some level => level
     | None => performanceLevel s
     end).
Proof.
  unfold stopNarrativeScrollBoost.
  destruct (isNarrativeScrolling s) eqn:Hs; cbn [negb];
    [| repeat split; try assumption; try reflexivity; discriminate].
  cbn [narrativePerfRestoreLevel performanceLevel withWindows withScrolling].
  destruct (narrativePerfRestoreLevel s) as [level |].
  - destruct (Markers.perfEqb (performanceLevel s) level) eqn:Heq; cbn [negb].
    + apply perfEqb_eq in Heq. repeat split; try reflexivity. intros _. exact Heq.
    + match goal with
      | |- context [applyPerformanceLevel level ?s1] =>
          destruct (applyPerformanceLevel_fields level s1) as (Hp & Hm & Hsh & Hn & _)
      end.
      cbn [isNarrativeScrolling isMobileLayout isShowcaseMode performanceLevel withScrolling].
      rewrite Hp, Hm, Hsh, Hn. repeat split; reflexivity.
  - repeat split; reflexivity.
Qed.

Lemma stopNarrativeScrollBoost_agree (s : State) :
  tiersAgree s -> tiersAgree (stopNarrativeScrollBoost s).
Proof.
  intros H. unfold stopNarrativeScrollBoost.
  destruct (isNarrativeScrolling s); cbn [negb]; [| exact H].
  cbn [narrativePerfRestoreLevel withWindows withScrolling].
  unfold tiersAgree. cbn [viewer performanceLevel withScrolling].
  destruct (narrativePerfRestoreLevel s) as [level |]; [| exact H].
  match goal with |- context [if ?c then _ else _] => destruct c end; [| exact H].
  apply applyPerformanceLevel_agree. exact H.
Qed.

(** What the monitor does in one frame. *)
Lemma monitor_cases (nowMs : R) (s : State) :
  isMobileLayout (monitor nowMs s) = isMobileLayout s /\
  isShowcaseMode (monitor nowMs s) = isShowcaseMode s /\
  isNarrativeScrolling (monitor nowMs s) = isNarrativeScrolling s /\
  narrativePerfRestoreLevel (monitor nowMs s) = narrativePerfRestoreLevel s /\
  (tiersAgree s -> tiersAgree (monitor nowMs s)) /\
  ((idleFrame nowMs s /\
    lowFpsWindows (monitor nowMs s) = lowFpsWindows s /\
    highFpsWindows (monitor nowMs s) = highFpsWindows s /\
    performanceLevel (monitor nowMs s) = performanceLevel s) \/
   (isNarrativeScrolling s = true /\
    lowFpsWindows (monitor nowMs s) = 0%nat /\
    highFpsWindows (monitor nowMs s) = 0%nat /\
    performanceLevel (monitor nowMs s) = performanceLevel s) \/
   (exists fps,
      closesWindow nowMs s = Some fps /\
      ((fps < 42 /\ lowFpsWindows (monitor nowMs s) = S (lowFpsWindows s) /\
        highFpsWindows (monitor nowMs s) = 0%nat) \/
       (55 < fps /\ lowFpsWindows (monitor nowMs s) = 0%nat /\
        highFpsWindows (monitor nowMs s) = S (highFpsWindows s)) \/
       (lowFpsWindows (monitor nowMs s) = 0%nat /\
        highFpsWindows (monitor nowMs s) = 0%nat)) /\
      (performanceLevel (monitor nowMs s) = performanceLevel s \/
       (performanceLevel s = high /\ performanceLevel (monitor nowMs s) = low /\
        (2 <= lowFpsWindows (monitor nowMs s))%nat) \/
       (performanceLevel s = low /\ performanceLevel (monitor nowMs s) = high /\
        (3 <= highFpsWindows (monitor nowMs s))%nat /\ isMobileLayout s = false)))).
Proof.
  unfold monitor, closesWindow, idleFrame. cbv zeta.
  cbn [fpsWindowStartMs fpsFrameCount withWindow].
  destruct (Js.geb (nowMs - fpsWindowStartMs s) 1000) eqn:Hclose.
  2:{ repeat split; try reflexivity; [intros H; exact H |].
      left. repeat split; reflexivity. }
  cbn [isNarrativeScrolling withWindow].
  destruct (isNarrativeScrolling s) eqn:Hscroll.
  { repeat split; try reflexivity; try assumption; [intros H; exact H |].
    right; left. repeat split; reflexivity. }
  cbn [andb negb].
  set (fps := INR (S (fpsFrameCount s)) * 1000 / (nowMs - fpsWindowStartMs s)).
  set (s2 := withWindow 0 nowMs (withWindow (S (fpsFrameCount s)) (fpsWindowStartMs s) s)).
  set (s3 := if Js.ltb fps 42 then withWindows (S (lowFpsWindows s2)) 0 s2
             else if Js.gtb fps 55 then withWindows 0 (S (highFpsWindows s2)) s2
             else withWindows 0 0 s2).
  assert (Hs3 : performanceLevel s3 = performanceLevel s /\
                isMobileLayout s3 = isMobileLayout s /\
                isShowcaseMode s3 = isShowcaseMode s /\
                isNarrativeScrolling s3 = false /\
                narrativePerfRestoreLevel s3 = narrativePerfRestoreLevel s /\
                viewer s3 = viewer s /\
                ((fps < 42 /\ lowFpsWindows s3 = S (lowFpsWindows s) /\
                  highFpsWindows s3 = 0%nat) \/
                 (55 < fps /\ lowFpsWindows s3 = 0%nat /\
                  highFpsWindows s3 = S (highFpsWindows s)) \/
                 (lowFpsWindows s3 = 0%nat /\ highFpsWindows s3 = 0%nat))).
  { unfold s3, Js.gtb, Js.ltb.
    destruct (Rlt_dec fps 42) as [Hlow |];
      [repeat split; try reflexivity; try assumption; left; repeat split; auto |].
    destruct (Rlt_dec 55 fps) as [Hhigh |];
      repeat split; try reflexivity; try assumption;
      [right; left; repeat split; auto | right; right; split; reflexivity]. }
  destruct Hs3 as (Hp3 & Hm3 & Hsh3 & Hn3 & Hr3 & Hv3 & Hcount).
  assert (Hagree3 : tiersAgree s -> tiersAgree s3).
  { unfold tiersAgree. rewrite Hv3, Hp3. auto. }
  destruct (Markers.perfEqb (performanceLevel s3) high && (2 <=? lowFpsWindows s3)%nat)
    eqn:Hdrop.
  { apply andb_true_iff in Hdrop. destruct Hdrop as [Hhigh Hlow2].
    apply perfEqb_eq in Hhigh. apply Nat.leb_le in Hlow2.
    destruct (applyPerformanceLevel_fields low s3)
      as (Hp & Hm & Hsh & Hn & Hr & Hl & Hh & _).
    rewrite Hm, Hsh, Hn, Hr, Hl, Hh, Hp.
    repeat split; try congruence; [intros H; apply applyPerformanceLevel_agree; auto |].
    right; right. exists fps. split; [reflexivity |]. split; [exact Hcount |].
    right; left. repeat split; congruence. }
  destruct (Markers.perfEqb (performanceLevel s3) low && (3 <=? highFpsWindows s3)%nat
            && negb (isMobileLayout s3)) eqn:Hraise.
  { apply andb_true_iff in Hraise. destruct Hraise as [Hraise Hdesk].
    apply andb_true_iff in Hraise. destruct Hraise as [Hlow Hhigh3].
    apply perfEqb_eq in Hlow. apply Nat.leb_le in Hhigh3.
    apply negb_true_iff in Hdesk.
    destruct (applyPerformanceLevel_fields high s3)
      as (Hp & Hm & Hsh & Hn & Hr & Hl & Hh & _).
    rewrite Hm, Hsh, Hn, Hr, Hl, Hh, Hp.
    repeat split; try congruence; [intros H; apply applyPerformanceLevel_agree; auto |].
    right; right. exists fps. split; [reflexivity |]. split; [exact Hcount |].
    right; right. repeat split; congruence. }
  repeat split; try congruence; try exact Hagree3.
  right; right. exists fps. split; [reflexivity |]. split; [exact Hcount |].
  left. exact Hp3.
Qed.

Lemma monitor_invariant (nowMs : R) (s : State) :
  tierInvariant s -> tierInvariant (monitor nowMs s).
Proof.
  intros [Hagree Hmobile].
  destruct (monitor_cases nowMs s) as (Hm & _ & Hn & _ & Ha & Hcases).
  split; [apply Ha, Hagree |].
  intros Hmob. rewrite Hm in Hmob. destruct (Hmobile Hmob) as [Hlow Hidle].
  rewrite Hn. split; [| exact Hidle].
  destruct Hcases as [(_ & _ & _ & Hp) | [(_ & _ & _ & Hp) | (fps & _ & _ & Hp)]];
    try congruence.
  destruct Hp as [Hp | [(Hhigh & _) | (_ & _ & _ & Hdesk)]]; congruence.
Qed.

Lemma tick_performanceLevel (f : Markers.Frame) (m m' : Markers.State) :
  Markers.updateFloatingBubbles f m = Returned m' ->
  Markers.performanceLevel m' = Markers.performanceLevel m.
Proof.
  intros Htick.
  destruct (tick_shape f m m' Htick) as [-> | (m2 & Hm2 & Hm')]; [reflexivity |].
  assert (H2 : Markers.performanceLevel m2 = Markers.performanceLevel m).
  { destruct Hm2 as [-> | [_ ->]]; [reflexivity |].
    unfold Markers.scheduleNextBubble, Markers.spawnFloatingBubble.
    cbn [Markers.performanceLevel Markers.withNextSpawn Markers.withLastTick
         Markers.bubbleLayer].
    destruct (negb (Markers.bubbleLayer m)); reflexivity. }
  destruct Hm' as [-> | Hloop]; [exact H2 |].
  destruct (bubbleLoop_notLonger f _ m2 m' Hloop) as (_ & Hp & _). congruence.
Qed.

Lemma viewerStep_performanceLevel (m m' : Markers.State) :
  viewerStep m m' -> Markers.performanceLevel m' = Markers.performanceLevel m.
Proof.
  intros [m0 now id | m0 now0 now1 roll | m0 now | m0 now | m0 now];
    try reflexivity.
  - apply (click_notLonger now id m0).
  - apply (dismissActiveTextBubble_notLonger now0 now1 roll m0).
Qed.

Lemma updateLayoutMode_invariant (matches : bool) (s : State) :
  tiersAgree s -> tierInvariant (updateLayoutMode matches s).
Proof.
  intros Hagree. unfold updateLayoutMode. cbv zeta.
  cbn [isMobileLayout isShowcaseMode withLayout].
  destruct matches.
  - set (s1 := if isShowcaseMode s
               then withLayout true false (withLayout true (isShowcaseMode s) s)
               else withLayout true (isShowcaseMode s) s).
    assert (H1 : tiersAgree s1 /\ isMobileLayout s1 = true).
    { unfold s1. destruct (isShowcaseMode s); split; (exact Hagree || reflexivity). }
    destruct H1 as [Ha1 Hm1].
    destruct (stopNarrativeScrollBoost_fields s1) as (Hn & Hm & _).
    pose proof (stopNarrativeScrollBoost_agree s1 Ha1) as Ha2.
    rewrite Hm, Hm1. cbn [andb].
    destruct (Markers.perfEqb (performanceLevel (stopNarrativeScrollBoost s1)) low) eqn:Heq;
      cbn [negb].
    + split; [exact Ha2 |]. intros _. split; [apply perfEqb_eq, Heq | exact Hn].
    + destruct (applyPerformanceLevel_fields low (stopNarrativeScrollBoost s1))
        as (Hp & _ & _ & Hn' & _).
      split; [apply applyPerformanceLevel_agree, Ha2 |].
      intros _. split; [exact Hp | rewrite Hn'; exact Hn].
  - cbn [andb]. split; [exact Hagree |]. intros Hmob. discriminate.
Qed.

Lemma reachable_tierInvariant (s : State) : reachable s -> tierInvariant s.
Proof.
  induction 1 as [matches0 matches1 mobileLike layer texts now0 now1
                 | s nowMs f s' _ IH Hrun | s _ IH | s _ IH | s enabled _ IH
                 | s matches _ IH | s m _ IH Hstep].
  - unfold boot. cbv zeta. apply updateLayoutMode_invariant.
    apply applyPerformanceLevel_agree. reflexivity.
  - unfold animate in Hrun. cbv zeta in Hrun.
    destruct (Markers.updateFloatingBubbles f (viewer (monitor nowMs s))) as [m |] eqn:Htick;
      cbn [bind] in Hrun; [| discriminate].
    injection Hrun as <-.
    destruct (monitor_invariant nowMs s IH) as [Ha Hm].
    split; [| exact Hm].
    unfold tiersAgree in *. cbn [viewer performanceLevel withViewer].
    rewrite (tick_performanceLevel f _ m Htick). exact Ha.
  - destruct IH as [Ha Hm]. unfold onNarrativeScroll.
    destruct (isShowcaseMode s || isMobileLayout s) eqn:Hguard; [split; assumption |].
    apply orb_false_iff in Hguard. destruct Hguard as [_ Hdesk].
    split; [apply startNarrativeScrollBoost_agree, Ha |].
    intros Hmob. exfalso.
    unfold startNarrativeScrollBoost in Hmob.
    destruct (isNarrativeScrolling s); [congruence |].
    match type of Hmob with context [if ?c then _ else _] => destruct c end;
      [destruct (applyPerformanceLevel_fields low
                   (withScrolling true (Some (performanceLevel s)) (withWindows 0 0 s)))
         as (_ & Hm' & _); rewrite Hm' in Hmob |];
      cbn [isMobileLayout withScrolling withWindows] in Hmob; congruence.
  - destruct IH as [Ha Hm]. split; [apply stopNarrativeScrollBoost_agree, Ha |].
    destruct (stopNarrativeScrollBoost_fields s) as (Hn & Hml & _).
    intros Hmob. rewrite Hml in Hmob. destruct (Hm Hmob) as [Hlow Hidle].
    rewrite (stopNarrativeScrollBoost_idle s Hidle). split; assumption.
  - destruct IH as [Ha Hm]. unfold setShowcaseMode.
    destruct (Bool.eqb (isShowcaseMode s) enabled); [split; assumption |].
    cbn [isShowcaseMode withLayout].
    destruct enabled; [| split; assumption].
    split; [apply stopNarrativeScrollBoost_agree, Ha |].
    destruct (stopNarrativeScrollBoost_fields (withLayout (isMobileLayout s) true s))
      as (Hn & Hml & _).
    intros Hmob. rewrite Hml in Hmob. cbn [isMobileLayout withLayout] in Hmob.
    destruct (Hm Hmob) as [Hlow Hidle].
    rewrite stopNarrativeScrollBoost_idle by exact Hidle. split; assumption.
  - apply updateLayoutMode_invariant, IH.
  - destruct IH as [Ha Hm]. split; [| exact Hm].
    unfold tiersAgree in *. cbn [viewer performanceLevel withViewer].
    rewrite (viewerStep_performanceLevel _ _ Hstep). exact Ha.
Qed.

(** X24. The page and the viewer never disagree about the tier: in every
    state the page can reach, [performanceLevel] of the script equals
    [performanceLevel] of the viewer. *)
Theorem page_and_viewer_tiers_agree :
  forall s : State,
    reachable s -> Markers.performanceLevel (viewer s) = performanceLevel s.
Proof. intros s Hs. apply (reachable_tierInvariant s Hs). Qed.

(** X25. On the mobile layout the viewer always runs in the low tier:
    neither the frame-rate monitor nor the end of a scroll boost raises it
    there. *)
Theorem mobile_layout_stays_low :
  forall s : State,
    reachable s -> isMobileLayout s = true ->
    performanceLevel s = low /\ Markers.performanceLevel (viewer s) = low.
Proof.
  intros s Hs Hmob. destruct (reachable_tierInvariant s Hs) as [Ha Hm].
  destruct (Hm Hmob) as [Hlow _]. split; [exact Hlow |].
  unfold tiersAgree in Ha. congruence.
Qed.

Lemma frames_snoc (nows : list R) (nowMs : R) (s : State) :
  frames (nows ++ [nowMs]) s = monitor nowMs (frames nows s).
Proof. unfold frames. rewrite fold_left_app. reflexivity. Qed.

Lemma frames_scrolling (nows : list R) (s : State) :
  isNarrativeScrolling s = true ->
  isNarrativeScrolling (frames nows s) = true /\
  narrativePerfRestoreLevel (frames nows s) = narrativePerfRestoreLevel s /\
  performanceLevel (frames nows s) = performanceLevel s.
Proof.
  intros Hs. induction nows as [| nowMs nows IH] using rev_ind;
    [repeat split; assumption || reflexivity |].
  rewrite frames_snoc. destruct IH as (Hn & Hr & Hp).
  destruct (monitor_cases nowMs (frames nows s)) as (_ & _ & Hn' & Hr' & _ & Hcases).
  split; [congruence |]. split; [congruence |].
  destruct Hcases as [(_ & _ & _ & Hp') | [(_ & _ & _ & Hp') | (fps & Hclose & _)]];
    try congruence.
  unfold closesWindow in Hclose. rewrite Hn in Hclose.
  rewrite andb_false_r in Hclose. discriminate.
Qed.

(** X26. A scroll boost is undone when it ends: from a state outside a
    boost, the tier is low for as long as the boost lasts, whatever frame
    rates the monitor measures meanwhile, and [stopNarrativeScrollBoost]
    brings back the tier the page had before. *)
Theorem scroll_boost_round_trip :
  forall (s : State) (nows : list R),
    isNarrativeScrolling s = false ->
    let during := frames nows (startNarrativeScrollBoost s) in
    performanceLevel during = low /\
    performanceLevel (stopNarrativeScrollBoost during) = performanceLevel s /\
    isNarrativeScrolling (stopNarrativeScrollBoost during) = false.
Proof.
  intros s nows Hidle. cbv zeta.
  destruct (startNarrativeScrollBoost_fields s Hidle) as (Hlow & Hon & Hrestore & _).
  destruct (frames_scrolling nows (startNarrativeScrollBoost s) Hon) as (Hn & Hr & Hp).
  destruct (stopNarrativeScrollBoost_fields (frames nows (startNarrativeScrollBoost s)))
    as (Hoff & _ & _ & Hlevel).
  split; [congruence |]. split; [| exact Hoff].
  rewrite (Hlevel Hn), Hr, Hrestore. reflexivity.
Qed.

Lemma streak_le (P : R -> Prop) (s : State) (k j : nat) (nows : list R) :
  streak P s k nows -> (j <= k)%nat -> streak P s j nows.
Proof.
  intros H. revert j.
  induction H as [nows | k nows nowMs _ IH Hidle | k nows nowMs fps _ IH Hclose HP];
    intros j Hj.
  - replace j with 0%nat by lia. apply streak_none.
  - apply streak_idle; [apply IH, Hj | exact Hidle].
  - destruct j as [| j]; [apply streak_none |].
    apply streak_window with fps; [apply IH; lia | exact Hclose | exact HP].
Qed.

(** The two counters of the monitor count windows in a row. *)
Lemma frames_streaks (nows : list R) (s : State) :
  lowFpsWindows s = 0%nat -> highFpsWindows s = 0%nat ->
  streak (fun fps => fps < 42) s (lowFpsWindows (frames nows s)) nows /\
  streak (fun fps => 55 < fps) s (highFpsWindows (frames nows s)) nows.
Proof.
  intros Hl Hh. induction nows as [| nowMs nows [IHl IHh]] using rev_ind.
  - cbn. rewrite Hl, Hh. split; apply streak_none.
  - rewrite frames_snoc.
    destruct (monitor_cases nowMs (frames nows s)) as (_ & _ & _ & _ & _ & Hcases).
    destruct Hcases as [(Hidle & -> & -> & _) | [(_ & -> & -> & _) | (fps & Hclose & Hc & _)]].
    + split; apply streak_idle; assumption.
    + split; apply streak_none.
    + destruct Hc as [(Hslow & -> & ->) | [(Hfast & -> & ->) | (-> & ->)]].
      * split; [apply streak_window with fps; assumption | apply streak_none].
      * split; [apply streak_none | apply streak_window with fps; assumption].
      * split; apply streak_none.
Qed.

Lemma frames_isMobileLayout (nows : list R) (s : State) :
  isMobileLayout (frames nows s) = isMobileLayout s.
Proof.
  induction nows as [| nowMs nows IH] using rev_ind; [reflexivity |].
  rewrite frames_snoc. destruct (monitor_cases nowMs (frames nows s)) as (Hm & _).
  congruence.
Qed.

(** X27. The monitor lowers the tier only after two measuring windows in
    a row below 42 frames per second, and raises it only after three in a
    row above 55, and only on the desktop layout: a single slow or fast
    second changes nothing. *)
Theorem tier_changes_need_windows_in_a_row :
  forall (s : State) (nows : list R) (nowMs : R),
    lowFpsWindows s = 0%nat -> highFpsWindows s = 0%nat ->
    performanceLevel (frames (nows ++ [nowMs]) s) <> performanceLevel (frames nows s) ->
    (performanceLevel (frames (nows ++ [nowMs]) s) = low /\
     streak (fun fps => fps < 42) s 2 (nows ++ [nowMs])) \/
    (performanceLevel (frames (nows ++ [nowMs]) s) = high /\
     streak (fun fps => 55 < fps) s 3 (nows ++ [nowMs]) /\
     isMobileLayout s = false).
Proof.
  intros s nows nowMs Hl Hh Hchange.
  destruct (frames_streaks (nows ++ [nowMs]) s Hl Hh) as [Hlow Hhigh].
  rewrite frames_snoc in *.
  destruct (monitor_cases nowMs (frames nows s)) as (_ & _ & _ & _ & _ & Hcases).
  destruct Hcases as [(_ & _ & _ & Hp) | [(_ & _ & _ & Hp) | (fps & _ & _ & Hp)]];
    try contradiction.
  destruct Hp as [Hp | [(_ & Hnew & Hcount) | (_ & Hnew & Hcount & Hdesk)]];
    [contradiction | left | right].
  - split; [exact Hnew |]. apply streak_le with (1 := Hlow). exact Hcount.
  - split; [exact Hnew |]. split; [apply streak_le with (1 := Hhigh); exact Hcount |].
    rewrite frames_isMobileLayout in Hdesk. exact Hdesk.
Qed.

End HostTier.

Section NarrativeFacts.
Import Narrative.
Local Open Scope Z_scope.

(** For a positive length [((n % len) + len) % len] is the remainder of
    the division rounding down, also for a negative [n]. *)
Lemma normalized_mod (n len : Z) : 0 < len -> normalized n len = n mod len.
Proof.
  intros Hlen. unfold normalized.
  assert (Hr : - len < Z.rem n len < len).
  { pose proof (Z.rem_bound_abs n len ltac:(lia)). lia. }
  rewrite Z.rem_mod_nonneg by lia.
  replace (Z.rem n len + len) with (Z.rem n len + 1 * len) by lia.
  rewrite Z_mod_plus_full.
  rewrite (Z.quot_rem' n len) at 2.
  replace (len * (n ÷ len) + Z.rem n len) with (Z.rem n len + (n ÷ len) * len) by lia.
  rewrite Z_mod_plus_full. reflexivity.
Qed.

Lemma nth_error_in_range (stops : list string) (i : Z) :
  0 <= i < Z.of_nat (List.length stops) ->
  exists mode, (if i <? 0 then None else nth_error stops (Z.to_nat i)) = Some mode.
Proof.
  intros Hi. destruct (i <? 0) eqn:Hneg; [apply Z.ltb_lt in Hneg; lia |].
  destruct (nth_error stops (Z.to_nat i)) as [mode |] eqn:Hnth; [exists mode; reflexivity |].
  apply nth_error_None in Hnth. lia.
Qed.

Lemma applyAnimIndex_ok (n : Z) (now0 now1 now2 : R) (s : State) :
  animStops s <> [] ->
  exists s',
    applyAnimIndex n now0 now1 now2 s = Returned s' /\
    activeAnimIndex s' = n mod Z.of_nat (List.length (animStops s)) /\
    mobileCycleModeIndex s' = mobileCycleModeIndex s /\
    0 <= activeAnimIndex s' < Z.of_nat (List.length (animStops s)) /\
    animStops s' = animStops s /\
    (activeAnimIndex s = n mod Z.of_nat (List.length (animStops s)) -> s' = s) /\
    (activeAnimIndex s <> n mod Z.of_nat (List.length (animStops s)) ->
     exists mode,
       nth_error (animStops s)
                 (Z.to_nat (n mod Z.of_nat (List.length (animStops s)))) = Some mode /\
       viewer s' = Controller.setAnimation mode now0 now1 now2 (viewer s)).
Proof.
  intros Hstops.
  assert (Hlen : 0 < Z.of_nat (List.length (animStops s))).
  { destruct (animStops s); [contradiction | cbn [List.length]; lia]. }
  pose proof (Z.mod_pos_bound n _ Hlen) as Hrange.
  unfold applyAnimIndex. cbv zeta. rewrite (normalized_mod n _ Hlen).
  destruct (n mod Z.of_nat (List.length (animStops s)) =? activeAnimIndex s) eqn:Heq.
  - apply Z.eqb_eq in Heq. exists s. split; [reflexivity |].
    split; [congruence |]. split; [reflexivity |]. split; [lia |]. split; [reflexivity |].
    split; [reflexivity | intros Hne; congruence].
  - apply Z.eqb_neq in Heq.
    destruct (nth_error_in_range (animStops s) _ Hrange) as [mode Hmode].
    rewrite Hmode. eexists. split; [reflexivity |].
    cbn [activeAnimIndex animStops viewer mobileCycleModeIndex].
    split; [reflexivity |]. split; [reflexivity |]. split; [exact Hrange |].
    split; [reflexivity |].
    split; [intros Habs; congruence |].
    intros _. exists mode. split; [| reflexivity].
    destruct (n mod Z.of_nat (List.length (animStops s)) <? 0); [discriminate | exact Hmode].
Qed.

(** X28. With at least one stop, [applyAnimIndex] returns and selects
    stop [n mod len], for a negative [n] too.  When that stop is the
    active one already nothing changes, so the running animation is not
    restarted; otherwise the viewer is given the mode of the stop. *)
Theorem applyAnimIndex_selects_stop :
  forall (n : Z) (now0 now1 now2 : R) (s : State),
    animStops s <> [] ->
    let len := Z.of_nat (List.length (animStops s)) in
    exists s',
      applyAnimIndex n now0 now1 now2 s = Returned s' /\
      activeAnimIndex s' = n mod len /\
      0 <= activeAnimIndex s' < len /\
      animStops s' = animStops s /\
      (activeAnimIndex s = n mod len -> s' = s) /\
      (activeAnimIndex s <> n mod len ->
       exists mode,
         nth_error (animStops s) (Z.to_nat (n mod len)) = Some mode /\
         viewer s' = Controller.setAnimation mode now0 now1 now2 (viewer s)).
Proof.
  intros n now0 now1 now2 s Hstops. cbv zeta.
  destruct (applyAnimIndex_ok n now0 now1 now2 s Hstops)
    as (s' & Hrun & Hactive & _ & Hrange & Hsame & Hkeep & Hswitch).
  exists s'. repeat split; try assumption; apply Hrange.
Qed.

Lemma scanStops_range (markerY prevTop : R) (tops : list R) (i index : Z) :
  0 <= index < i ->
  0 <= scanStops markerY prevTop tops i index < i + Z.of_nat (List.length tops).
Proof.
  revert prevTop i index. induction tops as [| currTop rest IH]; intros prevTop i index Hi;
    cbn [scanStops List.length].
  - lia.
  - destruct (Js.geb markerY (prevTop + (currTop - prevTop) * 0.5)).
    + specialize (IH currTop (i + 1) i ltac:(lia)). lia.
    + lia.
Qed.

(** X29. [resolveAnimIndexFromScroll] always names a stop that exists:
    its result is an index from 0 to [len - 1], which [applyAnimIndex]
    then takes as it is. *)
Theorem scroll_position_names_a_stop :
  forall (scroll : option (R * R * R)) (tops : list R),
    tops <> [] ->
    let len := Z.of_nat (List.length tops) in
    0 <= resolveAnimIndexFromScroll scroll tops < len /\
    normalized (resolveAnimIndexFromScroll scroll tops) len =
      resolveAnimIndexFromScroll scroll tops.
Proof.
  intros scroll tops Htops. cbv zeta.
  assert (Hlen : 0 < Z.of_nat (List.length tops)).
  { destruct tops; [contradiction | cbn [List.length]; lia]. }
  assert (Hrange : 0 <= resolveAnimIndexFromScroll scroll tops < Z.of_nat (List.length tops)).
  { unfold resolveAnimIndexFromScroll. destruct scroll as [[[scrollTop scrollHeight] clientHeight] |];
      [| lia].
    destruct (Z.of_nat (List.length tops) =? 0); [lia |].
    destruct (Js.leb (Rmax (scrollHeight - clientHeight) 0) 0); [lia |].
    destruct (Js.leb scrollTop 1); [lia |].
    destruct (Js.geb scrollTop (Rmax (scrollHeight - clientHeight) 0 - 1)); [lia |].
    destruct tops as [| top0 rest]; [contradiction |].
    pose proof (scanStops_range (scrollTop + clientHeight * 0.18)%R top0 rest 1 0 ltac:(lia)).
    cbn [List.length]. lia. }
  split; [exact Hrange |].
  rewrite normalized_mod by exact Hlen. apply Z.mod_small. exact Hrange.
Qed.

Lemma findIndexFrom_spec (mode : string) (stops : list string) (i : Z) :
  (findIndexFrom mode stops i = -1 /\ ~ In mode stops) \/
  (i <= findIndexFrom mode stops i < i + Z.of_nat (List.length stops) /\
   nth_error stops (Z.to_nat (findIndexFrom mode stops i - i)) = Some mode).
Proof.
  revert i. induction stops as [| m rest IH]; intros i; cbn [findIndexFrom List.length].
  - left. split; [reflexivity | intros []].
  - destruct (String.eqb m mode) eqn:Heq.
    + apply String.eqb_eq in Heq. subst m. right. split; [lia |].
      replace (i - i) with 0 by lia. reflexivity.
    + apply String.eqb_neq in Heq.
      destruct (IH (i + 1)) as [[Hnone Hnot] | [Hrange Hnth]].
      * left. split; [exact Hnone |]. intros [Habs | Hin]; [congruence | contradiction].
      * right. split; [lia |].
        replace (Z.to_nat (findIndexFrom mode rest (i + 1) - i))
          with (S (Z.to_nat (findIndexFrom mode rest (i + 1) - (i + 1)))) by lia.
        exact Hnth.
Qed.

(** X30. The mobile mode cycle: [applyMobileCycleMode] returns, leaves
    [mobileCycleModeIndex] at [n mod 4], and makes active the first stop
    whose mode is the mode of the cycle at that index, or stop 0 when no
    stop has it. *)
Theorem mobile_cycle_selects_mode :
  forall (n : Z) (now0 now1 now2 : R) (s : State),
    animStops s <> [] ->
    exists s' mode,
      applyMobileCycleMode n now0 now1 now2 s = Returned s' /\
      mobileCycleModeIndex s' = n mod 4 /\
      nth_error mobileCycleModes (Z.to_nat (n mod 4)) = Some mode /\
      (In mode (animStops s) ->
       nth_error (animStops s) (Z.to_nat (activeAnimIndex s')) = Some mode) /\
      (~ In mode (animStops s) -> activeAnimIndex s' = 0).
Proof.
  intros n now0 now1 now2 s Hstops.
  assert (Hlen : 0 < Z.of_nat (List.length (animStops s))).
  { destruct (animStops s); [contradiction | cbn [List.length]; lia]. }
  unfold applyMobileCycleMode. cbv zeta.
  change (Z.of_nat (List.length mobileCycleModes)) with 4.
  rewrite (normalized_mod n 4) by lia.
  pose proof (Z.mod_pos_bound n 4 ltac:(lia)) as Hrange.
  destruct (nth_error_in_range mobileCycleModes (n mod 4) Hrange) as [mode Hmode].
  rewrite Hmode.
  set (s1 := {| animStops := animStops s; activeAnimIndex := activeAnimIndex s;
                mobileCycleModeIndex := n mod 4; viewer := viewer s |}).
  assert (Hidx : 0 <= resolveStopIndexByMode mode s1 < Z.of_nat (List.length (animStops s)) /\
                 (In mode (animStops s) ->
                  nth_error (animStops s) (Z.to_nat (resolveStopIndexByMode mode s1)) = Some mode) /\
                 (~ In mode (animStops s) -> resolveStopIndexByMode mode s1 = 0)).
  { unfold resolveStopIndexByMode. cbn [animStops s1].
    destruct (findIndexFrom_spec mode (animStops s) 0) as [[Hnone Hnot] | [Hr Hnth]].
    - rewrite Hnone. cbn. split; [lia |]. split; [intros Hin; contradiction | reflexivity].
    - destruct (0 <=? findIndexFrom mode (animStops s) 0) eqn:Hpos;
        [| apply Z.leb_gt in Hpos; lia].
      split; [lia |]. split.
      + intros _. rewrite Z.sub_0_r in Hnth. exact Hnth.
      + intros Hnot. exfalso. apply Hnot. apply nth_error_In in Hnth. exact Hnth. }
  destruct Hidx as (Hr & Hfound & Hmissing).
  assert (Hstops1 : animStops s1 <> []) by exact Hstops.
  destruct (applyAnimIndex_ok (resolveStopIndexByMode mode s1) now0 now1 now2 s1 Hstops1)
    as (s' & Hrun & Hactive & Hcycle & _).
  exists s', mode. split; [exact Hrun |].
  cbn [animStops s1] in Hactive. rewrite Z.mod_small in Hactive by exact Hr.
  split; [exact Hcycle |].
  split; [destruct (n mod 4 <? 0); [discriminate | exact Hmode] |].
  rewrite Hactive. split; assumption.
Qed.

End NarrativeFacts.

(** * The further properties at concrete inputs *)

Section RampWitnesses.
Import ModeRegistry Controller.
Local Open Scope R_scope.

Lemma easeInOutCubic_symmetric_monotone_witness :
  easeInOutCubic 0.25 <= easeInOutCubic 0.75 /\ easeInOutCubic 2 = 1.
Proof.
  destruct easeInOutCubic_symmetric_monotone as (_ & Hmono & _ & _ & Hone).
  split; [apply Hmono; lra | apply Hone; lra].
Defined.

Lemma smoothstep_is_a_ramp_witness :
  smoothstep 0 0.78 0.2 <= smoothstep 0 0.78 0.5 /\ smoothstep 0 0.78 1 = 1.
Proof.
  destruct (smoothstep_is_a_ramp 0 0.78 ltac:(lra)) as (_ & _ & Hone & Hmono).
  split; [apply Hmono; lra | apply Hone; lra].
Defined.

Lemma mix_stays_between_witness :
  mix 0.62 1 (-3) = 0.62 /\ mix 0.62 1 7 = 1.
Proof.
  destruct (mix_stays_between 0.62 1 (-3)) as (_ & Hlow & _).
  destruct (mix_stays_between 0.62 1 7) as (_ & _ & Hhigh).
  split; [apply Hlow; lra | apply Hhigh; lra].
Defined.

Lemma easeOutCubic_leads_linear_witness :
  easeOutCubic 0.3 <= easeOutCubic 0.6 /\ easeOutCubic (-1) = 0.
Proof.
  destruct easeOutCubic_leads_linear as (Hmono & Hzero & _ & _).
  split; [apply Hmono; lra | apply Hzero; lra].
Defined.

Lemma reachable_afterLoad : reachable Examples.afterLoad.
Proof.
  exact (reach_loadComplete (initial false 0 0) Examples.scene 0 0 0
           (reach_initial false 0 0) eq_refl).
Qed.

Lemma blend_state_stays_in_range_witness :
  0.62 <= colorGainApplied (setAnimation "explode" 5 5 9 Examples.afterLoad) <= 1.34 /\
  0.84 <= scaleApplied (setAnimation "explode" 5 5 9 Examples.afterLoad) <= 1.7464.
Proof.
  exact (blend_state_stays_in_range (setAnimation "explode" 5 5 9 Examples.afterLoad)
           (reach_setAnimation Examples.afterLoad "explode" 5 5 9 reachable_afterLoad)).
Defined.

Lemma setAnimation_none_is_neutral_witness :
  colorGainApplied (setAnimation " OFF " 7 7 7 (Examples.loaded (Canon explode))) = 1 /\
  scaleApplied (setAnimation " OFF " 7 7 7 (Examples.loaded (Canon explode))) = 1.
Proof.
  destruct (setAnimation_none_is_neutral (Examples.loaded (Canon explode)) " OFF " 7 7 7
              eq_refl) as (Hgain & Hscale & _).
  split; [exact Hgain | exact Hscale].
Defined.

Lemma switching_mode_moves_nothing_witness :
  Kernel.splatCenter Examples3.restUniforms Examples.origin 3 Examples.unitX = Examples.unitX.
Proof.
  destruct switching_mode_moves_nothing as [Hrest _].
  apply Hrest. left. cbn [u_mode Examples3.restUniforms]. lia.
Defined.

Lemma explode_term_bounded_witness :
  exists u,
    customUniforms (updateAnimationUniforms 1000 (Examples.loaded (Canon explode))) = Some u /\
    Kernel.length (Kernel.modeTerm u Examples.origin 0 Examples.unitX) <= 0.28 * u_radius u.
Proof.
  destruct (tick_uniforms 1000 (Examples.loaded (Canon explode)) freshUniforms eq_refl)
    as (u & Hu & _).
  exists u. split; [exact Hu |].
  apply (explode_term_bounded (Examples.loaded (Canon explode)) 1000 u
           Examples.origin Examples.unitX 0 Hu).
  - discriminate.
  - reflexivity.
Defined.

Lemma swirl_keeps_axis_distance_witness :
  (Kernel.vx (Kernel.animatedCenter Examples3.swirlUniforms Examples.origin 0 Examples.unitX)
   - Kernel.vx Examples.origin)
  * (Kernel.vx (Kernel.animatedCenter Examples3.swirlUniforms Examples.origin 0 Examples.unitX)
     - Kernel.vx Examples.origin)
  + (Kernel.vz (Kernel.animatedCenter Examples3.swirlUniforms Examples.origin 0 Examples.unitX)
     - Kernel.vz Examples.origin)
    * (Kernel.vz (Kernel.animatedCenter Examples3.swirlUniforms Examples.origin 0 Examples.unitX)
       - Kernel.vz Examples.origin)
  = (Kernel.vx Examples.unitX - Kernel.vx Examples.origin)
    * (Kernel.vx Examples.unitX - Kernel.vx Examples.origin)
    + (Kernel.vz Examples.unitX - Kernel.vz Examples.origin)
      * (Kernel.vz Examples.unitX - Kernel.vz Examples.origin).
Proof.
  exact (swirl_keeps_axis_distance Examples3.swirlUniforms Examples.origin Examples.unitX 0
           eq_refl).
Defined.

Lemma breathe_scales_about_centre_witness :
  exists u pulse,
    customUniforms (updateAnimationUniforms 1000 (Examples.loaded (Canon breath))) = Some u /\
    0.88 <= pulse <= 1.12 /\
    Kernel.animatedCenter u Examples.origin 0 Examples.unitX =
      Kernel.vadd Examples.origin
        (Kernel.vscale pulse (Kernel.vsub Examples.unitX Examples.origin)).
Proof.
  destruct (tick_uniforms 1000 (Examples.loaded (Canon breath)) freshUniforms eq_refl)
    as (u & Hu & _).
  destruct (breathe_scales_about_centre (Examples.loaded (Canon breath)) 1000 u
              Examples.origin Examples.unitX 0 Hu) as (pulse & Hrange & Hpos).
  - discriminate.
  - reflexivity.
  - exists u, pulse. split; [exact Hu |]. split; [exact Hrange | exact Hpos].
Defined.

End RampWitnesses.

Section MarkerWitnesses.
Import Probe Markers.
Local Open Scope R_scope.

Lemma runs_oneNote : Tick.runs (Examples.frameBehind 800 0.1) Examples.oneNote.
Proof. split; [reflexivity |]. split; [reflexivity |]. left. reflexivity. Qed.

Lemma expired_markers_are_removed_witness :
  (nowMs (Examples.frameBehind 800 0.1) - spawnMs (Examples.note 400 800))
    / lifeMs (Examples.note 400 800) < 1 \/
  activeTextBubble Examples.twoNotes = Some 0%nat.
Proof.
  apply (expired_markers_are_removed (Examples.frameBehind 800 0.1) Examples.oneNote
           Examples.twoNotes runs_oneNote tick_oneNote 0%nat (Examples.note 400 800)).
  - left. reflexivity.
  - exact (proj1 twoNotes_lookup).
Defined.

(** [dissipateBubble] leaves the settings of the markers alone. *)
Lemma dissipateBubble_settings (now : R) (id : nat) (s : State) :
  bubbleLayer (dissipateBubble now id s) = bubbleLayer s /\
  bubblesEnabledForModel (dissipateBubble now id s) = bubblesEnabledForModel s /\
  performanceLevel (dissipateBubble now id s) = performanceLevel s.
Proof.
  unfold dissipateBubble. destruct (heap s !! id) as [b |]; [| repeat split; reflexivity].
  unfold spawnDustBurst.
  destruct (bubbleLayer s) eqn:Hl; cbn [activeTextBubble withBubbles withDust];
    destruct (bool_decide _);
    cbn [bubbleLayer bubblesEnabledForModel performanceLevel withActive withBubbles withDust];
    repeat split; try reflexivity; exact Hl.
Qed.

Lemma runs_after_dissipate :
  Tick.runs (Examples.frameBehind 1000 0.1) (dissipateBubble 900 0 Examples.twoNotes).
Proof.
  destruct (dissipateBubble_settings 900 0 Examples.twoNotes) as (Hl & He & Hp).
  unfold Tick.runs. rewrite Hl, He, Hp.
  split; [reflexivity |]. split; [reflexivity |]. left. reflexivity.
Qed.

Lemma dissipated_marker_is_removed_witness :
  exists s',
    updateFloatingBubbles (Examples.frameBehind 1000 0.1)
      (dissipateBubble 900 0 Examples.twoNotes) = Returned s' /\
    ~ In 0%nat (floatingBubbles s').
Proof.
  destruct (updateFloatingBubbles_returns (Examples.frameBehind 1000 0.1)
              (dissipateBubble 900 0 Examples.twoNotes)) as [s' Hs'].
  exists s'. split; [exact Hs' |].
  apply (dissipated_marker_is_removed Examples.twoNotes s' 900 0%nat
           (Examples.note 400 800) (Examples.frameBehind 1000 0.1)
           reachable_twoNotes (proj1 twoNotes_lookup)).
  - cbn [lifeMs Examples.note]. unfold bubbleLifeMinMs, bubbleLifeMaxMs. lra.
  - cbn [nowMs Examples.frameBehind]. lra.
  - exact runs_after_dissipate.
  - exact Hs'.
Defined.

Lemma no_spawn_while_active_witness :
  exists s',
    updateFloatingBubbles (Examples.frameBehind 1000 0.1) (click 900 0 Examples.twoNotes)
      = Returned s' /\
    activeTextBubble s' = Some 0%nat /\
    nextId s' = nextId (click 900 0 Examples.twoNotes).
Proof.
  destruct (updateFloatingBubbles_returns (Examples.frameBehind 1000 0.1)
              (click 900 0 Examples.twoNotes)) as [s' Hs'].
  destruct (no_spawn_while_active (Examples.frameBehind 1000 0.1)
              (click 900 0 Examples.twoNotes) s' Hs') as [Hactive Hquiet].
  assert (Hzero : activeTextBubble (click 900 0 Examples.twoNotes) = Some 0%nat)
    by (rewrite click_twoNotes; apply activateTextBubble_active).
  exists s'. split; [exact Hs' |]. split; [congruence |].
  apply Hquiet. rewrite Hzero. discriminate.
Defined.

Lemma next_spawn_gap_bounds_witness :
  exists t,
    nextBubbleSpawnMs (scheduleNextBubble 1000 0.5 Examples.lowDesktop) = Finite t /\
    1000 + Tick.minGap Examples.lowDesktop <= t < 1000 + Tick.maxGap Examples.lowDesktop /\
    230 <= Tick.minGap Examples.lowDesktop /\ Tick.maxGap Examples.lowDesktop <= 865.28.
Proof.
  apply (next_spawn_gap_bounds Examples.lowDesktop 1000 0.5). split; lra.
Defined.

Lemma guarded_agrees : Buffer.agreeInside Examples.opaqueContext Examples2.guardedContext.
Proof.
  split; [reflexivity |]. split; [reflexivity |]. split; [reflexivity |].
  intros x y [Hx Hy].
  cbn [readPixels drawingBufferWidth drawingBufferHeight
       Examples.opaqueContext Examples2.guardedContext] in *.
  assert (H : ((0 <=? x) && (x <? 800) && (0 <=? y) && (y <? 600))%Z = true).
  { rewrite !andb_true_iff. repeat split;
      (apply Z.leb_le; lia) || (apply Z.ltb_lt; lia). }
  rewrite H. reflexivity.
Qed.

Lemma probe_reads_inside_buffer_witness :
  isModelPixelCovered (Some Examples.opaqueContext) high false 800 600 799 599 14 =
  isModelPixelCovered (Some Examples2.guardedContext) high false 800 600 799 599 14.
Proof.
  exact (probe_reads_inside_buffer Examples.opaqueContext Examples2.guardedContext
           high false 800 600 799 599 14 guarded_agrees).
Defined.

Lemma probe_covered_iff_some_sample_witness :
  isModelPixelCovered (Some Examples.opaqueContext) high false 800 600 400 300 14
  = Returned true.
Proof.
  pose proof (probe_covered_iff_some_sample Examples.opaqueContext high false
                800 600 400 300 14 eq_refl ltac:(cbn; lia) ltac:(cbn; lia)) as Hiff.
  cbv zeta in Hiff. apply (proj2 Hiff).
  exists 0, 0. split; [left; reflexivity |].
  exists 255%Z. split; [apply readRenderAlpha_opaque | lia].
Defined.

Lemma text_markers_capped_witness :
  (Census.textCount Examples.twoNotes <= maxTextBubbles)%nat.
Proof. exact (text_markers_capped Examples.twoNotes reachable_twoNotes). Defined.

Lemma twoNotes_withinCapacity : withinCapacity Examples.twoNotes.
Proof. change (2 <= 18)%nat. lia. Qed.

Lemma tier_change_keeps_newest_witness :
  floatingBubbles (setPerformanceLevel low Examples.twoNotes) =
  drop (List.length (floatingBubbles Examples.twoNotes)
        - capacity low (isMobileLike Examples.twoNotes))
       (floatingBubbles Examples.twoNotes).
Proof. exact (tier_change_keeps_newest low Examples.twoNotes twoNotes_withinCapacity). Defined.

End MarkerWitnesses.

Section ViewWitnesses.
Import Probe Markers Kernel.
Local Open Scope R_scope.

Lemma opaque_bytes :
  forall gl, Some Examples.opaqueContext = Some gl -> Buffer.bytes gl.
Proof.
  intros gl [= <-] x y px. cbn [readPixels Examples.opaqueContext]. intros [= <-].
  cbn [red green blue]. lia.
Qed.

Lemma marker_colour_is_rgb_witness :
  exists rgb,
    Colour.colorRgbOf high Examples.afterLoad (Some Examples.opaqueContext)
      Examples2.centre 0.5 = Returned rgb /\
    Colour.isRgb rgb.
Proof.
  exact (marker_colour_is_rgb high Examples.afterLoad (Some Examples.opaqueContext)
           Examples2.centre 0.5 reachable_afterLoad opaque_bytes).
Defined.

Lemma marker_colour_falls_back_witness :
  Colour.resolveBubbleColor Examples.afterLoad (Some Examples.throwingContext)
    Examples2.centre 0.5 =
  Returned (Colour.fallbackBubbleColor (Controller.animationMode Examples.afterLoad) 0.5).
Proof.
  apply (marker_colour_falls_back Examples.afterLoad (Some Examples.throwingContext)
           Examples2.centre 0.5).
  left. right. right. intros x y. reflexivity.
Defined.

Lemma push_is_outward_and_bounded_witness :
  exists position',
    Placement.pushBubbleOutsideModel (Examples2.view (Some Examples.throwingContext))
      Examples.unitX Examples.unitX = Returned position' /\
    position' = Examples.unitX.
Proof.
  destruct (push_is_outward_and_bounded (Examples2.view (Some Examples.throwingContext))
              Examples.unitX Examples.unitX) as (p & k & Hrun & _ & _ & _ & Hfail).
  exists p. split; [exact Hrun |].
  apply Hfail. right. right. intros x y. reflexivity.
Defined.

Lemma tan_fov_60 : tan (60 * PI / 180 / 2) <> 0.
Proof.
  replace (60 * PI / 180 / 2) with (PI / 6) by lra.
  rewrite tan_PI6. intros H.
  assert (Hs : 0 < sqrt 3) by (apply sqrt_lt_R0; lra).
  assert (Hinv : 0 < / sqrt 3) by (apply Rinv_0_lt_compat, Hs).
  lra.
Qed.

Lemma framing_keeps_camera_outside_witness :
  0 < Camera.near (Camera.frameCameraFromSplatMesh None (Some 2) 60)
    < Camera.far (Camera.frameCameraFromSplatMesh None (Some 2) 60) /\
  Camera.sceneRadius (Camera.frameCameraFromSplatMesh None (Some 2) 60) * 1.8
    <= length (vsub (Camera.position (Camera.frameCameraFromSplatMesh None (Some 2) 60))
                    (Camera.sceneCenter (Camera.frameCameraFromSplatMesh None (Some 2) 60))).
Proof.
  destruct (framing_keeps_camera_outside None (Some 2) 60 tan_fov_60)
    as (_ & Hclip & _ & _ & Hfar).
  split; [exact Hclip | exact Hfar].
Defined.

Lemma low_tier_is_never_sharper_witness :
  0 < Camera.applyRendererPixelRatio high false 3 /\
  Camera.applyRendererPixelRatio low false 3 <= Camera.applyRendererPixelRatio high false 3.
Proof.
  destruct (low_tier_is_never_sharper high false 3) as (Hle & _ & _ & Hpos).
  split; [apply Hpos; lra | exact Hle].
Defined.

End ViewWitnesses.

Section PageWitnesses.
Import Probe.
Local Open Scope R_scope.

Lemma page_and_viewer_tiers_agree_witness :
  Markers.performanceLevel (Host.viewer Examples3.mobilePage)
  = Host.performanceLevel Examples3.mobilePage.
Proof.
  exact (page_and_viewer_tiers_agree Examples3.mobilePage
           (Host.reach_boot true true true true ["note"%string] 0 0)).
Defined.

Lemma mobile_layout_stays_low_witness :
  Host.performanceLevel Examples3.mobilePage = low /\
  Markers.performanceLevel (Host.viewer Examples3.mobilePage) = low.
Proof.
  exact (mobile_layout_stays_low Examples3.mobilePage
           (Host.reach_boot true true true true ["note"%string] 0 0) eq_refl).
Defined.

Lemma scroll_boost_round_trip_witness :
  Host.performanceLevel
    (Host.frames [1000; 2000] (Host.startNarrativeScrollBoost Examples3.desktopPage)) = low /\
  Host.performanceLevel
    (Host.stopNarrativeScrollBoost
       (Host.frames [1000; 2000] (Host.startNarrativeScrollBoost Examples3.desktopPage)))
  = Host.performanceLevel Examples3.desktopPage /\
  Host.isNarrativeScrolling
    (Host.stopNarrativeScrollBoost
       (Host.frames [1000; 2000] (Host.startNarrativeScrollBoost Examples3.desktopPage)))
  = false.
Proof.
  exact (scroll_boost_round_trip Examples3.desktopPage [1000; 2000] eq_refl).
Defined.

(** A window that closes below 42 frames per second outside a scroll
    boost. *)
Lemma monitor_slow (nowMs : R) (s : Host.State) :
  Host.isNarrativeScrolling s = false ->
  1000 <= nowMs - Host.fpsWindowStartMs s ->
  INR (S (Host.fpsFrameCount s)) * 1000 / (nowMs - Host.fpsWindowStartMs s) < 42 ->
  Host.lowFpsWindows (Host.monitor nowMs s) = S (Host.lowFpsWindows s) /\
  Host.fpsWindowStartMs (Host.monitor nowMs s) = nowMs /\
  Host.fpsFrameCount (Host.monitor nowMs s) = 0%nat /\
  Host.isNarrativeScrolling (Host.monitor nowMs s) = false /\
  Host.performanceLevel (Host.monitor nowMs s) =
    (if Markers.perfEqb (Host.performanceLevel s) high
        && (2 <=? S (Host.lowFpsWindows s))%nat
     then low else Host.performanceLevel s).
Proof.
  intros Hidle Hclose Hslow. unfold Host.monitor. cbv zeta.
  cbn [Host.fpsWindowStartMs Host.fpsFrameCount Host.isNarrativeScrolling Host.withWindow].
  unfold Js.geb. rewrite leb_true by exact Hclose. rewrite Hidle.
  rewrite ltb_true by exact Hslow.
  cbn [Host.performanceLevel Host.lowFpsWindows Host.highFpsWindows Host.isMobileLayout
       Host.withWindows Host.withWindow].
  destruct (Markers.perfEqb (Host.performanceLevel s) high
            && (2 <=? S (Host.lowFpsWindows s))%nat).
  - match goal with
    | |- context [Host.applyPerformanceLevel low ?s3] =>
        destruct (applyPerformanceLevel_fields low s3)
          as (-> & _ & _ & -> & _ & -> & _ & -> & ->)
    end.
    cbn [Host.lowFpsWindows Host.fpsWindowStartMs Host.fpsFrameCount
         Host.isNarrativeScrolling Host.withWindows Host.withWindow].
    repeat split; try reflexivity; exact Hidle.
  - replace (3 <=? 0)%nat with false by reflexivity.
    rewrite andb_false_r. cbn [andb].
    cbn [Host.lowFpsWindows Host.fpsWindowStartMs Host.fpsFrameCount Host.performanceLevel
         Host.isNarrativeScrolling Host.withWindows Host.withWindow].
    repeat split; try reflexivity; exact Hidle.
Qed.

Lemma desktopPage_drops :
  Host.performanceLevel (Host.frames ([1000] ++ [2000]) Examples3.desktopPage) = low /\
  Host.performanceLevel (Host.frames [1000] Examples3.desktopPage) = high.
Proof.
  change (Host.frames ([1000] ++ [2000]) Examples3.desktopPage)
    with (Host.monitor 2000 (Host.monitor 1000 Examples3.desktopPage)).
  change (Host.frames [1000] Examples3.desktopPage)
    with (Host.monitor 1000 Examples3.desktopPage).
  assert (H0 : Host.isNarrativeScrolling Examples3.desktopPage = false /\
               Host.fpsWindowStartMs Examples3.desktopPage = 0 /\
               Host.fpsFrameCount Examples3.desktopPage = 0%nat /\
               Host.lowFpsWindows Examples3.desktopPage = 0%nat /\
               Host.performanceLevel Examples3.desktopPage = high)
    by (repeat split; reflexivity).
  destruct H0 as (Hn0 & Hs0 & Hc0 & Hl0 & Hp0).
  destruct (monitor_slow 1000 Examples3.desktopPage Hn0) as (Hl1 & Hs1 & Hc1 & Hn1 & Hp1).
  { rewrite Hs0. lra. }
  { rewrite Hs0, Hc0. cbn [INR]. lra. }
  rewrite Hl0, Hp0 in *. cbn [Markers.perfEqb andb Nat.leb] in Hp1.
  destruct (monitor_slow 2000 (Host.monitor 1000 Examples3.desktopPage) Hn1)
    as (_ & _ & _ & _ & Hp2).
  { rewrite Hs1. lra. }
  { rewrite Hs1, Hc1. cbn [INR]. lra. }
  rewrite Hl1, Hp1 in Hp2. cbn [Markers.perfEqb andb Nat.leb] in Hp2.
  split; [exact Hp2 | exact Hp1].
Qed.

Lemma tier_changes_need_windows_in_a_row_witness :
  (Host.performanceLevel (Host.frames ([1000] ++ [2000]) Examples3.desktopPage) = low /\
   Host.streak (fun fps => fps < 42) Examples3.desktopPage 2 ([1000] ++ [2000])) \/
  (Host.performanceLevel (Host.frames ([1000] ++ [2000]) Examples3.desktopPage) = high /\
   Host.streak (fun fps => 55 < fps) Examples3.desktopPage 3 ([1000] ++ [2000]) /\
   Host.isMobileLayout Examples3.desktopPage = false).
Proof.
  apply (tier_changes_need_windows_in_a_row Examples3.desktopPage [1000] 2000).
  - reflexivity.
  - reflexivity.
  - destruct desktopPage_drops as [Hafter Hbefore]. rewrite Hafter, Hbefore. discriminate.
Defined.

Lemma applyAnimIndex_selects_stop_witness :
  exists s',
    Narrative.applyAnimIndex (-1) 0 0 0 Examples3.narrative = Returned s' /\
    Narrative.activeAnimIndex s' = 2%Z.
Proof.
  destruct (applyAnimIndex_selects_stop (-1) 0 0 0 Examples3.narrative)
    as (s' & Hrun & Hactive & _).
  - discriminate.
  - exists s'. split; [exact Hrun | exact Hactive].
Defined.

Lemma scroll_position_names_a_stop_witness :
  (0 <= Narrative.resolveAnimIndexFromScroll
          (Some (500%R, 2000%R, 600%R)) [0%R; 400%R; 800%R] < 3)%Z.
Proof.
  destruct (scroll_position_names_a_stop (Some (500, 2000, 600)) [0; 400; 800])
    as [Hrange _].
  - discriminate.
  - exact Hrange.
Defined.

Lemma mobile_cycle_selects_mode_witness :
  exists s',
    Narrative.applyMobileCycleMode 5 0 0 0 Examples3.narrative = Returned s' /\
    Narrative.mobileCycleModeIndex s' = 1%Z /\
    nth_error (Narrative.animStops Examples3.narrative)
              (Z.to_nat (Narrative.activeAnimIndex s')) = Some "swirl"%string.
Proof.
  destruct (mobile_cycle_selects_mode 5 0 0 0 Examples3.narrative)
    as (s' & mode & Hrun & Hcycle & Hmode & Hfound & _).
  - discriminate.
  - exists s'. split; [exact Hrun |]. split; [exact Hcycle |].
    injection Hmode as <-. apply Hfound. right. left. reflexivity.
Defined.

End PageWitnesses.

(** * The bridges across a change of mode *)

Section ModeSwitchBridges.
Import ModeRegistry Controller.
Local Open Scope R_scope.











End ModeSwitchBridges.
